(** * bik-grapher: dependency graphs of CloudFormation stacks

    A shallow embedding of [src/index.ts] and the properties of its four
    layers: the paginating API wrapper, the read-through file cache, the
    interestingness filter with the node names, and the emission of the
    synthetic unit graph handed to madge. The embedding follows the
    latest revision of the file, the one with the [CloudFormation] and
    [FilesystemCache] classes, the region configuration and the
    [--include] option. The first revision, which inlines the cache in
    every API call, is embedded in the module [FirstRevision] and
    compared with the latest.

    Conventions of the embedding.
    - An optional property of a JavaScript object is an [option]: [None]
      is the property being absent (undefined).
    - A function that can throw returns a [completion]; an [async]
      function that also performs I/O is a computation of the monad [M],
      whose first component is the sequence of I/O operations it issues,
      in order. The program does not await its [mkdir], [writeFile] and
      [appendFile] calls, so the sequence records that they were issued,
      not when the file system carried them out.
    - [path.join] is kept symbolic (the constructor [joinPath]).
    - A string is a sequence of bytes, as the names of CloudFormation
      are.

    The file has four parts: the embedding, the vocabulary of the
    properties, sample data (a small account), and the properties with
    their proofs, each followed at the end by its instance on the sample
    data: first the properties C1 to C10 of the specification, then
    further properties X1 to X23 of the code, among them the comparison
    of the two revisions. *)

From Stdlib Require Import String Ascii List Bool Arith Lia.
Import ListNotations.

Local Open Scope list_scope.
Local Open Scope string_scope.

(* ================================================================== *)
(** ** JavaScript values used by the program *)

(** Truthiness of [string | undefined]: undefined and the empty string
    are falsy. *)
Definition truthy (s : option string) : bool :=
  match s with
  | Some EmptyString => false
  | Some _ => true
  | None => false
  end.

(** [`${x}`] for [x : string | undefined]. *)
Definition template (s : option string) : string :=
  match s with
  | Some v => v
  | None => "undefined"
  end.

(** [`${x}`] for an object without a [toString] of its own. *)
Definition objectObject : string := "[object Object]".

(** The values a [throw] of this program or of its libraries carries. *)
Inductive error : Type :=
| Error (message : string)
    (* [new Error(message)] *)
| SyntaxError (message : string)
    (* [JSON.parse], [new RegExp] *)
| SystemError (syscall code : string)
    (* an [Error] of Node's fs with [syscall] and [code] *)
| CloudFormationServiceException (name message : string)
    (* the SDK's service exception or one of its subclasses [name] *)
| Thrown (description : string).
    (* anything else *)

(** How a call ends. [Undetermined] is not a JavaScript outcome: the
    embedding gives it where it does not decide one (a pagination loop
    that is still running when the fuel is spent, a regular expression
    whose source uses syntax outside the embedded fragment). *)
Inductive completion (A : Type) : Type :=
| Return (a : A)
| Throw (e : error)
| Undetermined (why : string).

Arguments Return {A} a.
Arguments Throw {A} e.
Arguments Undetermined {A} why.

Definition cbind {A B} (c : completion A) (k : A -> completion B) : completion B :=
  match c with
  | Return a => k a
  | Throw e => Throw e
  | Undetermined w => Undetermined w
  end.

(* ================================================================== *)
(** ** The AWS SDK's data, restricted to the properties the program reads *)

Record Tag : Type := mkTag {
  Key : option string;
  Value : option string
}.

(** [ParentId = None] is the key being absent: the program tests
    ["ParentId" in stack]. *)
Record Stack : Type := mkStack {
  StackId : option string;
  StackName : option string;
  ParentId : option string;
  Tags : option (list Tag)
}.

Record Export : Type := mkExport {
  ExportingStackId : option string;
  Name : option string
}.

Inductive command : Type :=
| DescribeStacksCommand (NextToken : option string)
| ListExportsCommand (NextToken : option string)
| ListImportsCommand (ExportName : string) (NextToken : option string).

(** A response of [cfClient.send], read through [as any]. *)
Record response : Type := mkResponse {
  Stacks : option (list Stack);
  Exports : option (list Export);
  Imports : option (list string);
  NextToken : option string
}.

(* ================================================================== *)
(** ** Paths and I/O operations *)

Inductive path : Type :=
| dir (name : string)
| joinPath (parent : path) (name : string).

Definition CACHE_DIR : path := dir ".cache".
Definition OUTPUT_BASEDIR : path := dir ".output".
Definition APP_OUTPUT_DIR : path := joinPath OUTPUT_BASEDIR "apps".
Definition STACK_OUTPUT_DIR : path := joinPath OUTPUT_BASEDIR "stacks".

(** The operations that the program issues. [MadgeImage p image] is the
    call [madge(p)] that is to be followed by [graph.image(image)]; what
    [madge] does with the directory, and whether it fails, lies outside
    the program and is not embedded: the completion of [main] is that of
    the code before its calls of [madge]. *)
Inductive event : Type :=
| Mkdir (p : path)
| WriteFile (p : path) (data : string)
| AppendFile (p : path) (data : string)
| Send (region : option string) (c : command)
| MadgeImage (p : path) (image : string).

(** Computations: the operations issued, then how the call ended. *)
Definition M (A : Type) : Type := (list event * completion A)%type.

Definition ret {A} (a : A) : M A := ([], Return a).
Definition throw {A} (e : error) : M A := ([], Throw e).
Definition emit (ev : event) : M unit := ([ev], Return tt).
Definition lift {A} (c : completion A) : M A := ([], c).

Definition bind {A B} (m : M A) (k : A -> M B) : M B :=
  match m with
  | (t, Return a) => let (t', c) := k a in ((t ++ t')%list, c)
  | (t, Throw e) => (t, Throw e)
  | (t, Undetermined w) => (t, Undetermined w)
  end.

(** [try { m } catch (error) { handler(error) }] *)
Definition try_catch {A} (m : M A) (handler : error -> M A) : M A :=
  match m with
  | (t, Throw e) => let (t', c) := handler e in ((t ++ t')%list, c)
  | _ => m
  end.

Declare Scope js_scope.
Delimit Scope js_scope with js.
Notation "x <- m ;; k" := (bind m (fun x => k))
  (at level 61, m at next level, right associativity) : js_scope.
Notation "m ;;; k" := (bind m (fun _ => k))
  (at level 61, right associativity) : js_scope.
Notation "x <~ c ;; k" := (cbind c (fun x => k))
  (at level 61, c at next level, right associativity) : js_scope.
Local Open Scope js_scope.

Definition trace {A} (m : M A) : list event := fst m.
Definition outcome {A} (m : M A) : completion A := snd m.

(** [for (const x of xs) body(x)], where [body] returns [tt] both when it
    falls through and when it [continue]s. *)
Fixpoint for_of {A} (xs : list A) (body : A -> M unit) : M unit :=
  match xs with
  | [] => ret tt
  | x :: xs' => body x ;;; for_of xs' body
  end.

(* ================================================================== *)
(** ** Node names *)

Record RegionConfiguration : Type := mkRegionConfiguration {
  region : option string;
  implicit : bool
}.

(** [regionConfig.implicit ? ` (${regionConfig.region})` : ""] *)
Definition regionSuffix (regionConfig : RegionConfiguration) : string :=
  if implicit regionConfig
  then " (" ++ template (region regionConfig) ++ ")"
  else "".

Definition invalidStack : error := Error ("Invalid stack '" ++ objectObject ++ "'").
Definition invalidTag : error := Error ("Invalid tag '" ++ objectObject ++ "'").
Definition invalidExport : error := Error ("Invalid export '" ++ objectObject ++ "'").

Definition eqb_key (k : option string) (key : string) : bool :=
  match k with
  | Some k' => String.eqb k' key
  | None => false
  end.

(** [getTagValue]: [Return None] is the [null] of a tag that is not there. *)
Definition getTagValue (stack : Stack) (key : string) : completion (option string) :=
  match Tags stack with
  | None => Throw invalidStack
  | Some tags =>
      match find (fun tag => eqb_key (Key tag) key) tags with
      | None => Return None
      | Some tag =>
          if truthy (Value tag) then Return (Value tag) else Throw invalidTag
      end
  end.

Definition getNodeNameForApp (stack : Stack) (regionConfig : RegionConfiguration)
  : completion string :=
  appName <~ getTagValue stack "balsamiq-product" ;;
  environment <~ getTagValue stack "environment" ;;
  if truthy appName && truthy environment then
    Return (template appName ++ "-" ++ template environment ++ regionSuffix regionConfig)
  else if truthy (StackName stack) then
    Return (template (StackName stack) ++ regionSuffix regionConfig)
  else Throw invalidStack.

Definition getNodeNameForStack (stack : Stack) (regionConfig : RegionConfiguration)
  : completion string :=
  if truthy (StackName stack) then
    Return (template (StackName stack) ++ regionSuffix regionConfig)
  else Throw invalidStack.

(* ================================================================== *)
(** ** Regular expressions

    The fragment of JavaScript's pattern syntax the program's literals
    use, which is also what [new RegExp] is embedded for: characters
    that stand for themselves, [|], [^], [$] and capturing groups. No
    flag is ever given, so [^] and [$] are the ends of the input. *)

Inductive regex : Type :=
| Empty
| Char (c : ascii)
| Seq (r1 r2 : regex)
| Alt (r1 r2 : regex)
| Bol
| Eol
| Group (r : regex).

(** [ends r pos input]: where a match of [r] that starts at index [pos],
    with [input] still to read, can end. *)
Fixpoint ends (r : regex) (pos : nat) (input : list ascii) : list (nat * list ascii) :=
  match r with
  | Empty => [(pos, input)]
  | Char c =>
      match input with
      | x :: rest => if Ascii.eqb x c then [(S pos, rest)] else []
      | [] => []
      end
  | Seq r1 r2 => flat_map (fun e => ends r2 (fst e) (snd e)) (ends r1 pos input)
  | Alt r1 r2 => (ends r1 pos input ++ ends r2 pos input)%list
  | Bol => if Nat.eqb pos 0 then [(pos, input)] else []
  | Eol => match input with [] => [(pos, input)] | _ :: _ => [] end
  | Group r' => ends r' pos input
  end.

(** A match starting at [pos] or later. *)
Fixpoint search (r : regex) (pos : nat) (input : list ascii) : bool :=
  match ends r pos input with
  | _ :: _ => true
  | [] =>
      match input with
      | [] => false
      | _ :: rest => search r (S pos) rest
      end
  end.

(** [r.test(s)] *)
Definition test (r : regex) (s : string) : bool :=
  search r 0 (list_ascii_of_string s).

(** The parser: one frame per group that is open, the innermost first. *)
Record frame : Type := mkFrame {
  alternatives : list regex;   (* the finished alternatives, last first *)
  terms : list regex           (* the terms of the current one, last first *)
}.

Definition sequence (ts : list regex) : regex := fold_right Seq Empty ts.

Fixpoint disjunction (alts : list regex) : regex :=
  match alts with
  | [] => Empty
  | [a] => a
  | a :: rest => Alt a (disjunction rest)
  end.

Definition close (f : frame) : regex :=
  disjunction (rev (sequence (rev (terms f)) :: alternatives f)).

Definition push (t : regex) (f : frame) : frame :=
  mkFrame (alternatives f) (t :: terms f).

(** Pattern characters with a meaning that the fragment leaves out. *)
Definition unsupported (c : ascii) : bool :=
  existsb (Ascii.eqb c) (list_ascii_of_string "\.*+?[]{}").

Definition invalidRegExp (source why : string) : error :=
  SyntaxError ("Invalid regular expression: /" ++ source ++ "/: " ++ why).

Fixpoint parse (source : string) (f : frame) (open : list frame) (l : list ascii)
  : completion regex :=
  match l with
  | [] =>
      match open with
      | [] => Return (close f)
      | _ :: _ => Throw (invalidRegExp source "Unterminated group")
      end
  | c :: l' =>
      if Ascii.eqb c "|"%char then
        parse source (mkFrame (sequence (rev (terms f)) :: alternatives f) []) open l'
      else if Ascii.eqb c "("%char then
        parse source (mkFrame [] []) (f :: open) l'
      else if Ascii.eqb c ")"%char then
        match open with
        | [] => Throw (invalidRegExp source "Unmatched ')'")
        | outer :: open' => parse source (push (Group (close f)) outer) open' l'
        end
      else if Ascii.eqb c "^"%char then parse source (push Bol f) open l'
      else if Ascii.eqb c "$"%char then parse source (push Eol f) open l'
      else if unsupported c then Undetermined "RegExp"
      else parse source (push (Char c) f) open l'
  end.

(** [new RegExp(source)] *)
Definition RegExp (source : string) : completion regex :=
  parse source (mkFrame [] []) [] (list_ascii_of_string source).

(** A regular expression literal [/source/] of the program text. *)
Definition regexp_literal (source : string) : regex :=
  match RegExp source with
  | Return r => r
  | _ => Empty
  end.

(** [xs.join(separator)] *)
Fixpoint join (separator : string) (xs : list string) : string :=
  match xs with
  | [] => ""
  | [x] => x
  | x :: rest => x ++ separator ++ join separator rest
  end.

(* ================================================================== *)
(** ** The interestingness filter *)

Inductive IncludeOptionChoice : Type := mysql | redis.

Definition IncludeOptionChoice_eqb (a b : IncludeOptionChoice) : bool :=
  match a, b with
  | mysql, mysql | redis, redis => true
  | _, _ => false
  end.

(** [!includes || !includes.includes(choice)] *)
Definition notIncluded (includes : option (list IncludeOptionChoice))
  (choice : IncludeOptionChoice) : bool :=
  match includes with
  | None => true
  | Some l => negb (existsb (IncludeOptionChoice_eqb choice) l)
  end.

Definition isSome {A} (o : option A) : bool :=
  match o with Some _ => true | None => false end.

Definition isInterestingStack (stack : Stack) (environment : string)
  (apps : option (list string)) (includes : option (list IncludeOptionChoice))
  : completion bool :=
  if negb (truthy (StackName stack)) then Throw invalidStack else
  let name := template (StackName stack) in
  let result := true in
  (* Checks that are safe to apply always: *)
  let result :=
    result &&
    (* Exclude CDK toolkit stack *) negb (test (regexp_literal "^CDKToolkit$") name) &&
    (* Exclude nested stacks *) negb (isSome (ParentId stack)) &&
    (* Exclude shared infra stacks *) negb (test (regexp_literal "^internal-") name) &&
    (* Exclude some singleton stacks *) negb (test (regexp_literal "^(balsamiq-slack)$") name) &&
    (* Exclude some apps *)
    negb (test (regexp_literal
      "^(workflow-triggerer|autosavedreactionsforslack|acetaia|bottega)-") name) in
  let result :=
    if notIncluded includes mysql
    then result && (* Exclude mysql resource-stack *) negb (test (regexp_literal "-mysql$") name)
    else result in
  let result :=
    if notIncluded includes redis
    then result && (* Exclude redis resource-stack *) negb (test (regexp_literal "-redis$") name)
    else result in
  if result then
    inEnvironment <~ RegExp ("-" ++ environment ++ "-|-" ++ environment ++ "$") ;;
    if test inEnvironment name then
      match apps with
      | None => Return true
      | Some apps' =>
          ofApps <~ RegExp ("^(" ++ join "|" apps' ++ ")-") ;;
          Return (test ofApps name)
      end
    else Return false
  else Return false.

(* ================================================================== *)
(** ** [Map<string, V>]: keys in insertion order *)

Definition Map (V : Type) : Type := list (string * V).

Fixpoint Map_set {V} (key : string) (value : V) (m : Map V) : Map V :=
  match m with
  | [] => [(key, value)]
  | (k, v) :: m' =>
      if String.eqb k key then (k, value) :: m' else (k, v) :: Map_set key value m'
  end.

Fixpoint Map_get {V} (key : string) (m : Map V) : option V :=
  match m with
  | [] => None
  | (k, v) :: m' => if String.eqb k key then Some v else Map_get key m'
  end.

Definition Map_values {V} (m : Map V) : list V := map snd m.

(** [xs.filter(p)] for a predicate that can throw. *)
Fixpoint filter_throwing {A} (p : A -> completion bool) (xs : list A)
  : completion (list A) :=
  match xs with
  | [] => Return []
  | x :: xs' =>
      keep <~ p x ;;
      rest <~ filter_throwing p xs' ;;
      Return (if keep then x :: rest else rest)
  end.

(* ================================================================== *)
(** ** JSON

    [JSON.parse] at the type the caller casts its result to, and
    [JSON.stringify(value, null, 2)]. *)

Class JSON (T : Type) : Type := {
  JSON_parse : string -> error + T;
  JSON_stringify : T -> string
}.

Definition settle {A} (r : error + A) : completion A :=
  match r with
  | inl e => Throw e
  | inr a => Return a
  end.

Definition newline : string := String (ascii_of_nat 10) EmptyString.

(** [!apps || apps.length > 1] *)
Definition multipleApps (apps : option (list string)) : bool :=
  match apps with
  | None => true
  | Some l => Nat.ltb 1 (length l)
  end.

(** The unit file of a node and the line that makes it depend on
    another. *)
Definition unitFile (outputDir : path) (node : string) : path :=
  joinPath outputDir (node ++ ".js").

Definition requireLine (exportingNode : string) (exportName : option string) : string :=
  "require('./" ++ exportingNode ++ "'); // " ++ template exportName ++ newline.

Section Program.

(** The world outside the program: the file system as the program finds
    it, and the CloudFormation API of each region. A read is answered
    from the files that were there at the start; the program reads a
    cache file before it writes it, and it writes no file twice unless
    two exports of a region have the same name. *)
Variable readFile : path -> error + string.
Variable send : option string -> command -> error + response.

Context {JSON_Stacks : JSON (list Stack)}.
Context {JSON_Exports : JSON (list Export)}.
Context {JSON_Imports : JSON (list string)}.

(* ---------------------------------------------------------------- *)
(** *** class CloudFormation *)

(** A client is the region it was made for. *)
Definition CloudFormationClient : Type := option string.

Definition cfClient_send (cfClient : CloudFormationClient) (c : command) : M response :=
  emit (Send cfClient c) ;;; lift (settle (send cfClient c)).

(** The [do ... while (nextToken)] of [consumeAllTokens]: one round per
    unit of fuel. *)
Fixpoint consumeAllTokens_loop {T} (fuel : nat) (cfClient : CloudFormationClient)
  (Command : option string -> command) (resultProp : response -> option (list T))
  (nextToken : option string) (result : list T) : M (list T) :=
  match fuel with
  | O => lift (Undetermined "fuel")
  | S fuel' =>
      r <- cfClient_send cfClient (Command nextToken) ;;
      let result :=
        match resultProp r with
        | Some partialResults => (result ++ partialResults)%list
        | None => result
        end in
      if truthy (NextToken r)
      then consumeAllTokens_loop fuel' cfClient Command resultProp (NextToken r) result
      else ret result
  end.

Definition consumeAllTokens {T} (fuel : nat) (cfClient : CloudFormationClient)
  (Command : option string -> command) (resultProp : response -> option (list T))
  : M (list T) :=
  consumeAllTokens_loop fuel cfClient Command resultProp None [].

Definition describeStacks (fuel : nat) (cfClient : CloudFormationClient) : M (list Stack) :=
  consumeAllTokens fuel cfClient DescribeStacksCommand Stacks.

Definition listExports (fuel : nat) (cfClient : CloudFormationClient) : M (list Export) :=
  consumeAllTokens fuel cfClient ListExportsCommand Exports.

Definition notImported (exportName : string) : string :=
  "Export '" ++ exportName ++ "' is not imported by any stack.".

Definition listImports (fuel : nat) (cfClient : CloudFormationClient)
  (exportName : string) : M (list string) :=
  try_catch
    (consumeAllTokens fuel cfClient (ListImportsCommand exportName) Imports)
    (fun error =>
       match error with
       | CloudFormationServiceException _ message =>
           if String.eqb message (notImported exportName) then ret [] else throw error
       | _ => throw error
       end).

(* ---------------------------------------------------------------- *)
(** *** class FilesystemCache *)

(** A cache is its directory. *)
Definition FilesystemCache : Type := path.

Definition new_FilesystemCache (cacheDir : path) : M FilesystemCache :=
  emit (Mkdir cacheDir) ;;; ret cacheDir.

Definition _readFileOrNull (p : path) : M (option string) :=
  match readFile p with
  | inr contents => ret (Some contents)
  | inl error =>
      match error with
      | SystemError syscall code =>
          if String.eqb syscall "open" && String.eqb code "ENOENT"
          then ret None else throw error
      | _ => throw error
      end
  end.

Definition cacheOrWork {T} `{JSON T} (cache : FilesystemCache) (key : string)
  (work : M T) : M T :=
  let cacheFileName := joinPath cache key in
  cacheContents <- _readFileOrNull cacheFileName ;;
  if truthy cacheContents then
    lift (settle (JSON_parse (template cacheContents)))
  else
    result <- work ;;
    emit (WriteFile cacheFileName (JSON_stringify result)) ;;;
    ret result.

(* ---------------------------------------------------------------- *)
(** *** Fetching *)

Definition getStacks_step (result : completion (Map Stack)) (stack : Stack)
  : completion (Map Stack) :=
  result' <~ result ;;
  if negb (truthy (StackId stack)) || negb (truthy (StackName stack)) then
    Throw invalidStack
  else
    Return (Map_set (template (StackName stack)) stack
              (Map_set (template (StackId stack)) stack result')).

(** The [reduce] of [getStacks]. *)
Definition getStacks_reduce (stacks : list Stack) : completion (Map Stack) :=
  fold_left getStacks_step stacks (Return []).

Definition getStacks (fuel : nat) (cache : FilesystemCache)
  (cfClient : CloudFormationClient) (region : option string) : M (Map Stack) :=
  stacks <- cacheOrWork cache (template region ++ "_stacks.cache.json")
              (describeStacks fuel cfClient) ;;
  lift (getStacks_reduce stacks).

Fixpoint getExportsWithImportingStacks (fuel : nat) (exports : list Export)
  (cache : FilesystemCache) (cfClient : CloudFormationClient) (region : option string)
  : M (list (Export * list string)) :=
  match exports with
  | [] => ret []
  | eexport :: exports' =>
      imports <- cacheOrWork cache
                   (template region ++ "_cfListImports-" ++ template (Name eexport))
                   (if negb (truthy (Name eexport)) then throw invalidExport
                    else listImports fuel cfClient (template (Name eexport))) ;;
      result <- getExportsWithImportingStacks fuel exports' cache cfClient region ;;
      ret ((eexport, imports) :: result)
  end.

(* ---------------------------------------------------------------- *)
(** *** Emitting the unit graph *)

Definition couldntFindStack (key : string) : error :=
  Error ("Couldn't find stack '" ++ key ++ "'").

(** The body of the loop over [interestingStacks]. *)
Definition writePlaceholders (regionConfig : RegionConfiguration)
  (apps : option (list string)) (stack : Stack) : M unit :=
  (if multipleApps apps then
     node <- lift (getNodeNameForApp stack regionConfig) ;;
     emit (WriteFile (unitFile APP_OUTPUT_DIR node) "")
   else ret tt) ;;;
  node <- lift (getNodeNameForStack stack regionConfig) ;;
  emit (WriteFile (unitFile STACK_OUTPUT_DIR node) "").

(** The body of the loop over [imports], once the importing stack is
    found and interesting. *)
Definition appendDeclarations (regionConfig : RegionConfiguration)
  (apps : option (list string)) (eexport : Export)
  (exportingStack importingStack : Stack) : M unit :=
  (if multipleApps apps then
     exportingNode <- lift (getNodeNameForApp exportingStack regionConfig) ;;
     importingNode <- lift (getNodeNameForApp importingStack regionConfig) ;;
     if negb (String.eqb exportingNode importingNode) then
       emit (AppendFile (unitFile APP_OUTPUT_DIR importingNode)
               (requireLine exportingNode (Name eexport)))
     else ret tt
   else ret tt) ;;;
  exportingNode <- lift (getNodeNameForStack exportingStack regionConfig) ;;
  importingNode <- lift (getNodeNameForStack importingStack regionConfig) ;;
  if negb (String.eqb exportingNode importingNode) then
    emit (AppendFile (unitFile STACK_OUTPUT_DIR importingNode)
            (requireLine exportingNode (Name eexport)))
  else ret tt.

(** The body of the loop over [imports]. *)
Definition processImport (stacks : Map Stack) (regionConfig : RegionConfiguration)
  (environment : string) (apps : option (list string))
  (includes : option (list IncludeOptionChoice))
  (eexport : Export) (exportingStack : Stack) (iimport : string) : M unit :=
  match Map_get iimport stacks with
  | None => throw (couldntFindStack iimport)
  | Some importingStack =>
      interesting <- lift (isInterestingStack importingStack environment apps includes) ;;
      if negb interesting then ret tt (* continue *)
      else appendDeclarations regionConfig apps eexport exportingStack importingStack
  end.

(** The body of the loop over [exportsWithImportingStacks]. *)
Definition processExport (stacks : Map Stack) (regionConfig : RegionConfiguration)
  (environment : string) (apps : option (list string))
  (includes : option (list IncludeOptionChoice))
  (entry : Export * list string) : M unit :=
  let (eexport, imports) := entry in
  if negb (truthy (ExportingStackId eexport)) then throw invalidExport
  else
    match Map_get (template (ExportingStackId eexport)) stacks with
    | None => throw (couldntFindStack (template (ExportingStackId eexport)))
    | Some exportingStack =>
        interesting <- lift (isInterestingStack exportingStack environment apps includes) ;;
        if negb interesting then ret tt (* continue *)
        else
          for_of imports
            (processImport stacks regionConfig environment apps includes
               eexport exportingStack)
    end.

(** [processCloudFormation] from the filter on: what it does with the
    stacks and the exports it has fetched. *)
Definition emitGraph (stacks : Map Stack)
  (exportsWithImportingStacks : list (Export * list string))
  (regionConfig : RegionConfiguration) (environment : string)
  (apps : option (list string)) (includes : option (list IncludeOptionChoice))
  : M unit :=
  interestingStacks <-
    lift (filter_throwing
            (fun stack => isInterestingStack stack environment apps includes)
            (Map_values stacks)) ;;
  for_of interestingStacks (writePlaceholders regionConfig apps) ;;;
  for_of exportsWithImportingStacks
    (processExport stacks regionConfig environment apps includes).

Definition processCloudFormation (fuel : nat) (cache : FilesystemCache)
  (regionConfig : RegionConfiguration) (environment : string)
  (apps : option (list string)) (includes : option (list IncludeOptionChoice))
  : M unit :=
  let cloudFormation : CloudFormationClient := region regionConfig in
  stacks <- getStacks fuel cache cloudFormation (region regionConfig) ;;
  exports <- cacheOrWork cache (template (region regionConfig) ++ "_exports.cache.json")
               (listExports fuel cloudFormation) ;;
  exportsWithImportingStacks <-
    getExportsWithImportingStacks fuel exports cache cloudFormation
      (region regionConfig) ;;
  emitGraph stacks exportsWithImportingStacks regionConfig environment apps includes.

(** [main], after commander has parsed the command line into
    [environment], [apps] and [includes]; [AWS_REGION] is
    [process.env.AWS_REGION]. *)
Definition main (fuel : nat) (AWS_REGION : option string) (environment : string)
  (apps : option (list string)) (includes : option (list IncludeOptionChoice))
  : M unit :=
  emit (Mkdir APP_OUTPUT_DIR) ;;;
  emit (Mkdir STACK_OUTPUT_DIR) ;;;
  cache <- new_FilesystemCache CACHE_DIR ;;
  processCloudFormation fuel cache (mkRegionConfiguration AWS_REGION false)
    environment apps includes ;;;
  (if negb (eqb_key AWS_REGION "us-east-1") then
     processCloudFormation fuel cache (mkRegionConfiguration (Some "us-east-1") true)
       environment apps includes
   else ret tt) ;;;
  (if multipleApps apps then emit (MadgeImage APP_OUTPUT_DIR "graph-apps.png")
   else ret tt) ;;;
  emit (MadgeImage STACK_OUTPUT_DIR "graph-stacks.png").

End Program.

(* ================================================================== *)
(** * The first revision

    [src/index.ts] as it was before the classes: one client, of the
    default region, no region configuration and no [--include]; the
    cache and the pagination are written out in each of the three API
    calls, and the three [mkdir] calls are awaited. [getTagValue], the
    [reduce] of [getStacks] and the constants are those of the latest
    revision, letter for letter, and are not repeated. *)

Module FirstRevision.

Definition getNodeNameForApp (stack : Stack) : completion string :=
  appName <~ getTagValue stack "balsamiq-product" ;;
  environment <~ getTagValue stack "environment" ;;
  if truthy appName && truthy environment then
    Return (template appName ++ "-" ++ template environment)
  else if truthy (StackName stack) then
    Return (template (StackName stack))
  else Throw invalidStack.

Definition getNodeNameForStack (stack : Stack) : completion string :=
  if truthy (StackName stack) then
    Return (template (StackName stack))
  else Throw invalidStack.

Definition isInterestingStack (stack : Stack) (environment : string)
  (apps : option (list string)) : completion bool :=
  if negb (truthy (StackName stack)) then Throw invalidStack else
  let name := template (StackName stack) in
  let result := true in
  (* Checks that are safe to apply always: *)
  let result :=
    result &&
    (* Exclude CDK toolkit stack *) negb (test (regexp_literal "^CDKToolkit$") name) &&
    (* Exclude nested stacks *) negb (isSome (ParentId stack)) &&
    (* Exclude shared infra stacks *) negb (test (regexp_literal "^internal-") name) &&
    (* Exclude some singleton stacks *) negb (test (regexp_literal "^(balsamiq-slack)$") name) &&
    (* Exclude some apps *)
    negb (test (regexp_literal
      "^(workflow-triggerer|autosavedreactionsforslack|acetaia|bottega)-") name) in
  (* Checks that we may want to not apply in the future: *)
  let result :=
    result &&
    (* Exclude some resource-stacks *) negb (test (regexp_literal "-(mysql|redis)$") name) in
  if result then
    inEnvironment <~ RegExp ("-" ++ environment ++ "-|-" ++ environment ++ "$") ;;
    if test inEnvironment name then
      match apps with
      | None => Return true
      | Some apps' =>
          ofApps <~ RegExp ("^(" ++ join "|" apps' ++ ")-") ;;
          Return (test ofApps name)
      end
    else Return false
  else Return false.

Section Program.

(** The world outside the program, as for the latest revision, and what
    becomes of an awaited [mkdir]. [falsy contents] tells that
    [JSON.parse] makes of the text a value that is falsy: [null],
    [false], [0] or a string without characters; of any other text it
    makes an array, or it throws, and that is [JSON_parse]. *)
Variable readFile : path -> error + string.
Variable falsy : string -> bool.
Variable mkdir : path -> error + unit.
Variable send : option string -> command -> error + response.

Context {JSON_Stacks : JSON (list Stack)}.
Context {JSON_Exports : JSON (list Export)}.
Context {JSON_Imports : JSON (list string)}.

(** What [parseJSONFileOrNull] returns is tested by its callers with
    [if] and used only when it is truthy: [None] is the [null] of a file
    that is not there and any falsy value that [JSON.parse] has made of
    the contents, [Some] an array, which is truthy. *)
Definition parseJSONFileOrNull {T} `{JSON T} (p : path) : M (option T) :=
  try_catch
    (contents <- lift (settle (readFile p)) ;;
     if falsy contents then ret None
     else
       value <- lift (settle (JSON_parse contents)) ;;
       ret (Some value))
    (fun error =>
       match error with
       | SystemError syscall code =>
           if String.eqb syscall "open" && String.eqb code "ENOENT"
           then ret None else throw error
       | _ => throw error
       end).

(** The [do ... while (nextToken)] of [cfDescribeStacks]. *)
Fixpoint cfDescribeStacks_loop (fuel : nat) (cfClient : CloudFormationClient)
  (nextToken : option string) (allStacks : list Stack) : M (list Stack) :=
  match fuel with
  | O => lift (Undetermined "fuel")
  | S fuel' =>
      r <- cfClient_send send cfClient (DescribeStacksCommand nextToken) ;;
      let allStacks :=
        match Stacks r with
        | Some stacks => (allStacks ++ stacks)%list
        | None => allStacks
        end in
      if truthy (NextToken r)
      then cfDescribeStacks_loop fuel' cfClient (NextToken r) allStacks
      else ret allStacks
  end.

Definition cfDescribeStacks (fuel : nat) (cfClient : CloudFormationClient)
  : M (list Stack) :=
  let cacheFile := joinPath CACHE_DIR "stacks.cache.json" in
  cached <- parseJSONFileOrNull cacheFile ;;
  match cached with
  | Some allStacks => ret allStacks
  | None =>
      allStacks <- cfDescribeStacks_loop fuel cfClient None [] ;;
      emit (WriteFile cacheFile (JSON_stringify allStacks)) ;;;
      ret allStacks
  end.

(** The [do ... while (nextToken)] of [cfListExports]. *)
Fixpoint cfListExports_loop (fuel : nat) (cfClient : CloudFormationClient)
  (nextToken : option string) (allExports : list Export) : M (list Export) :=
  match fuel with
  | O => lift (Undetermined "fuel")
  | S fuel' =>
      r <- cfClient_send send cfClient (ListExportsCommand nextToken) ;;
      let allExports :=
        match Exports r with
        | Some exports => (allExports ++ exports)%list
        | None => allExports
        end in
      if truthy (NextToken r)
      then cfListExports_loop fuel' cfClient (NextToken r) allExports
      else ret allExports
  end.

Definition cfListExports (fuel : nat) (cfClient : CloudFormationClient)
  : M (list Export) :=
  let cacheFile := joinPath CACHE_DIR "exports.cache.json" in
  cached <- parseJSONFileOrNull cacheFile ;;
  match cached with
  | Some allExports => ret allExports
  | None =>
      allExports <- cfListExports_loop fuel cfClient None [] ;;
      emit (WriteFile cacheFile (JSON_stringify allExports)) ;;;
      ret allExports
  end.

(** [cfListImports] from its loop on. A round is [inl] when the [catch]
    returns from the function, with what it returns, and [inr] with the
    response otherwise. *)
Fixpoint cfListImports_loop (fuel : nat) (exportName : string)
  (cfClient : CloudFormationClient) (cacheFileName : path)
  (nextToken : option string) (allImports : list string) : M (list string) :=
  match fuel with
  | O => lift (Undetermined "fuel")
  | S fuel' =>
      round <-
        try_catch
          (r <- cfClient_send send cfClient (ListImportsCommand exportName nextToken) ;;
           ret (inr r))
          (fun error =>
             match error with
             | CloudFormationServiceException _ message =>
                 if String.eqb message (notImported exportName)
                 then ret (inl []) (* return [] *)
                 else throw error
             | _ => throw error
             end) ;;
      match round with
      | inl returned => ret returned
      | inr r =>
          let allImports :=
            match Imports r with
            | Some imports => (allImports ++ imports)%list
            | None => allImports
            end in
          if truthy (NextToken r)
          then cfListImports_loop fuel' exportName cfClient cacheFileName
                 (NextToken r) allImports
          else
            emit (WriteFile cacheFileName (JSON_stringify allImports)) ;;;
            ret allImports
      end
  end.

Definition cfListImports (fuel : nat) (exportName : string)
  (cfClient : CloudFormationClient) : M (list string) :=
  let cacheFileName := joinPath CACHE_DIR ("imports-" ++ exportName ++ ".cache.json") in
  cached <- parseJSONFileOrNull cacheFileName ;;
  match cached with
  | Some allImports => ret allImports
  | None => cfListImports_loop fuel exportName cfClient cacheFileName None []
  end.

Fixpoint getExportsWithImportingStacks (fuel : nat) (exports : list Export)
  (cfClient : CloudFormationClient) : M (list (Export * list string)) :=
  match exports with
  | [] => ret []
  | eexport :: exports' =>
      if negb (truthy (Name eexport)) then throw invalidExport
      else
        imports <- cfListImports fuel (template (Name eexport)) cfClient ;;
        result <- getExportsWithImportingStacks fuel exports' cfClient ;;
        ret ((eexport, imports) :: result)
  end.

Definition getStacks (fuel : nat) (cfClient : CloudFormationClient) : M (Map Stack) :=
  stacks <- cfDescribeStacks fuel cfClient ;;
  lift (getStacks_reduce stacks).

(** The body of the first loop of [main]. *)
Definition writePlaceholders (apps : option (list string)) (stack : Stack) : M unit :=
  (if multipleApps apps then
     node <- lift (getNodeNameForApp stack) ;;
     emit (WriteFile (unitFile APP_OUTPUT_DIR node) "")
   else ret tt) ;;;
  node <- lift (getNodeNameForStack stack) ;;
  emit (WriteFile (unitFile STACK_OUTPUT_DIR node) "").

(** The body of the loop over [imports], once the importing stack is
    found and interesting. *)
Definition appendDeclarations (apps : option (list string)) (eexport : Export)
  (exportingStack importingStack : Stack) : M unit :=
  (if multipleApps apps then
     exportingNode <- lift (getNodeNameForApp exportingStack) ;;
     importingNode <- lift (getNodeNameForApp importingStack) ;;
     if negb (String.eqb exportingNode importingNode) then
       emit (AppendFile (unitFile APP_OUTPUT_DIR importingNode)
               (requireLine exportingNode (Name eexport)))
     else ret tt
   else ret tt) ;;;
  exportingNode <- lift (getNodeNameForStack exportingStack) ;;
  importingNode <- lift (getNodeNameForStack importingStack) ;;
  if negb (String.eqb exportingNode importingNode) then
    emit (AppendFile (unitFile STACK_OUTPUT_DIR importingNode)
            (requireLine exportingNode (Name eexport)))
  else ret tt.

(** The body of the loop over [imports]. *)
Definition processImport (stacks : Map Stack) (environment : string)
  (apps : option (list string)) (eexport : Export) (exportingStack : Stack)
  (iimport : string) : M unit :=
  match Map_get iimport stacks with
  | None => throw (couldntFindStack iimport)
  | Some importingStack =>
      interesting <- lift (isInterestingStack importingStack environment apps) ;;
      if negb interesting then ret tt (* continue *)
      else appendDeclarations apps eexport exportingStack importingStack
  end.

(** The body of the loop over [exportsWithImportingStacks]. *)
Definition processExport (stacks : Map Stack) (environment : string)
  (apps : option (list string)) (entry : Export * list string) : M unit :=
  let (eexport, imports) := entry in
  if negb (truthy (ExportingStackId eexport)) then throw invalidExport
  else
    match Map_get (template (ExportingStackId eexport)) stacks with
    | None => throw (couldntFindStack (template (ExportingStackId eexport)))
    | Some exportingStack =>
        interesting <- lift (isInterestingStack exportingStack environment apps) ;;
        if negb interesting then ret tt (* continue *)
        else for_of imports (processImport stacks environment apps eexport exportingStack)
    end.

(** [await mkdir(p, { recursive: true })] *)
Definition await_mkdir (p : path) : M unit :=
  emit (Mkdir p) ;;; lift (settle (mkdir p)).

(** [main], after commander has parsed the command line into
    [environment] and [apps]. The client is made without a region. *)
Definition main (fuel : nat) (environment : string) (apps : option (list string))
  : M unit :=
  await_mkdir CACHE_DIR ;;;
  await_mkdir APP_OUTPUT_DIR ;;;
  await_mkdir STACK_OUTPUT_DIR ;;;
  let cfClient : CloudFormationClient := None in
  stacks <- getStacks fuel cfClient ;;
  exports <- cfListExports fuel cfClient ;;
  exportsWithImportingStacks <- getExportsWithImportingStacks fuel exports cfClient ;;
  interestingStacks <-
    lift (filter_throwing (fun stack => isInterestingStack stack environment apps)
            (Map_values stacks)) ;;
  for_of interestingStacks (writePlaceholders apps) ;;;
  for_of exportsWithImportingStacks (processExport stacks environment apps) ;;;
  (if multipleApps apps then emit (MadgeImage APP_OUTPUT_DIR "graph-apps.png")
   else ret tt) ;;;
  emit (MadgeImage STACK_OUTPUT_DIR "graph-stacks.png").

End Program.

End FirstRevision.

(* ================================================================== *)
(** * The vocabulary of the properties *)

(** The stack has a tag [key] and its value is [v]. *)
Definition carries (stack : Stack) (key v : string) : Prop :=
  exists tags tag,
    Tags stack = Some tags /\
    find (fun t => eqb_key (Key t) key) tags = Some tag /\
    Value tag = Some v /\ v <> "".

(** The stack has a list of tags and none of them is [key]. *)
Definition lacks (stack : Stack) (key : string) : Prop :=
  exists tags,
    Tags stack = Some tags /\ find (fun t => eqb_key (Key t) key) tags = None.

(** [StackId] or [StackName] of the stack is [key]. *)
Definition has_key (key : string) (stack : Stack) : bool :=
  eqb_key (StackName stack) key || eqb_key (StackId stack) key.

(** What [getStacks] accepts: both properties present and not empty. *)
Definition identified (stack : Stack) : bool :=
  truthy (StackId stack) && truthy (StackName stack).

(** What a page contributes. *)
Definition contribution {T} (resultProp : response -> option (list T)) (r : response)
  : list T :=
  match resultProp r with
  | Some partialResults => partialResults
  | None => []
  end.

(** The tokens of the requests that fetch the pages [rs]. *)
Definition tokens (token : option string) (rs : list response) : list (option string) :=
  token :: map NextToken (removelast rs).

Definition ENOENT : error := SystemError "open" "ENOENT".

(** The stack passes the interestingness filter. *)
Definition passes (stack : Stack) (environment : string) (apps : option (list string))
  (includes : option (list IncludeOptionChoice)) : bool :=
  match isInterestingStack stack environment apps includes with
  | Return true => true
  | _ => false
  end.

(** The declaration, if any, that makes the node of the importing
    stack depend on the node of the exporting stack, for node names
    given by [nodeName], in the directory [outputDir]. *)
Definition declaration (nodeName : Stack -> RegionConfiguration -> completion string)
  (outputDir : path) (regionConfig : RegionConfiguration) (eexport : Export)
  (exportingStack importingStack : Stack) : list event :=
  match nodeName exportingStack regionConfig, nodeName importingStack regionConfig with
  | Return exportingNode, Return importingNode =>
      if String.eqb exportingNode importingNode then []
      else [AppendFile (unitFile outputDir importingNode)
              (requireLine exportingNode (Name eexport))]
  | _, _ => []
  end.

Definition appDeclaration (apps : option (list string)) :=
  if multipleApps apps then declaration getNodeNameForApp APP_OUTPUT_DIR
  else fun _ _ _ _ => [].

Definition stackDeclaration := declaration getNodeNameForStack STACK_OUTPUT_DIR.

(** A cross-stack reference: an export and the name of a stack that
    imports it. *)
Definition references (exportsWithImportingStacks : list (Export * list string))
  : list (Export * string) :=
  flat_map (fun entry => map (pair (fst entry)) (snd entry)) exportsWithImportingStacks.

(** What a reference adds to the unit files, by the words of the
    specification: nothing unless both stacks pass the filter, and then
    a declaration per directory whose two node names differ, the
    coarse-grained one only with several apps. *)
Definition referenceDeclarations (stacks : Map Stack)
  (regionConfig : RegionConfiguration) (environment : string)
  (apps : option (list string)) (includes : option (list IncludeOptionChoice))
  (reference : Export * string) : list event :=
  match Map_get (template (ExportingStackId (fst reference))) stacks,
        Map_get (snd reference) stacks with
  | Some exportingStack, Some importingStack =>
      if passes exportingStack environment apps includes
         && passes importingStack environment apps includes
      then
        (appDeclaration apps regionConfig (fst reference) exportingStack importingStack
         ++ stackDeclaration regionConfig (fst reference) exportingStack importingStack)%list
      else []
  | _, _ => []
  end.

Definition isAppendFile (ev : event) : bool :=
  match ev with AppendFile _ _ => true | _ => false end.

(** The [appendFile] calls among the operations, in order. *)
Definition appends (t : list event) : list event := filter isAppendFile t.


(** A coarse-grained output: a unit file of the apps directory written
    or appended to, or the image of the apps graph. *)
Definition appOutput (ev : event) : Prop :=
  match ev with
  | WriteFile p _ | AppendFile p _ => exists file, p = joinPath APP_OUTPUT_DIR file
  | MadgeImage p _ => p = APP_OUTPUT_DIR
  | Mkdir _ | Send _ _ => False
  end.

Definition chars (l : list ascii) : list regex := map Char l.

(** The text of a pattern character sequence, as a regular expression. *)
Definition text (s : string) : regex := sequence (chars (list_ascii_of_string s)).

(** [strip l input]: what is left of [input] after its prefix [l]. *)
Fixpoint strip (l input : list ascii) : option (list ascii) :=
  match l, input with
  | [], _ => Some input
  | _ :: _, [] => None
  | c :: l', x :: input' => if Ascii.eqb x c then strip l' input' else None
  end.

Definition startsWith (p s : string) : Prop := exists rest, s = p ++ rest.
Definition endsWith (p s : string) : Prop := exists pre, s = pre ++ p.
Definition contains (p s : string) : Prop := exists pre post, s = pre ++ p ++ post.

Abbreviation lst := list_ascii_of_string.
Abbreviation str := string_of_list_ascii.

(** A pattern character with a meaning of its own. *)
Definition special (c : ascii) : bool :=
  existsb (Ascii.eqb c) (lst "|()^$\.*+?[]{}").

(** A string that, put into a pattern, stands for itself. *)
Definition plainText (s : string) : bool :=
  forallb (fun c => negb (special c)) (lst s).

(** The frame after the alternatives [a|b|...], all plain. *)
Fixpoint joined (alts : list regex) (a : string) (rest : list string) : frame :=
  match rest with
  | [] => mkFrame alts (rev (chars (lst a)))
  | b :: rest' => joined (text a :: alts) b rest'
  end.

(** The apps of [/^(workflow-triggerer|...|bottega)-/]. *)
Definition excludedApps : list string :=
  ["workflow-triggerer"; "autosavedreactionsforslack"; "acetaia"; "bottega"].

(** The kind of resource is listed in [includes]. *)
Definition included (includes : option (list IncludeOptionChoice))
  (choice : IncludeOptionChoice) : Prop :=
  exists l, includes = Some l /\ In choice l.

(** The operations of fetching: requests and writes into the cache. *)
Definition fetching (cache : FilesystemCache) (ev : event) : Prop :=
  match ev with
  | Send _ _ => True
  | WriteFile p _ => exists key, p = joinPath cache key
  | _ => False
  end.

(** The keys under which [getStacks] files the fetched stacks, and the
    entries it makes when no key comes twice: for each stack its
    [StackId], then its [StackName]. *)
Definition keysOf (fetched : list Stack) : list string :=
  flat_map (fun stack => [template (StackId stack); template (StackName stack)]) fetched.

Definition entriesOf (fetched : list Stack) : Map Stack :=
  flat_map (fun stack => [(template (StackId stack), stack);
                          (template (StackName stack), stack)]) fetched.

(** [JSON.parse] reads the value back from what [JSON.stringify] makes
    of it, which is not the empty string. *)
Definition roundTrips {T} `{JSON T} (value : T) : Prop :=
  JSON_parse (JSON_stringify value) = inr value /\ JSON_stringify value <> "".

(** A write or an append to the unit file of a node, in one of the two
    output directories. *)
Definition unitFileOperation (ev : event) : Prop :=
  match ev with
  | WriteFile p _ | AppendFile p _ =>
      exists outputDir node,
        (outputDir = APP_OUTPUT_DIR \/ outputDir = STACK_OUTPUT_DIR) /\
        p = unitFile outputDir node
  | _ => False
  end.

(** The export and its imports are resolved: the stack that exports has
    an id that is a key of the map, the filter gives an answer for it,
    and when it passes, every import is a key of the map and the filter
    gives an answer for its stack. *)
Definition resolved (stacks : Map Stack) (environment : string)
  (apps : option (list string)) (includes : option (list IncludeOptionChoice))
  (entry : Export * list string) : Prop :=
  truthy (ExportingStackId (fst entry)) = true /\
  exists exportingStack b,
    Map_get (template (ExportingStackId (fst entry))) stacks = Some exportingStack /\
    isInterestingStack exportingStack environment apps includes = Return b /\
    (b = true ->
     forall iimport, In iimport (snd entry) ->
       exists importingStack b',
         Map_get iimport stacks = Some importingStack /\
         isInterestingStack importingStack environment apps includes = Return b').

(** An operation that is of one of the [regions]: a request to the API
    of one of them, or a write of a file of [cache] whose name starts
    with one of them. Other operations are of any region. *)
Definition ofRegions (regions : list (option string)) (cache : FilesystemCache)
  (ev : event) : Prop :=
  match ev with
  | Send cfClient _ => In cfClient regions
  | WriteFile p _ =>
      forall key, p = joinPath cache key ->
        exists region, In region regions /\ startsWith (template region ++ "_") key
  | _ => True
  end.

(** The stack has no tag [key], or one with a value. *)
Definition tagged (stack : Stack) (key : string) : Prop :=
  lacks stack key \/ exists v, carries stack key v.

(** A stack, called [name], that the filter rejects before it looks at
    the environment and the apps. *)
Definition excluded (stack : Stack) (name : string)
  (includes : option (list IncludeOptionChoice)) : Prop :=
  name = "CDKToolkit" \/
  ParentId stack <> None \/
  startsWith "internal-" name \/
  name = "balsamiq-slack" \/
  (exists app, In app excludedApps /\ startsWith (app ++ "-") name) \/
  (endsWith "-mysql" name /\ ~ included includes mysql) \/
  (endsWith "-redis" name /\ ~ included includes redis).

(** An operation on a unit file whose node name ends with [suffix],
    and, for an append, whose require line names such a node. *)
Definition marked (suffix : string) (ev : event) : Prop :=
  match ev with
  | WriteFile p _ => exists outputDir base, p = unitFile outputDir (base ++ suffix)
  | AppendFile p data =>
      (exists outputDir base, p = unitFile outputDir (base ++ suffix)) /\
      (exists base exportName, data = requireLine (base ++ suffix) exportName)
  | _ => True
  end.

(** Notions that depend on the world outside the program. *)

Section World.

Variable readFile : path -> error + string.
Variable send : option string -> command -> error + response.

Context {JSON_Stacks : JSON (list Stack)}.
Context {JSON_Exports : JSON (list Export)}.
Context {JSON_Imports : JSON (list string)}.

(** [pages cfClient Command token rs]: asked with [token], the API
    answers with the first page of [rs]; asked with the [NextToken] of
    each page, it answers with the next one; the last page of [rs], and
    no page before it, comes without a [NextToken] (none, or the empty
    string, which CloudFormation does not issue). *)
Inductive pages (cfClient : CloudFormationClient) (Command : option string -> command)
  : option string -> list response -> Prop :=
| pages_last token r :
    send cfClient (Command token) = inr r ->
    truthy (NextToken r) = false ->
    pages cfClient Command token [r]
| pages_more token r rs :
    send cfClient (Command token) = inr r ->
    truthy (NextToken r) = true ->
    pages cfClient Command (NextToken r) rs ->
    pages cfClient Command token (r :: rs).

(** There is nothing to read at [p]: no file, or an empty one. *)
Definition nothingCached (p : path) : Prop :=
  readFile p = inl ENOENT \/ readFile p = inr "".

(** What [processCloudFormation] has fetched when it starts to write:
    the map of the stacks and the exports with their importing
    stacks. *)
Definition fetches (fuel : nat) (cache : FilesystemCache)
  (regionConfig : RegionConfiguration) (stacks : Map Stack)
  (exportsWithImportingStacks : list (Export * list string)) : Prop :=
  exists t1 t2 exports t3,
    getStacks readFile send fuel cache (region regionConfig) (region regionConfig)
      = (t1, Return stacks) /\
    cacheOrWork readFile cache (template (region regionConfig) ++ "_exports.cache.json")
      (listExports send fuel (region regionConfig)) = (t2, Return exports) /\
    getExportsWithImportingStacks readFile send fuel exports cache
      (region regionConfig) (region regionConfig)
      = (t3, Return exportsWithImportingStacks).

(** [failsAfter cfClient Command token rs e]: asked with [token] and
    then with the [NextToken] of each page, the API answers with the
    pages [rs], all with a [NextToken], and fails the next request with
    [e]. *)
Inductive failsAfter (cfClient : CloudFormationClient) (Command : option string -> command)
  : option string -> list response -> error -> Prop :=
| fails_now token e :
    send cfClient (Command token) = inl e ->
    failsAfter cfClient Command token [] e
| fails_later token r rs e :
    send cfClient (Command token) = inr r ->
    truthy (NextToken r) = true ->
    failsAfter cfClient Command (NextToken r) rs e ->
    failsAfter cfClient Command token (r :: rs) e.

(** Every request is answered, and every answer has a [NextToken]. *)
Definition endless (cfClient : CloudFormationClient) (Command : option string -> command)
  : Prop :=
  forall token, exists r,
    send cfClient (Command token) = inr r /\ truthy (NextToken r) = true.

(** The cache file [key] has contents, and they are the text of
    [value]. *)
Definition holds {T} `{JSON T} (cache : FilesystemCache) (key : string) (value : T)
  : Prop :=
  exists contents,
    readFile (joinPath cache key) = inr contents /\ contents <> "" /\
    JSON_parse contents = inr value.

(** The cache has all that [processCloudFormation] fetches for a
    region: the stacks, the exports, and the imports of each export. *)
Definition cached (cache : FilesystemCache) (region : option string)
  (fetched : list Stack) (exportsWithImportingStacks : list (Export * list string))
  : Prop :=
  holds cache (template region ++ "_stacks.cache.json") fetched /\
  holds cache (template region ++ "_exports.cache.json")
    (map fst exportsWithImportingStacks) /\
  Forall (fun entry =>
            holds cache (template region ++ "_cfListImports-" ++ template (Name (fst entry)))
              (snd entry))
    exportsWithImportingStacks.

(** The imports of one export, as the loop of
    [getExportsWithImportingStacks] gets them: from the cache, or from
    the API for an export with a name. *)
Definition importsOf (fuel : nat) (cache : FilesystemCache)
  (cfClient : CloudFormationClient) (region : option string) (eexport : Export)
  : M (list string) :=
  cacheOrWork readFile cache
    (template region ++ "_cfListImports-" ++ template (Name eexport))
    (if negb (truthy (Name eexport)) then throw invalidExport
     else listImports send fuel cfClient (template (Name eexport))).

(** The cache file [key] of the first revision can be used as the
    latest revision uses it: it is not there, or cannot be read, or it
    has contents that are not empty and that [JSON.parse] reads as an
    array or rejects, with an error of its own. *)
Definition usable {T} `{JSON T} (falsy : string -> bool) (key : string) : Prop :=
  (exists e, readFile (joinPath CACHE_DIR key) = inl e) \/
  (exists contents,
     readFile (joinPath CACHE_DIR key) = inr contents /\ contents <> "" /\
     falsy contents = false /\ JSON_parse contents <> inl ENOENT).

End World.

(* ================================================================== *)
(** * Sample data *)

Definition productTag (v : string) : Tag := mkTag (Some "balsamiq-product") (Some v).
Definition environmentTag (v : string) : Tag := mkTag (Some "environment") (Some v).

(** A stack of app [bas] in [staging], as DescribeStacks lists it. *)
Definition bas_config : Stack :=
  mkStack (Some "arn:aws:cloudformation:eu-west-1:1:stack/bas-staging-config/1")
    (Some "bas-staging-config") None
    (Some [productTag "bas"; environmentTag "staging"]).

(** The same tags on a record without a [StackName]. *)
Definition bas_nameless : Stack :=
  mkStack (Some "arn:aws:cloudformation:eu-west-1:1:stack/bas-staging-config/1")
    None None
    (Some [productTag "bas"; environmentTag "staging"]).

(** A stack without the two tags. *)
Definition untagged : Stack :=
  mkStack (Some "arn:aws:cloudformation:eu-west-1:1:stack/vpc-staging/1")
    (Some "vpc-staging") None (Some []).

Definition eu_west_1 : RegionConfiguration := mkRegionConfiguration (Some "eu-west-1") false.
Definition us_east_1_implicit : RegionConfiguration :=
  mkRegionConfiguration (Some "us-east-1") true.

(* ================================================================== *)
(** * A run on a small account *)

(** ** [JSON.stringify(value, null, 2)] *)

#[local] Unset Elimination Schemes.

Inductive json : Type :=
| JString (s : string)
| JArray (items : list json)
| JObject (members : list (string * json)).

#[local] Set Elimination Schemes.

Definition quotationMark : ascii := ascii_of_nat 34.
Definition reverseSolidus : ascii := ascii_of_nat 92.

(** Quotation marks and backslashes are escaped; the names of this
    account have no control characters. *)
Fixpoint escape (s : string) : string :=
  match s with
  | EmptyString => EmptyString
  | String c s' =>
      if Ascii.eqb c quotationMark || Ascii.eqb c reverseSolidus
      then String reverseSolidus (String c (escape s'))
      else String c (escape s')
  end.

Definition quote (s : string) : string :=
  String quotationMark (escape s ++ String quotationMark EmptyString).

Fixpoint print (indent : string) (v : json) : string :=
  match v with
  | JString s => quote s
  | JArray [] => "[]"
  | JArray items =>
      "[" ++ newline
      ++ join ("," ++ newline)
           (map (fun item => indent ++ "  " ++ print (indent ++ "  ") item) items)
      ++ newline ++ indent ++ "]"
  | JObject [] => "{}"
  | JObject members =>
      "{" ++ newline
      ++ join ("," ++ newline)
           (map (fun member =>
                   indent ++ "  " ++ quote (fst member) ++ ": "
                   ++ print (indent ++ "  ") (snd member)) members)
      ++ newline ++ indent ++ "}"
  end.

(** A property that is there. *)
Definition member (key : string) (value : option string) : list (string * json) :=
  match value with
  | Some v => [(key, JString v)]
  | None => []
  end.

Definition Tag_toJSON (tag : Tag) : json :=
  JObject (member "Key" (Key tag) ++ member "Value" (Value tag)).

Definition Stack_toJSON (stack : Stack) : json :=
  JObject (member "StackId" (StackId stack) ++ member "StackName" (StackName stack)
           ++ member "ParentId" (ParentId stack)
           ++ match Tags stack with
              | Some tags => [("Tags", JArray (map Tag_toJSON tags))]
              | None => []
              end).

Definition Export_toJSON (eexport : Export) : json :=
  JObject (member "ExportingStackId" (ExportingStackId eexport)
           ++ member "Name" (Name eexport)).

(** [JSON.parse] on the texts of the values [known], which are all that
    the cache directory of the account holds. *)
Definition JSON_among {T} (toJSON : T -> json) (known : list (list T)) : JSON (list T) :=
  {| JSON_parse := fun s =>
       match find (fun v => String.eqb (print "" (JArray (map toJSON v))) s) known with
       | Some v => inr v
       | None =>
           if String.eqb s EmptyString
           then inl (SyntaxError "Unexpected end of JSON input")
           else inl (SyntaxError "Unexpected token in JSON")
       end;
     JSON_stringify := fun v => print "" (JArray (map toJSON v)) |}.

(** ** The account

    Region eu-west-1 has four stacks: the config stack of app bas, which
    exports a value; the app stacks of bas and of rtc and the mysql stack
    of bas, which import it. The app stack of rtc exports a value that
    nothing imports. Region us-east-1 is empty. *)

Definition arn (stackName : string) : string :=
  "arn:aws:cloudformation:eu-west-1:1:stack/" ++ stackName ++ "/1".

Definition stackOf (app stackName : string) : Stack :=
  mkStack (Some (arn stackName)) (Some stackName) None
    (Some [productTag app; environmentTag "staging"]).

Definition bas_app : Stack := stackOf "bas" "bas-staging-app".
Definition rtc_app : Stack := stackOf "rtc" "rtc-staging-app".
Definition bas_mysql : Stack := stackOf "bas" "bas-staging-mysql".

Definition config_url : Export :=
  mkExport (StackId bas_config) (Some "bas-staging-config:url").
Definition rtc_queue : Export :=
  mkExport (StackId rtc_app) (Some "rtc-staging-app:queue").

(** A page without a result list. *)
Definition page : response := mkResponse None None None None.

Definition stacksPage1 : response :=
  mkResponse (Some [bas_config; bas_app]) None None (Some "2").
Definition stacksPage2 : response :=
  mkResponse (Some [rtc_app; bas_mysql]) None None None.

Definition account_send (region : option string) (c : command) : error + response :=
  if eqb_key region "eu-west-1" then
    match c with
    | DescribeStacksCommand None => inr stacksPage1
    | DescribeStacksCommand (Some token) =>
        if String.eqb token "2" then inr stacksPage2
        else inl (CloudFormationServiceException "ValidationError" "Invalid NextToken")
    | ListExportsCommand None =>
        inr (mkResponse None (Some [config_url; rtc_queue]) None None)
    | ListImportsCommand exportName None =>
        if String.eqb exportName "bas-staging-config:url" then
          inr (mkResponse None None
                 (Some ["bas-staging-app"; "rtc-staging-app"; "bas-staging-mysql"]) None)
        else
          inl (CloudFormationServiceException "ValidationError" (notImported exportName))
    | _ => inl (CloudFormationServiceException "ValidationError" "Invalid NextToken")
    end
  else
    match c with
    | DescribeStacksCommand None => inr (mkResponse (Some []) None None None)
    | ListExportsCommand None => inr page
    | _ => inl (CloudFormationServiceException "ValidationError" "Invalid NextToken")
    end.

Definition fetchedStacks : list Stack := [bas_config; bas_app; rtc_app; bas_mysql].

(** No cache yet. *)
Definition noFile (p : path) : error + string := inl (SystemError "open" "ENOENT").

#[local] Instance account_Stacks : JSON (list Stack) :=
  JSON_among Stack_toJSON [fetchedStacks; []].
#[local] Instance account_Exports : JSON (list Export) :=
  JSON_among Export_toJSON [[config_url; rtc_queue]; []].
#[local] Instance account_Imports : JSON (list string) :=
  JSON_among JString [["bas-staging-app"; "rtc-staging-app"; "bas-staging-mysql"]; []].

(** The map [getStacks] makes of the stacks of eu-west-1. *)
Definition accountStacks : Map Stack :=
  Eval vm_compute in
    match getStacks_reduce fetchedStacks with
    | Return m => m
    | _ => []
    end.

Definition accountExports : list (Export * list string) :=
  [(config_url, ["bas-staging-app"; "rtc-staging-app"; "bas-staging-mysql"]);
   (rtc_queue, [])].

(** What a first run over eu-west-1 asks the API and writes into the
    cache. *)
Definition accountFetch : list event :=
  [Send (Some "eu-west-1") (DescribeStacksCommand None);
   Send (Some "eu-west-1") (DescribeStacksCommand (Some "2"));
   WriteFile (joinPath CACHE_DIR "eu-west-1_stacks.cache.json")
     (JSON_stringify fetchedStacks);
   Send (Some "eu-west-1") (ListExportsCommand None);
   WriteFile (joinPath CACHE_DIR "eu-west-1_exports.cache.json")
     (JSON_stringify [config_url; rtc_queue]);
   Send (Some "eu-west-1") (ListImportsCommand "bas-staging-config:url" None);
   WriteFile (joinPath CACHE_DIR "eu-west-1_cfListImports-bas-staging-config:url")
     (JSON_stringify ["bas-staging-app"; "rtc-staging-app"; "bas-staging-mysql"]);
   Send (Some "eu-west-1") (ListImportsCommand "rtc-staging-app:queue" None);
   WriteFile (joinPath CACHE_DIR "eu-west-1_cfListImports-rtc-staging-app:queue")
     (JSON_stringify (@nil string))].

(** Closed goals about the account are settled by running the program. *)
Ltac run := vm_compute; reflexivity.

(** The cache directory after a run that listed the exports of an
    account without any. *)
Definition exportsCached (p : path) : error + string :=
  match p with
  | joinPath (dir d) key =>
      if String.eqb d ".cache" && String.eqb key "eu-west-1_exports.cache.json"
      then inr "[]" else inl (SystemError "open" "ENOENT")
  | _ => inl (SystemError "open" "ENOENT")
  end.

(** A cache file that is there and empty. *)
Definition emptyFile (p : path) : error + string := inr "".

(** A second record with the [StackName] of the config stack of bas and
    a [StackId] of its own. *)
Definition bas_config_again : Stack :=
  mkStack (Some "arn:aws:cloudformation:eu-west-1:1:stack/bas-staging-config/2")
    (Some "bas-staging-config") None
    (Some [productTag "bas"; environmentTag "staging"]).

Definition twice_send (region : option string) (c : command) : error + response :=
  match c with
  | DescribeStacksCommand None =>
      inr (mkResponse (Some [bas_config; bas_config_again]) None None None)
  | _ => inl (CloudFormationServiceException "ValidationError" "Invalid NextToken")
  end.

#[local] Instance twice_Stacks : JSON (list Stack) :=
  JSON_among Stack_toJSON [[bas_config; bas_config_again]].

(** An API that fails the request for the second page: of the stacks
    with a throttling error, of the imports of an export with the
    message of an export that nothing imports. *)
Definition importsPage1 : response :=
  mkResponse None None (Some ["bas-staging-app"]) (Some "2").

Definition interrupted_send (region : option string) (c : command) : error + response :=
  match c with
  | DescribeStacksCommand None => inr stacksPage1
  | DescribeStacksCommand (Some _) =>
      inl (CloudFormationServiceException "Throttling" "Rate exceeded")
  | ListImportsCommand exportName None => inr importsPage1
  | ListImportsCommand exportName (Some _) =>
      inl (CloudFormationServiceException "ValidationError" (notImported exportName))
  | _ => inl (CloudFormationServiceException "ValidationError" "Invalid NextToken")
  end.

(** An API whose every page names a next one. *)
Definition endless_send (region : option string) (c : command) : error + response :=
  inr (mkResponse (Some [bas_config]) None None (Some "next")).

(** The files that the [writeFile] calls among the operations leave
    behind, in a directory tree that was empty. *)
Fixpoint path_eqb (p q : path) : bool :=
  match p, q with
  | dir a, dir b => String.eqb a b
  | joinPath p' a, joinPath q' b => path_eqb p' q' && String.eqb a b
  | _, _ => false
  end.

Definition filesAfter (t : list event) (p : path) : error + string :=
  match find (fun ev => match ev with WriteFile q _ => path_eqb q p | _ => false end)
          (rev t) with
  | Some (WriteFile _ data) => inr data
  | _ => inl (SystemError "open" "ENOENT")
  end.

(** A cache directory that may not be read, and one whose files are cut
    short. *)
Definition unreadable (p : path) : error + string := inl (SystemError "open" "EACCES").
Definition truncated (p : path) : error + string := inr "[".

(** An export without a name. *)
Definition nameless : Export := mkExport (StackId bas_config) None.

(** A stack with a name whose environment tag has no value. *)
Definition valueless : Stack :=
  mkStack (Some "arn:aws:cloudformation:eu-west-1:1:stack/vpc-staging/1")
    (Some "vpc-staging") None (Some [mkTag (Some "environment") None]).

(** The stack of the CDK toolkit. *)
Definition toolkit : Stack :=
  mkStack (Some "arn:aws:cloudformation:eu-west-1:1:stack/CDKToolkit/1")
    (Some "CDKToolkit") None (Some []).

(** Directories that can be made. *)
Definition mkdir_done (p : path) : error + unit := inr tt.



(** A stack with a name and without a list of tags. *)
Definition tagless : Stack :=
  mkStack (Some "arn:aws:cloudformation:eu-west-1:1:stack/vpc-staging/1")
    (Some "vpc-staging") None None.

(** The texts of which [JSON.parse] makes a falsy value, as far as the
    sample cache has them, and a cache directory whose files hold
    [null]. *)
Definition falsyText (contents : string) : bool :=
  String.eqb contents "null" || String.eqb contents "false" || String.eqb contents "0".

Definition nullFile (p : path) : error + string := inr "null".

(* ================================================================== *)
(** * Properties *)

(** ** Strings *)

(* ================================================================== *)
(** ** Node names *)

Lemma getTagValue_carries stack key v :
  carries stack key v -> getTagValue stack key = Return (Some v).
Proof.
  intros (tags & tag & HT & HF & HV & HN). unfold getTagValue.
  rewrite HT, HF, HV.
  destruct v; [congruence | reflexivity].
Qed.

Lemma getTagValue_lacks stack key :
  lacks stack key -> getTagValue stack key = Return None.
Proof.
  intros (tags & HT & HF). unfold getTagValue. rewrite HT, HF. reflexivity.
Qed.

Lemma truthy_carried v : v <> "" -> truthy (Some v) = true.
Proof. destruct v; [congruence | reflexivity]. Qed.

(** C7, as stated, fails: with both tags [getNodeNameForApp] returns the
    name made of the tag values although the stack has no [StackName],
    and in the implicit region (the second pass of [main], over
    us-east-1) every node name ends with the region in parentheses. *)
Lemma getNodeNameForApp_nameless_returns :
  (StackName bas_nameless = None /\
   getNodeNameForApp bas_nameless eu_west_1 = Return "bas-staging") /\
  getNodeNameForApp bas_config us_east_1_implicit = Return "bas-staging (us-east-1)" /\
  getNodeNameForStack bas_config us_east_1_implicit
    = Return "bas-staging-config (us-east-1)".
Proof. repeat split. Qed.

(** C7, amended. The fine-grained name is the [StackName] followed by
    the region suffix, and [getNodeNameForStack] throws when there is no
    [StackName]. The coarse-grained name is
    [<balsamiq-product>-<environment>] followed by the region suffix when
    the stack carries both tags, whether it has a [StackName] or not;
    when one of the two tags is missing (and the other is missing or has
    a value) [getNodeNameForApp] does what [getNodeNameForStack] does,
    so it throws when there is no [StackName]. A stack without a list of
    tags, and a stack whose product or environment tag has no value,
    make [getNodeNameForApp] throw, whether the stack has a [StackName]
    or not. The region suffix is empty except in the implicit region. *)
Theorem getNodeName_spec (stack : Stack) (regionConfig : RegionConfiguration) :
  (forall name, StackName stack = Some name -> name <> "" ->
     getNodeNameForStack stack regionConfig = Return (name ++ regionSuffix regionConfig)) /\
  (truthy (StackName stack) = false ->
     getNodeNameForStack stack regionConfig = Throw invalidStack) /\
  (forall app env,
     carries stack "balsamiq-product" app -> carries stack "environment" env ->
     getNodeNameForApp stack regionConfig
       = Return (app ++ "-" ++ env ++ regionSuffix regionConfig)) /\
  ((lacks stack "balsamiq-product" /\
      (lacks stack "environment" \/ exists env, carries stack "environment" env)) \/
   ((exists app, carries stack "balsamiq-product" app) /\ lacks stack "environment") ->
     getNodeNameForApp stack regionConfig = getNodeNameForStack stack regionConfig) /\
  (implicit regionConfig = false -> regionSuffix regionConfig = "") /\
  (Tags stack = None -> getNodeNameForApp stack regionConfig = Throw invalidStack) /\
  (forall tags tag key,
     Tags stack = Some tags ->
     key = "balsamiq-product" \/ key = "environment" ->
     find (fun tag => eqb_key (Key tag) key) tags = Some tag ->
     truthy (Value tag) = false ->
     getNodeNameForApp stack regionConfig = Throw invalidTag).
Proof.
  split; [| split; [| split; [| split; [| split; [| split]]]]].
  - intros name HN HE. unfold getNodeNameForStack. rewrite HN.
    rewrite (truthy_carried _ HE). reflexivity.
  - intros HF. unfold getNodeNameForStack. rewrite HF. reflexivity.
  - intros app env HA HE. unfold getNodeNameForApp.
    rewrite (getTagValue_carries _ _ _ HA), (getTagValue_carries _ _ _ HE).
    destruct HA as (_ & _ & _ & _ & _ & NA), HE as (_ & _ & _ & _ & _ & NE).
    unfold cbind. rewrite (truthy_carried _ NA), (truthy_carried _ NE). reflexivity.
  - unfold getNodeNameForApp, getNodeNameForStack.
    intros [[HA [HE | [env HE]]] | [[app HA] HE]].
    + rewrite (getTagValue_lacks _ _ HA), (getTagValue_lacks _ _ HE). reflexivity.
    + rewrite (getTagValue_lacks _ _ HA), (getTagValue_carries _ _ _ HE). reflexivity.
    + rewrite (getTagValue_carries _ _ _ HA), (getTagValue_lacks _ _ HE). unfold cbind.
      rewrite andb_false_r. reflexivity.
  - intros HI. unfold regionSuffix. rewrite HI. reflexivity.
  - intros HT. unfold getNodeNameForApp, getTagValue. rewrite HT. reflexivity.
  - intros tags tag key HT [-> | ->] HF HV.
    + unfold getNodeNameForApp, getTagValue. rewrite HT, HF, HV. reflexivity.
    + unfold getNodeNameForApp.
      destruct (getTagValue stack "balsamiq-product") as [appName | e | w] eqn:EA.
      * unfold getTagValue. rewrite HT, HF, HV. reflexivity.
      * unfold getTagValue in EA. rewrite HT in EA.
        destruct (find (fun t => eqb_key (Key t) "balsamiq-product") tags)
          as [tag'|]; [| discriminate EA].
        destruct (truthy (Value tag')); [discriminate EA |].
        injection EA as <-. reflexivity.
      * unfold getTagValue in EA. rewrite HT in EA.
        destruct (find (fun t => eqb_key (Key t) "balsamiq-product") tags)
          as [tag'|]; [| discriminate EA].
        destruct (truthy (Value tag')); discriminate EA.
Qed.

(** C7, amended, on five stacks: named and tagged, tagged without a
    name, named without the tags, named with a tag without a value,
    named without a list of tags. *)
Lemma getNodeName_spec_witness :
  getNodeNameForStack bas_config eu_west_1 = Return "bas-staging-config" /\
  getNodeNameForStack bas_nameless eu_west_1 = Throw invalidStack /\
  getNodeNameForApp bas_config eu_west_1 = Return "bas-staging" /\
  getNodeNameForApp untagged eu_west_1 = Return "vpc-staging" /\
  getNodeNameForApp valueless eu_west_1 = Throw invalidTag /\
  getNodeNameForApp tagless eu_west_1 = Throw invalidStack.
Proof.
  destruct (getNodeName_spec bas_config eu_west_1) as (H1 & _ & H3 & _ & H5 & _).
  destruct (getNodeName_spec bas_nameless eu_west_1) as (_ & H2 & _).
  destruct (getNodeName_spec untagged eu_west_1) as (G1 & _ & _ & G4 & _).
  destruct (getNodeName_spec valueless eu_west_1) as (_ & _ & _ & _ & _ & _ & V7).
  destruct (getNodeName_spec tagless eu_west_1) as (_ & _ & _ & _ & _ & T6 & _).
  split; [| split; [| split; [| split; [| split]]]];
    [| | | | exact (V7 [mkTag (Some "environment") None] (mkTag (Some "environment") None)
                       "environment" eq_refl (or_intror eq_refl) eq_refl eq_refl)
         | exact (T6 eq_refl)].
  - rewrite (H1 "bas-staging-config" eq_refl); [| discriminate].
    rewrite (H5 eq_refl). reflexivity.
  - apply H2. reflexivity.
  - rewrite (H3 "bas" "staging").
    + rewrite (H5 eq_refl). reflexivity.
    + exists [productTag "bas"; environmentTag "staging"], (productTag "bas").
      repeat split. discriminate.
    + exists [productTag "bas"; environmentTag "staging"], (environmentTag "staging").
      repeat split. discriminate.
  - rewrite G4.
    + apply (G1 "vpc-staging" eq_refl). discriminate.
    + left. split; [| left]; exists []; split; reflexivity.
Defined.

(* ================================================================== *)
(** ** The map of stacks *)

Lemma Map_get_set {V} (key key' : string) (value : V) (m : Map V) :
  Map_get key (Map_set key' value m)
    = if String.eqb key' key then Some value else Map_get key m.
Proof.
  induction m as [|[k v] m IH]; simpl.
  - reflexivity.
  - destruct (String.eqb_spec k key') as [-> | Hk]; simpl.
    + destruct (String.eqb key' key); reflexivity.
    + rewrite IH. destruct (String.eqb_spec k key) as [-> | Hk'].
      * destruct (String.eqb_spec key' key); [congruence | reflexivity].
      * reflexivity.
Qed.

Lemma getStacks_reduce_snoc (stacks : list Stack) (stack : Stack) :
  getStacks_reduce (stacks ++ [stack])
    = getStacks_step (getStacks_reduce stacks) stack.
Proof. unfold getStacks_reduce. rewrite fold_left_app. reflexivity. Qed.

Lemma getStacks_step_Return result stack m :
  getStacks_step result stack = Return m ->
  exists m', result = Return m' /\ identified stack = true /\
    m = Map_set (template (StackName stack)) stack
          (Map_set (template (StackId stack)) stack m').
Proof.
  unfold getStacks_step, identified. destruct result as [m' | e | w]; simpl; try discriminate.
  destruct (truthy (StackId stack)), (truthy (StackName stack)); simpl; try discriminate.
  intros H. inversion H. exists m'. auto.
Qed.

Lemma eqb_key_template (s : option string) (key : string) :
  truthy s = true -> eqb_key s key = String.eqb (template s) key.
Proof. destruct s; simpl; [reflexivity | discriminate]. Qed.

(** The map holds, under each key, the last fetched stack with that
    [StackName] or [StackId]. *)
Lemma getStacks_reduce_get (stacks : list Stack) (m : Map Stack) :
  getStacks_reduce stacks = Return m ->
  forall key, Map_get key m = find (has_key key) (rev stacks).
Proof.
  revert m. induction stacks as [|stack stacks IH] using rev_ind; intros m H key.
  - inversion H. reflexivity.
  - rewrite getStacks_reduce_snoc in H.
    apply getStacks_step_Return in H. destruct H as (m' & Hm' & Hid & ->).
    rewrite rev_app_distr. simpl. unfold has_key at 1.
    apply andb_prop in Hid. destruct Hid as [Hi Hn].
    rewrite (eqb_key_template _ key Hn), (eqb_key_template _ key Hi).
    rewrite !Map_get_set.
    destruct (String.eqb (template (StackName stack)) key); [reflexivity |].
    destruct (String.eqb (template (StackId stack)) key); [reflexivity |].
    simpl. apply IH. exact Hm'.
Qed.

Lemma getStacks_reduce_identified (stacks : list Stack) :
  forallb identified stacks = true -> exists m, getStacks_reduce stacks = Return m.
Proof.
  induction stacks as [|stack stacks IH] using rev_ind; intros H.
  - exists []. reflexivity.
  - rewrite forallb_app in H. apply andb_prop in H. destruct H as [H1 H2].
    destruct (IH H1) as [m Hm]. rewrite getStacks_reduce_snoc, Hm.
    simpl in H2. rewrite andb_true_r in H2. unfold identified in H2.
    apply andb_prop in H2. destruct H2 as [Hi Hn].
    unfold getStacks_step. simpl. rewrite Hi, Hn. simpl. eauto.
Qed.

Lemma getStacks_reduce_Throw (stacks : list Stack) :
  forallb identified stacks = false -> getStacks_reduce stacks = Throw invalidStack.
Proof.
  induction stacks as [|stack stacks IH] using rev_ind; intros H.
  - discriminate.
  - rewrite getStacks_reduce_snoc. rewrite forallb_app in H.
    destruct (forallb identified stacks) eqn:E.
    + destruct (getStacks_reduce_identified _ E) as [m ->].
      simpl in H. rewrite andb_true_r in H. unfold identified in H.
      unfold getStacks_step. simpl.
      destruct (truthy (StackId stack)), (truthy (StackName stack));
        simpl in *; try discriminate; reflexivity.
    + rewrite (IH eq_refl). reflexivity.
Qed.

(* ================================================================== *)
(** ** Computations *)

Lemma bind_Return {A B} (t : list event) (a : A) (k : A -> M B) :
  bind (t, Return a) k = ((t ++ trace (k a))%list, outcome (k a)).
Proof. unfold bind, trace, outcome. destruct (k a). reflexivity. Qed.

Lemma bind_ret {A B} (a : A) (k : A -> M B) : bind (ret a) k = k a.
Proof. unfold ret. rewrite bind_Return. destruct (k a). reflexivity. Qed.

Lemma bind_emit {B} (ev : event) (k : unit -> M B) :
  bind (emit ev) k = (ev :: trace (k tt), outcome (k tt)).
Proof. unfold emit. rewrite bind_Return. reflexivity. Qed.

(** A computation that returns ran both halves of a bind. *)
Lemma bind_returns {A B} (m : M A) (k : A -> M B) (t : list event) (b : B) :
  bind m k = (t, Return b) ->
  exists t1 a t2,
    m = (t1, Return a) /\ k a = (t2, Return b) /\ t = (t1 ++ t2)%list.
Proof.
  destruct m as [t1 [a | e | w]]; simpl; try discriminate.
  destruct (k a) as [t2 c] eqn:E. intros H. inversion H. subst.
  exists t1, a, t2. auto.
Qed.

(** What holds of every operation of both halves holds of the bind,
    however it ends. *)
Lemma Forall_trace_bind {A B} (P : event -> Prop) (m : M A) (k : A -> M B) :
  Forall P (trace m) -> (forall a, Forall P (trace (k a))) ->
  Forall P (trace (bind m k)).
Proof.
  intros Hm Hk. destruct m as [t [a | e | w]]; simpl in *; try assumption.
  specialize (Hk a). destruct (k a) as [t' c]. simpl in *.
  apply Forall_app. auto.
Qed.

Lemma Forall_trace_emit (P : event -> Prop) (ev : event) :
  P ev -> Forall P (trace (emit ev)).
Proof. intros H. constructor; [exact H | constructor]. Qed.

Lemma Forall_trace_try_catch {A} (P : event -> Prop) (m : M A) (h : error -> M A) :
  Forall P (trace m) -> (forall e, Forall P (trace (h e))) ->
  Forall P (trace (try_catch m h)).
Proof.
  intros Hm Hh. destruct m as [t [a | e | w]]; simpl in *; try assumption.
  specialize (Hh e). destruct (h e) as [t' c]. simpl in *.
  apply Forall_app. auto.
Qed.

Lemma Forall_trace_for_of {A} (P : event -> Prop) (xs : list A) (body : A -> M unit) :
  (forall x, In x xs -> Forall P (trace (body x))) ->
  Forall P (trace (for_of xs body)).
Proof.
  induction xs as [|x xs IH]; intros H; simpl.
  - constructor.
  - apply Forall_trace_bind.
    + apply H. left. reflexivity.
    + intros _. apply IH. intros y Hy. apply H. right. exact Hy.
Qed.

(** A loop that returns ran its body on every element, in order. *)
Lemma for_of_returns {A} (xs : list A) (body : A -> M unit) (t : list event) :
  for_of xs body = (t, Return tt) ->
  t = flat_map (fun x => trace (body x)) xs /\
  Forall (fun x => outcome (body x) = Return tt) xs.
Proof.
  revert t. induction xs as [|x xs IH]; intros t H; simpl in *.
  - inversion H. split; constructor.
  - apply bind_returns in H. destruct H as (t1 & [] & t2 & H1 & H2 & ->).
    destruct (IH _ H2) as [-> HF].
    rewrite H1. simpl. split; [reflexivity |].
    constructor; [rewrite H1; reflexivity | exact HF].
Qed.

Section Properties.

Variable readFile : path -> error + string.
Variable send : option string -> command -> error + response.

Context {JSON_Stacks : JSON (list Stack)}.
Context {JSON_Exports : JSON (list Export)}.
Context {JSON_Imports : JSON (list string)}.

(* ---------------------------------------------------------------- *)
(** *** Pagination *)

Lemma tokens_cons token r r' rs :
  tokens token (r :: r' :: rs) = token :: tokens (NextToken r) (r' :: rs).
Proof. reflexivity. Qed.

Lemma cfClient_send_inr cfClient c r :
  send cfClient c = inr r ->
  cfClient_send send cfClient c = ([Send cfClient c], Return r).
Proof. intros H. unfold cfClient_send. rewrite bind_emit, H. reflexivity. Qed.

Lemma cfClient_send_inl cfClient c e :
  send cfClient c = inl e ->
  cfClient_send send cfClient c = ([Send cfClient c], Throw e).
Proof. intros H. unfold cfClient_send. rewrite bind_emit, H. reflexivity. Qed.

Lemma consumeAllTokens_loop_pages {T} cfClient Command
  (resultProp : response -> option (list T)) token rs :
  pages send cfClient Command token rs ->
  forall fuel result, length rs <= fuel ->
  consumeAllTokens_loop send fuel cfClient Command resultProp token result
    = (map (fun tok => Send cfClient (Command tok)) (tokens token rs),
       Return (result ++ flat_map (contribution resultProp) rs)%list).
Proof.
  induction 1 as [token r Hs Hn | token r rs Hs Hn Hp IH]; intros fuel result Hf.
  - destruct fuel as [|fuel]; [simpl in Hf; lia |]. cbn [consumeAllTokens_loop].
    rewrite (cfClient_send_inr _ _ _ Hs), bind_Return, Hn. simpl.
    rewrite app_nil_r. unfold contribution.
    destruct (resultProp r); [reflexivity | rewrite app_nil_r; reflexivity].
  - destruct fuel as [|fuel]; [simpl in Hf; lia |].
    simpl in Hf. cbn [consumeAllTokens_loop].
    rewrite (cfClient_send_inr _ _ _ Hs), bind_Return, Hn.
    rewrite IH by lia.
    destruct rs as [|r' rs]; [inversion Hp |].
    rewrite tokens_cons. cbn [trace outcome fst snd map flat_map app].
    f_equal. f_equal.
    change (contribution resultProp r)
      with (match resultProp r with Some l => l | None => [] end).
    destruct (resultProp r) as [partialResults|].
    + symmetry. apply app_assoc.
    + reflexivity.
Qed.


(** A loop that returns has walked a chain of pages. *)
Lemma consumeAllTokens_loop_returns {T} cfClient Command
  (resultProp : response -> option (list T)) fuel :
  forall token result t result',
  consumeAllTokens_loop send fuel cfClient Command resultProp token result
    = (t, Return result') ->
  exists rs, pages send cfClient Command token rs /\ length rs <= fuel.
Proof.
  induction fuel as [|fuel IH]; intros token result t result' H;
    cbn [consumeAllTokens_loop] in H.
  - discriminate.
  - destruct (send cfClient (Command token)) as [e' | r] eqn:Hs.
    + rewrite (cfClient_send_inl _ _ _ Hs) in H. simpl in H. discriminate.
    + rewrite (cfClient_send_inr _ _ _ Hs), bind_Return in H.
      destruct (truthy (NextToken r)) eqn:Hn.
      * inversion H as [[Ht Ho]]. unfold outcome in Ho.
        destruct (consumeAllTokens_loop send fuel cfClient Command resultProp _ _)
          as [t' c] eqn:E.
        simpl in Ho. subst c. destruct (IH _ _ _ _ E) as (rs & Hp & Hl).
        exists (r :: rs). split; [apply pages_more; assumption | simpl; lia].
      * exists [r]. split; [apply pages_last; assumption | simpl; lia].
Qed.

(** C6. Whenever the API answers the requests of an operation with a
    chain of pages, each request carrying the [NextToken] of the page
    before it (the first none), and the last page is the first one
    without a [NextToken] (absent, or empty, which the loop takes for
    absent): the operation issues exactly these requests,
    in this order, and returns the result lists of the pages, in the
    order of the pages, concatenated; a page without a result list
    contributes nothing. This holds of the loop itself and so of
    describe stacks, list exports and list imports. Conversely an
    operation that returns has walked such a chain. *)
Theorem consumeAllTokens_concatenates_pages :
  (forall T cfClient Command (resultProp : response -> option (list T)) rs fuel,
     pages send cfClient Command None rs -> length rs <= fuel ->
     consumeAllTokens send fuel cfClient Command resultProp
       = (map (fun tok => Send cfClient (Command tok)) (tokens None rs),
          Return (flat_map (contribution resultProp) rs))) /\
  (forall T cfClient Command (resultProp : response -> option (list T)) fuel t result,
     consumeAllTokens send fuel cfClient Command resultProp = (t, Return result) ->
     exists rs, pages send cfClient Command None rs /\ length rs <= fuel) /\
  (forall cfClient rs fuel,
     pages send cfClient DescribeStacksCommand None rs -> length rs <= fuel ->
     describeStacks send fuel cfClient
       = (map (fun tok => Send cfClient (DescribeStacksCommand tok)) (tokens None rs),
          Return (flat_map (contribution Stacks) rs))) /\
  (forall cfClient rs fuel,
     pages send cfClient ListExportsCommand None rs -> length rs <= fuel ->
     listExports send fuel cfClient
       = (map (fun tok => Send cfClient (ListExportsCommand tok)) (tokens None rs),
          Return (flat_map (contribution Exports) rs))) /\
  (forall cfClient exportName rs fuel,
     pages send cfClient (ListImportsCommand exportName) None rs -> length rs <= fuel ->
     listImports send fuel cfClient exportName
       = (map (fun tok => Send cfClient (ListImportsCommand exportName tok))
            (tokens None rs),
          Return (flat_map (contribution Imports) rs))).
Proof.
  assert (G : forall T cfClient Command (resultProp : response -> option (list T)) rs fuel,
     pages send cfClient Command None rs -> length rs <= fuel ->
     consumeAllTokens send fuel cfClient Command resultProp
       = (map (fun tok => Send cfClient (Command tok)) (tokens None rs),
          Return (flat_map (contribution resultProp) rs))).
  { intros T cfClient Command resultProp rs fuel Hp Hf. unfold consumeAllTokens.
    rewrite (consumeAllTokens_loop_pages _ _ resultProp _ _ Hp _ [] Hf). reflexivity. }
  split; [exact G |]. split; [| split; [| split]].
  - intros T cfClient Command resultProp fuel t result H.
    eapply consumeAllTokens_loop_returns. exact H.
  - intros cfClient rs fuel Hp Hf. apply G; assumption.
  - intros cfClient rs fuel Hp Hf. apply G; assumption.
  - intros cfClient exportName rs fuel Hp Hf. unfold listImports.
    rewrite (G _ _ _ Imports _ _ Hp Hf). reflexivity.
Qed.

(* ---------------------------------------------------------------- *)
(** *** [listImports] *)


(* ---------------------------------------------------------------- *)
(** *** The cache *)

Lemma _readFileOrNull_contents (p : path) (contents : string) :
  readFile p = inr contents ->
  _readFileOrNull readFile p = ret (Some contents).
Proof. intros H. unfold _readFileOrNull. rewrite H. reflexivity. Qed.

Lemma _readFileOrNull_ENOENT (p : path) :
  readFile p = inl ENOENT -> _readFileOrNull readFile p = ret None.
Proof. intros H. unfold _readFileOrNull. rewrite H. reflexivity. Qed.

Lemma cacheOrWork_miss {T} `{JSON T} (cache : FilesystemCache) (key : string)
  (work : M T) :
  nothingCached readFile (joinPath cache key) ->
  cacheOrWork readFile cache key work
    = (result <- work ;;
       emit (WriteFile (joinPath cache key) (JSON_stringify result)) ;;;
       ret result).
Proof.
  intros [Hr | Hr]; unfold cacheOrWork.
  - rewrite (_readFileOrNull_ENOENT _ Hr), bind_ret. reflexivity.
  - rewrite (_readFileOrNull_contents _ _ Hr), bind_ret. reflexivity.
Qed.

Lemma cacheOrWork_hit {T} `{JSON T} (cache : FilesystemCache) (key : string)
  (work : M T) (contents : string) :
  readFile (joinPath cache key) = inr contents -> contents <> "" ->
  cacheOrWork readFile cache key work = ([], settle (JSON_parse contents)).
Proof.
  intros Hr Hn. unfold cacheOrWork.
  rewrite (_readFileOrNull_contents _ _ Hr), bind_ret.
  rewrite (truthy_carried _ Hn). reflexivity.
Qed.

(** C3, amended. If the cache file of the key exists and is not empty,
    [cacheOrWork] returns what [JSON.parse] makes of its contents and
    issues no operation at all, whatever [work] is: [work] is not
    invoked. If there is no such file, or the file is empty, the
    operations of [cacheOrWork] are those of one call of [work]; when
    that call returns, they are followed by one write of the result,
    stringified, to the file of the key, and the result is returned;
    when it throws, nothing is written and [cacheOrWork] throws the
    same. *)
Theorem cacheOrWork_read_through {T} `{JSON T} (cache : FilesystemCache)
  (key : string) (work : M T) :
  (forall contents value,
     readFile (joinPath cache key) = inr contents -> contents <> "" ->
     JSON_parse contents = inr value ->
     cacheOrWork readFile cache key work = ([], Return value)) /\
  (forall t result,
     nothingCached readFile (joinPath cache key) -> work = (t, Return result) ->
     cacheOrWork readFile cache key work
       = ((t ++ [WriteFile (joinPath cache key) (JSON_stringify result)])%list,
          Return result)) /\
  (forall t e,
     nothingCached readFile (joinPath cache key) -> work = (t, Throw e) ->
     cacheOrWork readFile cache key work = (t, Throw e)).
Proof.
  split; [| split].
  - intros contents value Hr Hn Hp.
    rewrite (cacheOrWork_hit _ _ work _ Hr Hn), Hp. reflexivity.
  - intros t result Hc ->. rewrite (cacheOrWork_miss _ _ _ Hc). reflexivity.
  - intros t e Hc ->. rewrite (cacheOrWork_miss _ _ _ Hc). reflexivity.
Qed.

(* ---------------------------------------------------------------- *)
(** *** The declarations of a cross-stack reference *)

Lemma appendDeclarations_returns regionConfig apps eexport exportingStack importingStack t :
  appendDeclarations regionConfig apps eexport exportingStack importingStack
    = (t, Return tt) ->
  t = (appDeclaration apps regionConfig eexport exportingStack importingStack
       ++ stackDeclaration regionConfig eexport exportingStack importingStack)%list.
Proof.
  unfold appendDeclarations, appDeclaration, stackDeclaration, declaration.
  destruct (multipleApps apps).
  - destruct (getNodeNameForApp exportingStack regionConfig) as [ae | e | w];
      try (simpl; discriminate).
    destruct (getNodeNameForApp importingStack regionConfig) as [ai | e | w];
      try (simpl; discriminate).
    destruct (getNodeNameForStack exportingStack regionConfig) as [se | e | w];
      try (simpl; destruct (String.eqb ae ai); simpl; discriminate).
    destruct (getNodeNameForStack importingStack regionConfig) as [si | e | w];
      try (simpl; destruct (String.eqb ae ai); simpl; discriminate).
    simpl. destruct (String.eqb ae ai), (String.eqb se si); simpl;
      intros H; inversion H; reflexivity.
  - destruct (getNodeNameForStack exportingStack regionConfig) as [se | e | w];
      try (simpl; discriminate).
    destruct (getNodeNameForStack importingStack regionConfig) as [si | e | w];
      try (simpl; discriminate).
    simpl. destruct (String.eqb se si); simpl; intros H; inversion H; reflexivity.
Qed.

Lemma declaration_appends nodeName outputDir regionConfig eexport eStack iStack :
  Forall (fun ev => isAppendFile ev = true)
    (declaration nodeName outputDir regionConfig eexport eStack iStack).
Proof.
  unfold declaration.
  destruct (nodeName eStack regionConfig); try constructor.
  destruct (nodeName iStack regionConfig); try constructor.
  destruct (String.eqb a a0); repeat constructor.
Qed.

Lemma referenceDeclarations_appends stacks regionConfig environment apps includes r :
  Forall (fun ev => isAppendFile ev = true)
    (referenceDeclarations stacks regionConfig environment apps includes r).
Proof.
  unfold referenceDeclarations.
  destruct (Map_get _ stacks) as [eStack|]; [| constructor].
  destruct (Map_get _ stacks) as [iStack|]; [| constructor].
  destruct (_ && _); [| constructor].
  apply Forall_app. split.
  - unfold appDeclaration. destruct (multipleApps apps); [| constructor].
    apply declaration_appends.
  - apply declaration_appends.
Qed.

Lemma filter_all {A} (p : A -> bool) (l : list A) :
  Forall (fun x => p x = true) l -> filter p l = l.
Proof.
  induction 1 as [|x l Hx _ IH]; simpl; [reflexivity |].
  rewrite Hx, IH. reflexivity.
Qed.


Lemma lift_returns {A} (c : completion A) (t : list event) (a : A) :
  lift c = (t, Return a) -> c = Return a /\ t = [].
Proof. unfold lift. intros H. inversion H. auto. Qed.

Lemma passes_Return stack environment apps includes b :
  isInterestingStack stack environment apps includes = Return b ->
  passes stack environment apps includes = b.
Proof. unfold passes. intros ->. destruct b; reflexivity. Qed.

Lemma processImport_returns stacks regionConfig environment apps includes
  eexport exportingStack iimport t :
  Map_get (template (ExportingStackId eexport)) stacks = Some exportingStack ->
  passes exportingStack environment apps includes = true ->
  processImport stacks regionConfig environment apps includes eexport exportingStack
    iimport = (t, Return tt) ->
  t = referenceDeclarations stacks regionConfig environment apps includes
        (eexport, iimport).
Proof.
  intros Hg Hp. unfold processImport, referenceDeclarations. simpl fst. simpl snd.
  rewrite Hg, Hp.
  destruct (Map_get iimport stacks) as [importingStack|]; [| discriminate].
  intros H. apply bind_returns in H. destruct H as (t1 & b & t2 & H1 & H2 & ->).
  apply lift_returns in H1. destruct H1 as [H1 ->].
  rewrite (passes_Return _ _ _ _ _ H1). destruct b; simpl in *.
  - apply appendDeclarations_returns. exact H2.
  - inversion H2. reflexivity.
Qed.

Lemma flat_map_ext_in {A B} (f g : A -> list B) (l : list A) :
  Forall (fun x => f x = g x) l -> flat_map f l = flat_map g l.
Proof.
  induction 1 as [|x l Hx _ IH]; simpl; [reflexivity |]. rewrite Hx, IH. reflexivity.
Qed.

Lemma flat_map_nil {A B} (f : A -> list B) (l : list A) :
  Forall (fun x => f x = []) l -> flat_map f l = [].
Proof. induction 1 as [|x l Hx _ IH]; simpl; [reflexivity |]. rewrite Hx, IH. reflexivity. Qed.

Lemma flat_map_map {A B C} (f : B -> list C) (g : A -> B) (l : list A) :
  flat_map f (map g l) = flat_map (fun x => f (g x)) l.
Proof. induction l as [|x l IH]; simpl; [reflexivity |]. rewrite IH. reflexivity. Qed.

Lemma flat_map_flat_map {A B C} (f : B -> list C) (g : A -> list B) (l : list A) :
  flat_map f (flat_map g l) = flat_map (fun x => flat_map f (g x)) l.
Proof.
  induction l as [|x l IH]; simpl; [reflexivity |].
  rewrite flat_map_app, IH. reflexivity.
Qed.

Lemma processExport_returns stacks regionConfig environment apps includes entry t :
  processExport stacks regionConfig environment apps includes entry = (t, Return tt) ->
  t = flat_map (referenceDeclarations stacks regionConfig environment apps includes)
        (map (pair (fst entry)) (snd entry)).
Proof.
  destruct entry as [eexport imports]. unfold processExport. simpl fst. simpl snd.
  destruct (negb (truthy (ExportingStackId eexport))); [discriminate |].
  destruct (Map_get (template (ExportingStackId eexport)) stacks)
    as [exportingStack|] eqn:Hg; [| discriminate].
  intros H. apply bind_returns in H. destruct H as (t1 & b & t2 & H1 & H2 & ->).
  apply lift_returns in H1. destruct H1 as [H1 ->].
  apply passes_Return in H1. destruct b; simpl in H2 |- *.
  - apply for_of_returns in H2. destruct H2 as [-> HF].
    rewrite flat_map_map.
    apply flat_map_ext_in. rewrite Forall_forall in HF |- *.
    intros iimport Hi. specialize (HF iimport Hi).
    destruct (processImport stacks regionConfig environment apps includes eexport
                exportingStack iimport) as [ti ci] eqn:E.
    simpl in HF. subst ci. simpl.
    eapply processImport_returns; eassumption.
  - inversion H2. symmetry. apply flat_map_nil. rewrite Forall_forall.
    intros r Hr. apply in_map_iff in Hr. destruct Hr as (iimport & <- & _).
    unfold referenceDeclarations. simpl fst. simpl snd. rewrite Hg, H1.
    destruct (Map_get iimport stacks); reflexivity.
Qed.

Lemma writePlaceholders_writes regionConfig apps stack :
  Forall (fun ev => isAppendFile ev = false)
    (trace (writePlaceholders regionConfig apps stack)).
Proof.
  unfold writePlaceholders. apply Forall_trace_bind.
  - destruct (multipleApps apps); [| constructor].
    apply Forall_trace_bind; [constructor |].
    intros node. apply Forall_trace_emit. reflexivity.
  - intros _. apply Forall_trace_bind; [constructor |].
    intros node. apply Forall_trace_emit. reflexivity.
Qed.

(** A run of [emitGraph] that returns: the placeholders, then the
    declarations of every reference, in order. *)
Lemma emitGraph_returns stacks exportsWithImportingStacks regionConfig environment
  apps includes t :
  emitGraph stacks exportsWithImportingStacks regionConfig environment apps includes
    = (t, Return tt) ->
  exists interestingStacks,
    filter_throwing (fun stack => isInterestingStack stack environment apps includes)
      (Map_values stacks) = Return interestingStacks /\
    Forall (fun stack => outcome (writePlaceholders regionConfig apps stack) = Return tt)
      interestingStacks /\
    t = (flat_map (fun stack => trace (writePlaceholders regionConfig apps stack))
           interestingStacks
         ++ flat_map (referenceDeclarations stacks regionConfig environment apps includes)
              (references exportsWithImportingStacks))%list.
Proof.
  unfold emitGraph. intros H.
  apply bind_returns in H. destruct H as (t1 & interestingStacks & t2 & H1 & H2 & ->).
  apply lift_returns in H1. destruct H1 as [H1 ->].
  apply bind_returns in H2. destruct H2 as (t3 & [] & t4 & H3 & H4 & ->).
  apply for_of_returns in H3. destruct H3 as [-> HF3].
  apply for_of_returns in H4. destruct H4 as [-> HF4].
  exists interestingStacks. split; [exact H1 |]. split; [exact HF3 |].
  simpl. f_equal. unfold references. rewrite flat_map_flat_map.
  apply flat_map_ext_in. rewrite Forall_forall in HF4 |- *.
  intros entry He. specialize (HF4 entry He).
  destruct (processExport stacks regionConfig environment apps includes entry)
    as [te ce] eqn:E.
  simpl in HF4. subst ce. simpl.
  eapply processExport_returns. exact E.
Qed.



Lemma appends_references stacks regionConfig environment apps includes rs :
  appends (flat_map (referenceDeclarations stacks regionConfig environment apps includes)
             rs)
    = flat_map (referenceDeclarations stacks regionConfig environment apps includes) rs.
Proof.
  apply filter_all. apply Forall_flat_map. rewrite Forall_forall.
  intros r _. apply referenceDeclarations_appends.
Qed.

Lemma In_declaration nodeName outputDir regionConfig eexport eStack iStack ev :
  In ev (declaration nodeName outputDir regionConfig eexport eStack iStack) ->
  exists exportingNode importingNode,
    nodeName eStack regionConfig = Return exportingNode /\
    nodeName iStack regionConfig = Return importingNode /\
    exportingNode <> importingNode /\
    ev = AppendFile (unitFile outputDir importingNode)
           (requireLine exportingNode (Name eexport)).
Proof.
  unfold declaration.
  destruct (nodeName eStack regionConfig) as [ne | |]; try contradiction.
  destruct (nodeName iStack regionConfig) as [ni | |]; try contradiction.
  destruct (String.eqb_spec ne ni) as [| Hne]; [contradiction |].
  intros [<- | []]. exists ne, ni. auto.
Qed.

Lemma stackDeclaration_names regionConfig eexport eStack iStack ne ni :
  getNodeNameForStack eStack regionConfig = Return ne ->
  getNodeNameForStack iStack regionConfig = Return ni ->
  stackDeclaration regionConfig eexport eStack iStack
    = if String.eqb ne ni then []
      else [AppendFile (unitFile STACK_OUTPUT_DIR ni) (requireLine ne (Name eexport))].
Proof. intros He Hi. unfold stackDeclaration, declaration. rewrite He, Hi. reflexivity. Qed.



(* ---------------------------------------------------------------- *)
(** *** No declaration from a unit to itself *)

Lemma bind_lift {A B} (a : A) (k : A -> M B) : bind (lift (Return a)) k = k a.
Proof. apply bind_ret. Qed.





(* ---------------------------------------------------------------- *)
(** *** The operations of a whole run *)

Lemma Forall_trace_bind_returned {A B} (P : event -> Prop) (m : M A) (k : A -> M B) :
  Forall P (trace m) -> (forall a, outcome m = Return a -> Forall P (trace (k a))) ->
  Forall P (trace (bind m k)).
Proof.
  intros Hm Hk. destruct m as [t [a | e | w]]; simpl in *; try assumption.
  specialize (Hk a eq_refl). destruct (k a) as [t' c]. simpl in *.
  apply Forall_app. auto.
Qed.

Section Operations.

(** A property of operations that holds of every request and of
    every write into the cache directory. *)
Variable P : event -> Prop.
Variable cache : FilesystemCache.
Hypothesis P_Send : forall cfClient c, P (Send cfClient c).
Hypothesis P_cache : forall key data, P (WriteFile (joinPath cache key) data).

Lemma consumeAllTokens_loop_trace {T} fuel cfClient Command
  (resultProp : response -> option (list T)) :
  forall token result,
  Forall P (trace (consumeAllTokens_loop send fuel cfClient Command resultProp
                     token result)).
Proof.
  induction fuel as [|fuel IH]; intros token result; cbn [consumeAllTokens_loop].
  - constructor.
  - apply Forall_trace_bind.
    + unfold cfClient_send. apply Forall_trace_bind.
      * apply Forall_trace_emit. apply P_Send.
      * intros _. constructor.
    + intros r. destruct (truthy (NextToken r)); [apply IH | constructor].
Qed.

Lemma listImports_trace fuel cfClient exportName :
  Forall P (trace (listImports send fuel cfClient exportName)).
Proof.
  unfold listImports. apply Forall_trace_try_catch.
  - apply consumeAllTokens_loop_trace.
  - intros [m | m | s c | name m | d]; try constructor.
    destruct (String.eqb m (notImported exportName)); constructor.
Qed.

Lemma cacheOrWork_trace {T} `{JSON T} key (work : M T) :
  Forall P (trace work) -> Forall P (trace (cacheOrWork readFile cache key work)).
Proof.
  intros Hw. unfold cacheOrWork. apply Forall_trace_bind.
  - unfold _readFileOrNull. destruct (readFile (joinPath cache key)) as [e | c].
    + destruct e; try constructor.
      destruct (String.eqb syscall "open" && String.eqb code "ENOENT"); constructor.
    + constructor.
  - intros contents. destruct (truthy contents); [constructor |].
    apply Forall_trace_bind; [exact Hw |].
    intros result. apply Forall_trace_bind.
    + apply Forall_trace_emit. apply P_cache.
    + intros _. constructor.
Qed.

Lemma getStacks_trace fuel cfClient region :
  Forall P (trace (getStacks readFile send fuel cache cfClient region)).
Proof.
  unfold getStacks. apply Forall_trace_bind.
  - apply cacheOrWork_trace. apply consumeAllTokens_loop_trace.
  - intros stacks. constructor.
Qed.

Lemma getExportsWithImportingStacks_trace fuel exports cfClient region :
  Forall P (trace (getExportsWithImportingStacks readFile send fuel exports cache
                     cfClient region)).
Proof.
  induction exports as [|eexport exports IH]; cbn [getExportsWithImportingStacks].
  - constructor.
  - apply Forall_trace_bind.
    + apply cacheOrWork_trace.
      destruct (negb (truthy (Name eexport))); [constructor |].
      apply listImports_trace.
    + intros imports. apply Forall_trace_bind; [exact IH |].
      intros result. constructor.
Qed.

Lemma processCloudFormation_trace fuel regionConfig environment apps includes :
  (forall stacks exportsWithImportingStacks,
     Forall P (trace (emitGraph stacks exportsWithImportingStacks regionConfig
                        environment apps includes))) ->
  Forall P (trace (processCloudFormation readFile send fuel cache regionConfig
                     environment apps includes)).
Proof.
  intros Hemit. unfold processCloudFormation.
  apply Forall_trace_bind; [apply getStacks_trace |].
  intros stacks. apply Forall_trace_bind.
  - apply cacheOrWork_trace. apply consumeAllTokens_loop_trace.
  - intros exports. apply Forall_trace_bind.
    + apply getExportsWithImportingStacks_trace.
    + intros exportsWithImportingStacks. apply Hemit.
Qed.

End Operations.

Lemma main_trace (P : event -> Prop) fuel AWS_REGION environment apps includes :
  (forall p, P (Mkdir p)) ->
  (forall cfClient c, P (Send cfClient c)) ->
  (forall key data, P (WriteFile (joinPath CACHE_DIR key) data)) ->
  (forall stacks exportsWithImportingStacks regionConfig,
     Forall P (trace (emitGraph stacks exportsWithImportingStacks regionConfig
                        environment apps includes))) ->
  (multipleApps apps = true -> P (MadgeImage APP_OUTPUT_DIR "graph-apps.png")) ->
  P (MadgeImage STACK_OUTPUT_DIR "graph-stacks.png") ->
  Forall P (trace (main readFile send fuel AWS_REGION environment apps includes)).
Proof.
  intros Hmkdir Hsend Hcache Hemit Happs Hstacks. unfold main.
  apply Forall_trace_bind; [apply Forall_trace_emit, Hmkdir |]. intros _.
  apply Forall_trace_bind; [apply Forall_trace_emit, Hmkdir |]. intros _.
  apply Forall_trace_bind_returned.
  { unfold new_FilesystemCache. apply Forall_trace_bind.
    - apply Forall_trace_emit, Hmkdir.
    - intros _. constructor. }
  (* the cache [main] uses is [CACHE_DIR] *)
  intros cache Hcache'. unfold new_FilesystemCache in Hcache'.
  rewrite bind_emit in Hcache'. simpl in Hcache'. inversion Hcache'. subst cache.
  assert (Hrun : forall regionConfig,
    Forall P (trace (processCloudFormation readFile send fuel CACHE_DIR regionConfig
                       environment apps includes))).
  { intros regionConfig. apply processCloudFormation_trace; auto. }
  apply Forall_trace_bind; [apply Hrun |]. intros _.
  apply Forall_trace_bind.
  { destruct (negb (eqb_key AWS_REGION "us-east-1")); [apply Hrun | constructor]. }
  intros _. apply Forall_trace_bind.
  { destruct (multipleApps apps) eqn:E; [| constructor].
    apply Forall_trace_emit. apply Happs. reflexivity. }
  intros _. apply Forall_trace_emit. exact Hstacks.
Qed.


(* ---------------------------------------------------------------- *)
(** *** The granularity rule *)

Lemma emitGraph_appOutput stacks exportsWithImportingStacks regionConfig environment
  apps includes :
  multipleApps apps = false ->
  Forall (fun ev => ~ appOutput ev)
    (trace (emitGraph stacks exportsWithImportingStacks regionConfig environment
              apps includes)).
Proof.
  intros Hsingle.
  assert (Hstack : forall A (node data : A -> string) (wr : path -> string -> event),
    (wr = WriteFile \/ wr = AppendFile) ->
    forall (c : completion A) (k : A -> M unit),
    (forall a, k a = ret tt \/ k a = emit (wr (unitFile STACK_OUTPUT_DIR (node a)) (data a))) ->
    Forall (fun ev => ~ appOutput ev) (trace (bind (lift c) k))).
  { intros A node data wr Hwr c k Hk. apply Forall_trace_bind; [constructor |].
    intros a. destruct (Hk a) as [-> | ->]; [constructor |].
    apply Forall_trace_emit.
    destruct Hwr as [-> | ->]; simpl; intros [file H]; discriminate H. }
  unfold emitGraph. apply Forall_trace_bind; [constructor |].
  intros interestingStacks. apply Forall_trace_bind.
  - apply Forall_trace_for_of. intros stack _. unfold writePlaceholders.
    rewrite Hsingle, bind_ret.
    apply (Hstack string (fun node => node) (fun _ => "") WriteFile); auto.
  - intros _. apply Forall_trace_for_of. intros [eexport imports] _.
    unfold processExport.
    destruct (negb (truthy (ExportingStackId eexport))); [constructor |].
    destruct (Map_get _ stacks) as [exportingStack|]; [| constructor].
    apply Forall_trace_bind; [constructor |].
    intros [|]; simpl; [| constructor].
    apply Forall_trace_for_of. intros iimport _. unfold processImport.
    destruct (Map_get iimport stacks) as [importingStack|]; [| constructor].
    apply Forall_trace_bind; [constructor |].
    intros [|]; simpl; [| constructor].
    unfold appendDeclarations. rewrite Hsingle, bind_ret.
    apply Forall_trace_bind; [constructor |]. intros exportingNode.
    apply (Hstack string (fun node => node)
             (fun _ => requireLine exportingNode (Name eexport)) AppendFile); auto.
    intros importingNode.
    destruct (negb (String.eqb exportingNode importingNode)); auto.
Qed.

Lemma main_returns fuel AWS_REGION environment apps includes t :
  main readFile send fuel AWS_REGION environment apps includes = (t, Return tt) ->
  exists t',
    t = (t' ++ (if multipleApps apps
                then [MadgeImage APP_OUTPUT_DIR "graph-apps.png"] else [])
            ++ [MadgeImage STACK_OUTPUT_DIR "graph-stacks.png"])%list.
Proof.
  unfold main. intros H.
  apply bind_returns in H. destruct H as (t1 & [] & t2 & _ & H & ->).
  apply bind_returns in H. destruct H as (t3 & [] & t4 & _ & H & ->).
  apply bind_returns in H. destruct H as (t5 & cache & t6 & _ & H & ->).
  apply bind_returns in H. destruct H as (t7 & [] & t8 & _ & H & ->).
  apply bind_returns in H. destruct H as (t9 & [] & t10 & _ & H & ->).
  apply bind_returns in H. destruct H as (t11 & [] & t12 & H11 & H & ->).
  inversion H. subst.
  exists (t1 ++ t3 ++ t5 ++ t7 ++ t9)%list.
  destruct (multipleApps apps); inversion H11; subst;
    rewrite <- ?app_assoc; reflexivity.
Qed.

(** C2, amended. In a run of [main], a coarse-grained output (a
    placeholder or a declaration in the apps directory, the graph-apps
    image) occurs only when no app was named or more than one name was
    given, which is what [!apps || apps.length > 1] tests: the names are
    counted as they were given, not the groups that the stacks fall
    into. With exactly one name given there is none, and a run that
    returns has rendered the stacks graph; with no name or several it
    has rendered the apps graph too. *)
Theorem apps_outputs_only_for_several_apps fuel AWS_REGION environment apps includes :
  (forall ev,
     In ev (trace (main readFile send fuel AWS_REGION environment apps includes)) ->
     appOutput ev -> multipleApps apps = true) /\
  (forall app ev, apps = Some [app] ->
     In ev (trace (main readFile send fuel AWS_REGION environment apps includes)) ->
     ~ appOutput ev) /\
  (outcome (main readFile send fuel AWS_REGION environment apps includes) = Return tt ->
     In (MadgeImage STACK_OUTPUT_DIR "graph-stacks.png")
       (trace (main readFile send fuel AWS_REGION environment apps includes)) /\
     (multipleApps apps = true ->
        In (MadgeImage APP_OUTPUT_DIR "graph-apps.png")
          (trace (main readFile send fuel AWS_REGION environment apps includes)))).
Proof.
  assert (Honly : forall ev,
     In ev (trace (main readFile send fuel AWS_REGION environment apps includes)) ->
     appOutput ev -> multipleApps apps = true).
  { apply (proj1 (Forall_forall (fun ev => appOutput ev -> multipleApps apps = true) _)).
    apply main_trace; simpl; try contradiction; auto.
    - intros key data [file H]. discriminate H.
    - intros stacks exportsWithImportingStacks regionConfig.
      destruct (multipleApps apps) eqn:E.
      + apply Forall_forall. auto.
      + eapply Forall_impl; [| apply emitGraph_appOutput; exact E].
        intros ev Hn Ha. contradiction.
    - intros H. discriminate H. }
  split; [exact Honly |]. split.
  - intros app ev -> Hin Ha. specialize (Honly ev Hin Ha). discriminate Honly.
  - intros Hret.
    destruct (main readFile send fuel AWS_REGION environment apps includes)
      as [t c] eqn:E.
    simpl in Hret. subst c. destruct (main_returns _ _ _ _ _ _ E) as [t' ->].
    simpl trace. split.
    + rewrite !in_app_iff. right. right. left. reflexivity.
    + intros ->. rewrite !in_app_iff. right. left. left. reflexivity.
Qed.

(* ---------------------------------------------------------------- *)
(** *** Placeholders *)

Lemma filter_throwing_In {A} (p : A -> completion bool) (xs l : list A) :
  filter_throwing p xs = Return l ->
  forall x, In x xs -> p x = Return true -> In x l.
Proof.
  revert l. induction xs as [|y xs IH]; intros l H x Hin Hp; [destruct Hin |].
  simpl in H. destruct (p y) as [keep | |] eqn:Ey; try discriminate.
  simpl in H. destruct (filter_throwing p xs) as [rest | |]; try discriminate.
  simpl in H. inversion H. destruct Hin as [-> | Hin].
  - rewrite Hp in Ey. inversion Ey. left. reflexivity.
  - specialize (IH rest eq_refl x Hin Hp). destruct keep; [right |]; exact IH.
Qed.

(** The placeholders of a stack whose loop body returns. *)
Lemma writePlaceholders_returns regionConfig apps stack :
  outcome (writePlaceholders regionConfig apps stack) = Return tt ->
  exists stackNode,
    getNodeNameForStack stack regionConfig = Return stackNode /\
    ((multipleApps apps = false /\
      trace (writePlaceholders regionConfig apps stack)
        = [WriteFile (unitFile STACK_OUTPUT_DIR stackNode) ""]) \/
     (multipleApps apps = true /\
      exists appNode,
        getNodeNameForApp stack regionConfig = Return appNode /\
        trace (writePlaceholders regionConfig apps stack)
          = [WriteFile (unitFile APP_OUTPUT_DIR appNode) "";
             WriteFile (unitFile STACK_OUTPUT_DIR stackNode) ""])).
Proof.
  unfold writePlaceholders. destruct (multipleApps apps).
  - destruct (getNodeNameForApp stack regionConfig) as [appNode | |];
      try (simpl; discriminate).
    destruct (getNodeNameForStack stack regionConfig) as [stackNode | |];
      try (simpl; discriminate).
    intros _. exists stackNode. split; [reflexivity |]. right.
    split; [reflexivity |]. exists appNode. split; reflexivity.
  - destruct (getNodeNameForStack stack regionConfig) as [stackNode | |];
      try (simpl; discriminate).
    intros _. exists stackNode. split; [reflexivity |]. left.
    split; reflexivity.
Qed.

(** The placeholders of a run of [emitGraph] that returns. *)
Lemma placeholders_written (stacks : Map Stack)
  (exportsWithImportingStacks : list (Export * list string))
  (regionConfig : RegionConfiguration) (environment : string)
  (apps : option (list string)) (includes : option (list IncludeOptionChoice))
  (t : list event) :
  emitGraph stacks exportsWithImportingStacks regionConfig environment apps includes
    = (t, Return tt) ->
  (forall stack,
     In stack (Map_values stacks) ->
     isInterestingStack stack environment apps includes = Return true ->
     (exists node,
        getNodeNameForStack stack regionConfig = Return node /\
        In (WriteFile (unitFile STACK_OUTPUT_DIR node) "") t) /\
     (multipleApps apps = true ->
      exists node,
        getNodeNameForApp stack regionConfig = Return node /\
        In (WriteFile (unitFile APP_OUTPUT_DIR node) "") t)) /\
  (multipleApps apps = false ->
   forall file data, ~ In (WriteFile (joinPath APP_OUTPUT_DIR file) data) t).
Proof.
  intros H. apply emitGraph_returns in H.
  destruct H as (interestingStacks & Hfilter & Hret & ->). split.
  - intros stack Hin Hint.
    pose proof (filter_throwing_In _ _ _ Hfilter stack Hin Hint) as Hi.
    rewrite Forall_forall in Hret. specialize (Hret stack Hi).
    apply writePlaceholders_returns in Hret.
    destruct Hret as (stackNode & Hs & [[Hm Ht] | [Hm (appNode & Ha & Ht)]]).
    + split.
      * exists stackNode. split; [exact Hs |]. apply in_or_app. left.
        apply in_flat_map. exists stack. split; [exact Hi |].
        rewrite Ht. left. reflexivity.
      * intros Hm'. congruence.
    + split.
      * exists stackNode. split; [exact Hs |]. apply in_or_app. left.
        apply in_flat_map. exists stack. split; [exact Hi |].
        rewrite Ht. right. left. reflexivity.
      * intros _. exists appNode. split; [exact Ha |]. apply in_or_app. left.
        apply in_flat_map. exists stack. split; [exact Hi |].
        rewrite Ht. left. reflexivity.
  - intros Hsingle file data Hin. apply in_app_or in Hin. destruct Hin as [Hin | Hin].
    + apply in_flat_map in Hin. destruct Hin as (stack & Hi & Hin).
      rewrite Forall_forall in Hret. specialize (Hret stack Hi).
      apply writePlaceholders_returns in Hret.
      destruct Hret as (stackNode & Hs & [[Hm Ht] | [Hm _]]); [| congruence].
      rewrite Ht in Hin. destruct Hin as [Hin | []]. discriminate Hin.
    + pose proof (appends_references stacks regionConfig environment apps includes
                    (references exportsWithImportingStacks)) as Ha.
      unfold appends in Ha. rewrite <- Ha in Hin.
      apply filter_In in Hin. destruct Hin as [_ Hin]. discriminate Hin.
Qed.

(* ---------------------------------------------------------------- *)
(** *** [getStacks] *)

Lemma find_the_only {A} (p : A -> bool) (l : list A) (x : A) :
  In x l -> p x = true -> (forall y, In y l -> p y = true -> y = x) ->
  find p l = Some x.
Proof.
  induction l as [|y l IH]; intros Hin Hp Honly; [destruct Hin |].
  simpl. destruct (p y) eqn:Ey.
  - f_equal. apply Honly; [left; reflexivity | exact Ey].
  - destruct Hin as [-> | Hin]; [congruence |].
    apply IH; auto. intros z Hz. apply Honly. right. exact Hz.
Qed.

Lemma forallb_identified (stacks : list Stack) :
  forallb identified stacks = true <->
  (forall stack, In stack stacks ->
     truthy (StackId stack) = true /\ truthy (StackName stack) = true).
Proof.
  rewrite forallb_forall. unfold identified. split; intros H stack Hin.
  - apply andb_prop. apply H. exact Hin.
  - apply andb_true_intro. apply H. exact Hin.
Qed.

Lemma has_key_own (stack : Stack) :
  identified stack = true ->
  has_key (template (StackId stack)) stack = true /\
  has_key (template (StackName stack)) stack = true.
Proof.
  unfold identified, has_key. intros H. apply andb_prop in H. destruct H as [Hi Hn].
  rewrite (eqb_key_template _ (template (StackId stack)) Hi).
  rewrite (eqb_key_template _ (template (StackName stack)) Hn).
  rewrite !String.eqb_refl. split; [apply orb_true_r | reflexivity].
Qed.

(** C10, amended. When a fetched stack has no [StackId] or no
    [StackName], [getStacks] throws. Otherwise it returns a map that
    holds, under every key, the last fetched stack with that
    [StackName] or [StackId]: a fetched stack is found under its
    [StackId] and under its [StackName], both giving that very record,
    provided no other fetched stack has one of the two as its own
    [StackId] or [StackName]. *)
Theorem getStacks_keys (fuel : nat) (cache : FilesystemCache)
  (cfClient : CloudFormationClient) (region : option string)
  (t : list event) (fetched : list Stack) :
  cacheOrWork readFile cache (template region ++ "_stacks.cache.json")
    (describeStacks send fuel cfClient) = (t, Return fetched) ->
  ((exists stack, In stack fetched /\
      (truthy (StackId stack) = false \/ truthy (StackName stack) = false)) ->
   getStacks readFile send fuel cache cfClient region = (t, Throw invalidStack)) /\
  ((forall stack, In stack fetched ->
      truthy (StackId stack) = true /\ truthy (StackName stack) = true) ->
   exists m,
     getStacks readFile send fuel cache cfClient region = (t, Return m) /\
     (forall key, Map_get key m = find (has_key key) (rev fetched)) /\
     (forall stack, In stack fetched ->
        (forall other, In other fetched ->
           has_key (template (StackId stack)) other = true \/
           has_key (template (StackName stack)) other = true ->
           other = stack) ->
        Map_get (template (StackId stack)) m = Some stack /\
        Map_get (template (StackName stack)) m = Some stack)).
Proof.
  intros Hfetch. unfold getStacks. rewrite Hfetch, bind_Return. simpl.
  rewrite app_nil_r. split.
  - intros (stack & Hin & Hlack).
    rewrite getStacks_reduce_Throw; [reflexivity |].
    destruct (forallb identified fetched) eqn:E; [| reflexivity].
    destruct (proj1 (forallb_identified fetched) E stack Hin) as [Hi Hn].
    destruct Hlack; congruence.
  - intros Hall. pose proof (proj2 (forallb_identified fetched) Hall) as Hid.
    destruct (getStacks_reduce_identified _ Hid) as [m Hm].
    exists m. rewrite Hm. split; [reflexivity |].
    pose proof (getStacks_reduce_get _ _ Hm) as Hget.
    split; [exact Hget |].
    intros stack Hin Honly.
    assert (Hown : identified stack = true).
    { rewrite forallb_forall in Hid. apply Hid. exact Hin. }
    apply has_key_own in Hown. destruct Hown as [Hi Hn].
    rewrite !Hget. split; apply find_the_only; auto.
    + apply in_rev. rewrite rev_involutive. exact Hin.
    + intros other Hother Hk. apply Honly; [| left; exact Hk].
      apply in_rev. exact Hother.
    + apply in_rev. rewrite rev_involutive. exact Hin.
    + intros other Hother Hk. apply Honly; [| right; exact Hk].
      apply in_rev. exact Hother.
Qed.

(* ---------------------------------------------------------------- *)
(** *** Regular expressions: matching *)

Lemma strip_Some (l input rest : list ascii) :
  strip l input = Some rest <-> input = (l ++ rest)%list.
Proof.
  revert input. induction l as [|c l IH]; intros input; simpl.
  - split; intros H; [inversion H | subst]; reflexivity.
  - destruct input as [|x input].
    + split; discriminate.
    + destruct (Ascii.eqb_spec x c) as [-> | Hne].
      * rewrite IH. split; intros H; [subst | inversion H]; reflexivity.
      * split; [discriminate | intros H; inversion H; congruence].
Qed.

Lemma ends_chars (l : list ascii) (rs : list regex) (pos : nat) (input : list ascii) :
  ends (sequence (chars l ++ rs)) pos input
    = match strip l input with
      | Some rest => ends (sequence rs) (pos + length l) rest
      | None => []
      end.
Proof.
  revert pos input. induction l as [|c l IH]; intros pos input.
  - simpl. rewrite Nat.add_0_r. reflexivity.
  - cbn [chars map app sequence fold_right ends strip length].
    destruct input as [|x input]; [reflexivity |].
    destruct (Ascii.eqb x c); [| reflexivity].
    cbn [flat_map fst snd]. rewrite app_nil_r.
    change (fold_right Seq Empty (map Char l ++ rs)) with (sequence (chars l ++ rs)).
    rewrite IH. rewrite Nat.add_succ_r. reflexivity.
Qed.

Lemma ends_Bol (rs : list regex) (pos : nat) (input : list ascii) :
  ends (sequence (Bol :: rs)) pos input
    = if Nat.eqb pos 0 then ends (sequence rs) pos input else [].
Proof.
  cbn [sequence fold_right ends]. destruct (Nat.eqb pos 0); [| reflexivity].
  cbn [flat_map fst snd]. apply app_nil_r.
Qed.

Lemma ends_Group (r : regex) (rs : list regex) (pos : nat) (input : list ascii) :
  ends (sequence (Group r :: rs)) pos input
    = flat_map (fun e => ends (sequence rs) (fst e) (snd e)) (ends r pos input).
Proof. reflexivity. Qed.

Lemma ends_Eol (pos : nat) (input : list ascii) :
  ends (sequence [Eol]) pos input
    = match input with [] => [(pos, [])] | _ :: _ => [] end.
Proof. destruct input; reflexivity. Qed.

Lemma ends_disjunction (alts : list regex) (pos : nat) (input : list ascii) :
  alts <> [] ->
  ends (disjunction alts) pos input = flat_map (fun a => ends a pos input) alts.
Proof.
  induction alts as [|a alts IH]; intros Hne; [congruence |].
  destruct alts as [|b alts].
  - simpl. rewrite app_nil_r. reflexivity.
  - cbn [disjunction ends flat_map] in *. rewrite IH by discriminate. reflexivity.
Qed.

Lemma ends_text (s : string) (pos : nat) (input : list ascii) :
  ends (text s) pos input
    = match strip (list_ascii_of_string s) input with
      | Some rest => [(pos + length (list_ascii_of_string s), rest)]
      | None => []
      end.
Proof.
  unfold text. rewrite <- (app_nil_r (chars _)). rewrite ends_chars. reflexivity.
Qed.

(** A match exists: at some split of the input, the expression can
    end. *)
Lemma search_true (r : regex) (input : list ascii) (pos : nat) :
  search r pos input = true <->
  exists pre post,
    input = (pre ++ post)%list /\ ends r (pos + length pre) post <> [].
Proof.
  revert pos. induction input as [|x input IH]; intros pos.
  - simpl. split.
    + intros H. exists [], []. split; [reflexivity |].
      simpl. rewrite Nat.add_0_r. destruct (ends r pos []); [discriminate | discriminate].
    + intros (pre & post & Hs & Hne). symmetry in Hs.
      apply app_eq_nil in Hs. destruct Hs as [-> ->].
      simpl in Hne. rewrite Nat.add_0_r in Hne.
      destruct (ends r pos []); [congruence | reflexivity].
  - cbn [search]. destruct (ends r pos (x :: input)) eqn:E.
    + rewrite IH. split.
      * intros (pre & post & Hs & Hne). exists (x :: pre), post.
        split; [simpl; congruence |]. simpl. rewrite Nat.add_succ_r. exact Hne.
      * intros (pre & post & Hs & Hne). destruct pre as [|y pre].
        -- simpl in Hs, Hne. subst post. rewrite Nat.add_0_r in Hne. congruence.
        -- inversion Hs. subst. exists pre, post. split; [reflexivity |].
           simpl in Hne. rewrite Nat.add_succ_r in Hne. exact Hne.
    + split; [| reflexivity]. intros _. exists [], (x :: input).
      split; [reflexivity |]. simpl. rewrite Nat.add_0_r. rewrite E. discriminate.
Qed.

Lemma flat_map_not_nil {A B} (f : A -> list B) (l : list A) :
  flat_map f l <> [] <-> exists x, In x l /\ f x <> [].
Proof.
  induction l as [|x l IH]; simpl.
  - split; [congruence | intros (x & [] & _)].
  - split.
    + intros H. destruct (f x) eqn:E.
      * simpl in H. apply IH in H. destruct H as (y & Hy & Hf). eauto.
      * exists x. split; [left; reflexivity | rewrite E; discriminate].
    + intros (y & [-> | Hy] & Hf) H; apply app_eq_nil in H; destruct H as [H1 H2].
      * contradiction.
      * apply IH in H2; [exact H2 | eauto].
Qed.

(* ---------------------------------------------------------------- *)
(** *** What the program's patterns test *)

Lemma lst_app (a b : string) : lst (a ++ b) = (lst a ++ lst b)%list.
Proof. induction a as [|c a IH]; simpl; [reflexivity |]. rewrite IH. reflexivity. Qed.

Lemma lst_inj (a b : string) : lst a = lst b -> a = b.
Proof.
  intros H. rewrite <- (string_of_list_ascii_of_string a),
    <- (string_of_list_ascii_of_string b), H. reflexivity.
Qed.

Lemma startsWith_lst (p s : string) :
  startsWith p s <-> exists rest, lst s = (lst p ++ rest)%list.
Proof.
  split.
  - intros [rest ->]. exists (lst rest). apply lst_app.
  - intros [rest H]. exists (str rest). apply lst_inj.
    rewrite lst_app, list_ascii_of_string_of_list_ascii. exact H.
Qed.

Lemma endsWith_lst (p s : string) :
  endsWith p s <-> exists pre, lst s = (pre ++ lst p)%list.
Proof.
  split.
  - intros [pre ->]. exists (lst pre). apply lst_app.
  - intros [pre H]. exists (str pre). apply lst_inj.
    rewrite lst_app, list_ascii_of_string_of_list_ascii. exact H.
Qed.

Lemma contains_lst (p s : string) :
  contains p s <-> exists pre post, lst s = (pre ++ lst p ++ post)%list.
Proof.
  split.
  - intros (pre & post & ->). exists (lst pre), (lst post). rewrite !lst_app. reflexivity.
  - intros (pre & post & H). exists (str pre), (str post). apply lst_inj.
    rewrite !lst_app, !list_ascii_of_string_of_list_ascii. exact H.
Qed.

(** [/^(t1|...|tn)c.../]: a text of the group, then the rest. *)
Lemma ends_texts (ts : list string) (rs : list regex) (pos : nat) (input : list ascii) :
  ts <> [] ->
  ends (sequence (Group (disjunction (map text ts)) :: rs)) pos input <> [] <->
  exists t rest,
    In t ts /\ input = (lst t ++ rest)%list /\
    ends (sequence rs) (pos + length (lst t)) rest <> [].
Proof.
  intros Hne. rewrite ends_Group, ends_disjunction.
  2:{ destruct ts; [congruence | discriminate]. }
  rewrite flat_map_flat_map, flat_map_map, flat_map_not_nil.
  split.
  - intros (t & Hin & H). rewrite ends_text in H.
    destruct (strip (lst t) input) as [rest|] eqn:E; [| simpl in H; congruence].
    apply strip_Some in E. simpl in H. rewrite app_nil_r in H. eauto.
  - intros (t & rest & Hin & Hs & H). exists t. split; [exact Hin |].
    rewrite ends_text. apply strip_Some in Hs. rewrite Hs. simpl.
    rewrite app_nil_r. exact H.
Qed.

(** An anchored pattern matches at the start or not at all. *)
Lemma test_Bol (rs : list regex) (s : string) :
  test (sequence (Bol :: rs)) s = true <-> ends (sequence rs) 0 (lst s) <> [].
Proof.
  unfold test. rewrite search_true. split.
  - intros (pre & post & Hs & H). rewrite ends_Bol in H.
    destruct pre as [|c pre]; [| simpl in H; congruence].
    simpl in Hs, H. subst post. exact H.
  - intros H. exists [], (lst s). split; [reflexivity |].
    rewrite ends_Bol. exact H.
Qed.

Lemma ends_Eol_not_nil (pos : nat) (input : list ascii) :
  ends (sequence [Eol]) pos input <> [] <-> input = [].
Proof.
  rewrite ends_Eol. destruct input; split; congruence.
Qed.

Lemma ends_chars_not_nil (l : list ascii) (rs : list regex) (pos : nat)
  (input : list ascii) :
  ends (sequence (chars l ++ rs)) pos input <> [] <->
  exists rest, input = (l ++ rest)%list /\
               ends (sequence rs) (pos + length l) rest <> [].
Proof.
  rewrite ends_chars. split.
  - destruct (strip l input) as [rest|] eqn:E; [| congruence].
    apply strip_Some in E. eauto.
  - intros (rest & Hs & H). apply strip_Some in Hs. rewrite Hs. exact H.
Qed.

(** [/^text$/] *)
Lemma test_exactly (t s : string) :
  test (sequence (Bol :: chars (lst t) ++ [Eol])) s = true <-> s = t.
Proof.
  rewrite test_Bol, ends_chars_not_nil. split.
  - intros (rest & Hs & H). apply ends_Eol_not_nil in H. subst rest.
    rewrite app_nil_r in Hs. apply lst_inj. exact Hs.
  - intros ->. exists []. rewrite app_nil_r. split; [reflexivity |].
    apply ends_Eol_not_nil. reflexivity.
Qed.

(** [/^text/] *)
Lemma test_startsWith (t s : string) :
  test (sequence (Bol :: chars (lst t))) s = true <-> startsWith t s.
Proof.
  rewrite test_Bol, startsWith_lst, <- (app_nil_r (chars (lst t))), ends_chars_not_nil.
  split.
  - intros (rest & Hs & _). eauto.
  - intros (rest & Hs). exists rest. split; [exact Hs | discriminate].
Qed.

(** [/^(t1|...|tn)$/] *)
Lemma test_one_of (ts : list string) (s : string) :
  ts <> [] ->
  test (sequence [Bol; Group (disjunction (map text ts)); Eol]) s = true <->
  In s ts.
Proof.
  intros Hne. rewrite test_Bol, (ends_texts ts [Eol] 0 (lst s) Hne). split.
  - intros (t & rest & Hin & Hs & H). apply ends_Eol_not_nil in H. subst rest.
    rewrite app_nil_r in Hs. apply lst_inj in Hs. subst. exact Hin.
  - intros Hin. exists s, []. split; [exact Hin |]. rewrite app_nil_r.
    split; [reflexivity |]. apply ends_Eol_not_nil. reflexivity.
Qed.

(** [/^(t1|...|tn)-/] *)
Lemma test_startsWith_one_of (ts : list string) (s : string) :
  ts <> [] ->
  test (sequence [Bol; Group (disjunction (map text ts)); Char "-"]) s = true <->
  exists t, In t ts /\ startsWith (t ++ "-") s.
Proof.
  intros Hne. rewrite test_Bol, (ends_texts ts [Char "-"%char] 0 (lst s) Hne). split.
  - intros (t & rest & Hin & Hs & H). exists t. split; [exact Hin |].
    change [Char "-"%char] with (chars (lst "-") ++ [])%list in H.
    apply ends_chars_not_nil in H. destruct H as (rest' & -> & _).
    apply startsWith_lst. exists rest'. rewrite lst_app, Hs, <- app_assoc. reflexivity.
  - intros (t & Hin & Hs). apply startsWith_lst in Hs. destruct Hs as [rest Hs].
    rewrite lst_app, <- app_assoc in Hs. exists t, (lst "-" ++ rest)%list.
    split; [exact Hin |]. split; [exact Hs |].
    change [Char "-"%char] with (chars (lst "-") ++ [])%list.
    apply ends_chars_not_nil. exists rest. split; [reflexivity | discriminate].
Qed.

(** [/text$/] *)
Lemma test_endsWith (t s : string) :
  test (sequence (chars (lst t) ++ [Eol])) s = true <-> endsWith t s.
Proof.
  unfold test. rewrite search_true, endsWith_lst. split.
  - intros (pre & post & Hs & H). apply ends_chars_not_nil in H.
    destruct H as (rest & -> & H). apply ends_Eol_not_nil in H. subst rest.
    rewrite app_nil_r in Hs. eauto.
  - intros (pre & Hs). exists pre, (lst t). split; [exact Hs |].
    apply ends_chars_not_nil. exists []. rewrite app_nil_r.
    split; [reflexivity |]. apply ends_Eol_not_nil. reflexivity.
Qed.

(** [/text1|text2$/] *)
Lemma test_contains_or_endsWith (t1 t2 s : string) :
  test (Alt (sequence (chars (lst t1))) (sequence (chars (lst t2) ++ [Eol]))) s = true
  <-> contains t1 s \/ endsWith t2 s.
Proof.
  unfold test. rewrite search_true, contains_lst, endsWith_lst. split.
  - intros (pre & post & Hs & H). cbn [ends] in H.
    destruct (ends (sequence (chars (lst t1))) (0 + length pre) post) eqn:E1.
    + right. simpl in H. apply ends_chars_not_nil in H.
      destruct H as (rest & -> & H). apply ends_Eol_not_nil in H. subst rest.
      rewrite app_nil_r in Hs. eauto.
    + left. assert (Hne : ends (sequence (chars (lst t1))) (0 + length pre) post <> [])
        by (rewrite E1; discriminate).
      rewrite <- (app_nil_r (chars (lst t1))) in Hne.
      apply ends_chars_not_nil in Hne. destruct Hne as (rest & -> & _). eauto.
  - intros [(pre & post & Hs) | (pre & Hs)].
    + exists pre, (lst t1 ++ post)%list. split; [exact Hs |]. cbn [ends].
      intros H. apply app_eq_nil in H. destruct H as [H _]. revert H.
      rewrite <- (app_nil_r (chars (lst t1))).
      apply ends_chars_not_nil. exists post. split; [reflexivity | discriminate].
    + exists pre, (lst t2). split; [exact Hs |]. cbn [ends].
      intros H. apply app_eq_nil in H. destruct H as [_ H]. revert H.
      apply ends_chars_not_nil. exists []. rewrite app_nil_r.
      split; [reflexivity |]. apply ends_Eol_not_nil. reflexivity.
Qed.

(* ---------------------------------------------------------------- *)
(** *** Regular expressions: [new RegExp] on plain text *)

Lemma parse_plain_char source f open c l :
  special c = false ->
  parse source f open (c :: l) = parse source (push (Char c) f) open l.
Proof.
  unfold special. cbn [lst existsb]. intros H.
  repeat (apply orb_false_elim in H; destruct H as [? H]).
  cbn [parse]. unfold unsupported. cbn [lst existsb].
  repeat match goal with E : Ascii.eqb c _ = false |- _ => rewrite E; clear E end.
  reflexivity.
Qed.

Lemma parse_plain source l : forall f open rest,
  forallb (fun c => negb (special c)) l = true ->
  parse source f open (l ++ rest)
    = parse source (mkFrame (alternatives f) (rev (chars l) ++ terms f)) open rest.
Proof.
  induction l as [|c l IH]; intros f open rest H.
  - destruct f. reflexivity.
  - cbn [forallb] in H. apply andb_prop in H. destruct H as [Hc Hl].
    apply negb_true_iff in Hc.
    cbn [app]. rewrite (parse_plain_char source f open c (l ++ rest) Hc).
    rewrite (IH _ _ _ Hl). cbn [push alternatives terms chars map rev].
    rewrite <- app_assoc. reflexivity.
Qed.

Lemma plainText_app (a b : string) :
  plainText (a ++ b) = plainText a && plainText b.
Proof. unfold plainText. rewrite lst_app. apply forallb_app. Qed.

(** The pattern of the environment test. *)
Lemma RegExp_environment (environment : string) :
  plainText environment = true ->
  RegExp ("-" ++ environment ++ "-|-" ++ environment ++ "$")
    = Return (Alt (sequence (chars (lst ("-" ++ environment ++ "-"))))
                  (sequence (chars (lst ("-" ++ environment)) ++ [Eol]))).
Proof.
  intros Hp. unfold RegExp.
  set (source := "-" ++ environment ++ "-|-" ++ environment ++ "$").
  assert (Hs : lst source
               = (lst ("-" ++ environment ++ "-")
                  ++ "|"%char :: lst ("-" ++ environment) ++ ["$"%char])%list).
  { unfold source. rewrite !lst_app. cbn [lst app]. rewrite <- !app_assoc.
    reflexivity. }
  rewrite Hs. rewrite parse_plain.
  2:{ change (plainText ("-" ++ environment ++ "-") = true).
      rewrite !plainText_app, Hp. reflexivity. }
  cbn [parse Ascii.eqb Bool.eqb alternatives terms].
  rewrite parse_plain.
  2:{ change (plainText ("-" ++ environment) = true).
      rewrite !plainText_app, Hp. reflexivity. }
  cbn [parse Ascii.eqb Bool.eqb alternatives terms].
  rewrite !app_nil_r, !rev_involutive.
  unfold close, push. cbn [alternatives terms rev app disjunction].
  rewrite rev_involutive. reflexivity.
Qed.

Lemma parse_join source rest : forall a alts open l,
  forallb plainText (a :: rest) = true ->
  parse source (mkFrame alts []) open (lst (join "|" (a :: rest)) ++ l)
    = parse source (joined alts a rest) open l.
Proof.
  induction rest as [|b rest IH]; intros a alts open l H.
  - cbn [forallb] in H. rewrite andb_true_r in H.
    cbn [join joined]. rewrite parse_plain by exact H.
    cbn [alternatives terms]. rewrite app_nil_r. reflexivity.
  - cbn [forallb] in H. apply andb_prop in H. destruct H as [Ha Hr].
    change (join "|" (a :: b :: rest)) with (a ++ "|" ++ join "|" (b :: rest)).
    rewrite !lst_app, <- !app_assoc. rewrite parse_plain by exact Ha.
    cbn [lst app parse Ascii.eqb Bool.eqb alternatives terms joined].
    rewrite app_nil_r, rev_involutive. apply IH. exact Hr.
Qed.

Lemma close_joined rest : forall a alts,
  close (joined alts a rest) = disjunction (rev alts ++ map text (a :: rest)).
Proof.
  induction rest as [|b rest IH]; intros a alts.
  - unfold close. cbn [joined alternatives terms map rev].
    rewrite rev_involutive. reflexivity.
  - cbn [joined]. rewrite IH. cbn [rev map]. rewrite <- app_assoc. reflexivity.
Qed.

(** The pattern of the apps test. *)
Lemma RegExp_apps (apps : list string) :
  apps <> [] -> forallb plainText apps = true ->
  RegExp ("^(" ++ join "|" apps ++ ")-")
    = Return (sequence [Bol; Group (disjunction (map text apps)); Char "-"]).
Proof.
  intros Hne Hp. destruct apps as [|a rest]; [congruence |].
  unfold RegExp. set (source := "^(" ++ join "|" (a :: rest) ++ ")-").
  assert (Hs : lst source
               = ("^"%char :: "("%char :: lst (join "|" (a :: rest)) ++ lst ")-")%list).
  { unfold source. rewrite !lst_app. reflexivity. }
  rewrite Hs. cbn [parse Ascii.eqb Bool.eqb push alternatives terms].
  rewrite parse_join by exact Hp.
  cbn [lst parse Ascii.eqb Bool.eqb push alternatives terms unsupported existsb orb].
  rewrite close_joined. reflexivity.
Qed.

(* ---------------------------------------------------------------- *)
(** *** The interestingness filter *)

Lemma literal_CDKToolkit :
  regexp_literal "^CDKToolkit$" = sequence (Bol :: chars (lst "CDKToolkit") ++ [Eol]).
Proof. reflexivity. Qed.

Lemma literal_internal :
  regexp_literal "^internal-" = sequence (Bol :: chars (lst "internal-")).
Proof. reflexivity. Qed.

Lemma literal_balsamiq_slack :
  regexp_literal "^(balsamiq-slack)$"
    = sequence [Bol; Group (disjunction (map text ["balsamiq-slack"])); Eol].
Proof. reflexivity. Qed.

Lemma literal_excludedApps :
  regexp_literal "^(workflow-triggerer|autosavedreactionsforslack|acetaia|bottega)-"
    = sequence [Bol; Group (disjunction (map text excludedApps)); Char "-"].
Proof. reflexivity. Qed.

Lemma literal_mysql :
  regexp_literal "-mysql$" = sequence (chars (lst "-mysql") ++ [Eol]).
Proof. reflexivity. Qed.

Lemma literal_redis :
  regexp_literal "-redis$" = sequence (chars (lst "-redis") ++ [Eol]).
Proof. reflexivity. Qed.

Lemma false_iff_not (b : bool) (P : Prop) : (b = true <-> P) -> (b = false <-> ~ P).
Proof.
  intros [H1 H2]. destruct b; split; intros H; try congruence.
  - exfalso. apply H, H1. reflexivity.
  - intros HP. apply H2 in HP. discriminate.
Qed.

Lemma notIncluded_false includes choice :
  notIncluded includes choice = false <-> included includes choice.
Proof.
  unfold notIncluded, included. destruct includes as [l|].
  - rewrite negb_false_iff, existsb_exists. split.
    + intros (x & Hin & Hx). exists l. split; [reflexivity |].
      destruct choice, x; try discriminate; exact Hin.
    + intros (l' & Hl & Hin). inversion Hl. subst l'. exists choice.
      split; [exact Hin | destruct choice; reflexivity].
  - split; [discriminate | intros (l & Hl & _); discriminate].
Qed.

Lemma excluded_unless_included includes choice (t : bool) (P : Prop) :
  (t = true <-> P) ->
  (negb (notIncluded includes choice) || negb t = true
   <-> (P -> included includes choice)).
Proof.
  intros Ht. rewrite orb_true_iff, !negb_true_iff, notIncluded_false.
  destruct t; split; intros H.
  - intros _. destruct H as [H | H]; [exact H | discriminate].
  - left. apply H. apply Ht. reflexivity.
  - intros HP. apply Ht in HP. discriminate.
  - right. reflexivity.
Qed.

(** The value of the filter as one conjunction, when the environment
    and the apps are plain text. *)
Lemma isInterestingStack_value stack environment apps includes name :
  StackName stack = Some name -> name <> "" ->
  plainText environment = true ->
  (forall l, apps = Some l -> l <> [] /\ forallb plainText l = true) ->
  isInterestingStack stack environment apps includes
    = Return
        (negb (test (sequence (Bol :: chars (lst "CDKToolkit") ++ [Eol])) name)
         && negb (isSome (ParentId stack))
         && negb (test (sequence (Bol :: chars (lst "internal-"))) name)
         && negb (test (sequence [Bol; Group (disjunction (map text ["balsamiq-slack"]));
                                  Eol]) name)
         && negb (test (sequence [Bol; Group (disjunction (map text excludedApps));
                                  Char "-"]) name)
         && (negb (notIncluded includes mysql)
             || negb (test (sequence (chars (lst "-mysql") ++ [Eol])) name))
         && (negb (notIncluded includes redis)
             || negb (test (sequence (chars (lst "-redis") ++ [Eol])) name))
         && test (Alt (sequence (chars (lst ("-" ++ environment ++ "-"))))
                      (sequence (chars (lst ("-" ++ environment)) ++ [Eol]))) name
         && match apps with
            | None => true
            | Some l => test (sequence [Bol; Group (disjunction (map text l)); Char "-"])
                          name
            end).
Proof.
  intros Hname Hne Hplain Happs. unfold isInterestingStack.
  rewrite Hname, (truthy_carried _ Hne). cbn [negb template].
  rewrite literal_CDKToolkit, literal_internal, literal_balsamiq_slack,
    literal_excludedApps, literal_mysql, literal_redis.
  rewrite (RegExp_environment _ Hplain). cbn [cbind andb].
  destruct apps as [l|].
  - destruct (Happs l eq_refl) as [Hl Hp]. rewrite (RegExp_apps _ Hl Hp). cbn [cbind].
    destruct (notIncluded includes mysql), (notIncluded includes redis); cbn [negb orb];
      rewrite ?andb_true_r;
      repeat match goal with
             | |- context [if ?b then _ else _] => destruct b; cbn [andb]
             end; reflexivity.
  - destruct (notIncluded includes mysql), (notIncluded includes redis); cbn [negb orb];
      rewrite ?andb_true_r;
      repeat match goal with
             | |- context [if ?b then _ else _] => destruct b; cbn [andb]
             end; reflexivity.
Qed.

(** C5, amended. For a stack with a [StackName], an environment and
    app names that are plain text (no character that means something in
    a pattern) and a list of apps that is not empty when it is given:
    [isInterestingStack] returns, and it returns true if and only if
    the name contains [-<environment>-] or ends with [-<environment>];
    the stack is not CDKToolkit, has no [ParentId], does not start
    with [internal-], is not [balsamiq-slack] and does not start with
    [<app>-] for an excluded app; the name ends in [-mysql] or [-redis]
    only if that kind is listed in [includes]; and, when [apps] is
    given, the name starts with [<app>-] for an app of the list. *)
Theorem isInterestingStack_iff (stack : Stack) (environment : string)
  (apps : option (list string)) (includes : option (list IncludeOptionChoice))
  (name : string) :
  StackName stack = Some name -> name <> "" ->
  plainText environment = true ->
  (forall l, apps = Some l -> l <> [] /\ forallb plainText l = true) ->
  exists b,
    isInterestingStack stack environment apps includes = Return b /\
    (b = true <->
     (contains ("-" ++ environment ++ "-") name \/ endsWith ("-" ++ environment) name) /\
     name <> "CDKToolkit" /\
     ParentId stack = None /\
     ~ startsWith "internal-" name /\
     name <> "balsamiq-slack" /\
     (forall app, In app excludedApps -> ~ startsWith (app ++ "-") name) /\
     (endsWith "-mysql" name -> included includes mysql) /\
     (endsWith "-redis" name -> included includes redis) /\
     (forall l, apps = Some l -> exists app, In app l /\ startsWith (app ++ "-") name)).
Proof.
  intros Hname Hne Hplain Happs.
  rewrite (isInterestingStack_value _ _ _ _ _ Hname Hne Hplain Happs).
  eexists. split; [reflexivity |].
  rewrite !andb_true_iff, !negb_true_iff.
  rewrite (false_iff_not _ _ (test_exactly "CDKToolkit" name)).
  rewrite (false_iff_not _ _ (test_startsWith "internal-" name)).
  rewrite (false_iff_not _ _
             (test_one_of ["balsamiq-slack"] name ltac:(discriminate))).
  rewrite (false_iff_not _ _
             (test_startsWith_one_of excludedApps name ltac:(discriminate))).
  rewrite (excluded_unless_included includes mysql _ _ (test_endsWith "-mysql" name)).
  rewrite (excluded_unless_included includes redis _ _ (test_endsWith "-redis" name)).
  rewrite test_contains_or_endsWith.
  assert (Hparent : isSome (ParentId stack) = false <-> ParentId stack = None).
  { destruct (ParentId stack); simpl; split; congruence. }
  rewrite Hparent.
  assert (Hslack : ~ In name ["balsamiq-slack"] <-> name <> "balsamiq-slack").
  { simpl. split; intros H; [intros ->; apply H; left; reflexivity |].
    intros [E | []]. apply H. symmetry. exact E. }
  rewrite Hslack.
  assert (Hexcluded :
    ~ (exists t, In t excludedApps /\ startsWith (t ++ "-") name) <->
    (forall app, In app excludedApps -> ~ startsWith (app ++ "-") name)).
  { split; [intros H app Hin Hs; apply H; eauto |].
    intros H (t & Hin & Hs). exact (H t Hin Hs). }
  rewrite Hexcluded.
  assert (Hofapps :
    match apps with
    | Some l => test (sequence [Bol; Group (disjunction (map text l)); Char "-"]) name
    | None => true
    end = true <->
    (forall l, apps = Some l -> exists app, In app l /\ startsWith (app ++ "-") name)).
  { destruct apps as [l|].
    - destruct (Happs l eq_refl) as [Hl _]. rewrite (test_startsWith_one_of l name Hl).
      split; [intros H l' E; inversion E; subst; exact H | intros H; apply H; reflexivity].
    - split; [intros _ l E; discriminate | reflexivity]. }
  rewrite Hofapps. tauto.
Qed.

(* ---------------------------------------------------------------- *)
(** *** [processCloudFormation] as a whole *)

Lemma processCloudFormation_returns fuel cache regionConfig environment apps includes t :
  processCloudFormation readFile send fuel cache regionConfig environment apps includes
    = (t, Return tt) ->
  exists stacks exportsWithImportingStacks tf te,
    fetches readFile send fuel cache regionConfig stacks exportsWithImportingStacks /\
    Forall (fetching cache) tf /\
    emitGraph stacks exportsWithImportingStacks regionConfig environment apps includes
      = (te, Return tt) /\
    t = (tf ++ te)%list.
Proof.
  unfold processCloudFormation. intros H.
  apply bind_returns in H. destruct H as (t1 & stacks & t' & H1 & H & ->).
  apply bind_returns in H. destruct H as (t2 & exports & t'' & H2 & H & ->).
  apply bind_returns in H. destruct H as (t3 & ewis & t4 & H3 & H4 & ->).
  exists stacks, ewis, (t1 ++ t2 ++ t3)%list, t4. split; [| split; [| split]].
  - exists t1, t2, exports, t3. auto.
  - assert (Hs : forall cfClient c, fetching cache (Send cfClient c)) by (intros; exact I).
    assert (Hc : forall key data, fetching cache (WriteFile (joinPath cache key) data))
      by (intros key data; exists key; reflexivity).
    pose proof (getStacks_trace (fetching cache) cache Hs Hc fuel
                  (region regionConfig) (region regionConfig)) as F1.
    pose proof (cacheOrWork_trace (fetching cache) cache Hc
                  (template (region regionConfig) ++ "_exports.cache.json")
                  (listExports send fuel (region regionConfig))
                  (consumeAllTokens_loop_trace (fetching cache) Hs fuel
                     (region regionConfig) ListExportsCommand Exports None [])) as F2.
    pose proof (getExportsWithImportingStacks_trace (fetching cache) cache Hs Hc fuel
                  exports (region regionConfig) (region regionConfig)) as F3.
    rewrite H1 in F1. rewrite H2 in F2. rewrite H3 in F3.
    apply Forall_app. split; [exact F1 |]. apply Forall_app. split; assumption.
  - exact H4.
  - rewrite <- !app_assoc. reflexivity.
Qed.



(** C4, amended. In a run of [processCloudFormation] that returns, for
    every stack of the map of fetched stacks that passes the filter an
    empty file named after its stack-level node name is written into
    the stacks directory. With several apps (none named, or more than
    one) an empty file named after its app-level node name is written
    into the apps directory; with a single app named nothing is written
    into the apps directory. *)
Theorem processCloudFormation_placeholders (fuel : nat)
  (regionConfig : RegionConfiguration) (environment : string)
  (apps : option (list string)) (includes : option (list IncludeOptionChoice))
  (t : list event) :
  processCloudFormation readFile send fuel CACHE_DIR regionConfig environment apps
    includes = (t, Return tt) ->
  exists stacks exportsWithImportingStacks,
    fetches readFile send fuel CACHE_DIR regionConfig stacks exportsWithImportingStacks /\
    (forall stack,
       In stack (Map_values stacks) ->
       isInterestingStack stack environment apps includes = Return true ->
       (exists node,
          getNodeNameForStack stack regionConfig = Return node /\
          In (WriteFile (unitFile STACK_OUTPUT_DIR node) "") t) /\
       (multipleApps apps = true ->
        exists node,
          getNodeNameForApp stack regionConfig = Return node /\
          In (WriteFile (unitFile APP_OUTPUT_DIR node) "") t)) /\
    (multipleApps apps = false ->
     forall file data, ~ In (WriteFile (joinPath APP_OUTPUT_DIR file) data) t).
Proof.
  intros H. apply processCloudFormation_returns in H.
  destruct H as (stacks & ewis & tf & te & Hf & Htf & He & ->).
  exists stacks, ewis. split; [exact Hf |].
  destruct (placeholders_written _ _ _ _ _ _ _ He) as (H1 & H2).
  split.
  - intros stack Hin Hint. destruct (H1 stack Hin Hint) as [(node & Hn & Hw) Ha].
    split.
    + exists node. split; [exact Hn |]. apply in_or_app. right. exact Hw.
    + intros Hm. destruct (Ha Hm) as (anode & Han & Haw).
      exists anode. split; [exact Han |]. apply in_or_app. right. exact Haw.
  - intros Hsingle file data Hin. apply in_app_or in Hin. destruct Hin as [Hin | Hin].
    + rewrite Forall_forall in Htf. specialize (Htf _ Hin). simpl in Htf.
      destruct Htf as [key Hk]. discriminate Hk.
    + exact (H2 Hsingle file data Hin).
Qed.

End Properties.

(* ================================================================== *)
(** * The properties on the account *)

(** What a run over eu-west-1 fetches, whatever the apps: the map of the
    four stacks and the two exports with their importing stacks. *)
Lemma account_fetches stacks exportsWithImportingStacks :
  fetches noFile account_send 5 CACHE_DIR eu_west_1 stacks exportsWithImportingStacks ->
  stacks = accountStacks /\ exportsWithImportingStacks = accountExports.
Proof.
  intros (t1 & t2 & exports & t3 & H1 & H2 & H3).
  assert (O1 : outcome (getStacks noFile account_send 5 CACHE_DIR (region eu_west_1)
                          (region eu_west_1)) = Return accountStacks) by run.
  rewrite H1 in O1. simpl in O1. inversion O1. subst stacks.
  assert (O2 : outcome (cacheOrWork noFile CACHE_DIR
                          (template (region eu_west_1) ++ "_exports.cache.json")
                          (listExports account_send 5 (region eu_west_1)))
               = Return [config_url; rtc_queue]) by run.
  rewrite H2 in O2. simpl in O2. inversion O2. subst exports.
  assert (O3 : outcome (getExportsWithImportingStacks noFile account_send 5
                          [config_url; rtc_queue] CACHE_DIR (region eu_west_1)
                          (region eu_west_1)) = Return accountExports) by run.
  rewrite H3 in O3. simpl in O3. inversion O3. split; reflexivity.
Qed.


(** C4, amended, on the account: the placeholders of the app stack of
    rtc in a run over all apps, and none in the apps directory in a run
    over the app bas. *)
Lemma processCloudFormation_placeholders_witness :
  In (WriteFile (unitFile STACK_OUTPUT_DIR "rtc-staging-app") "")
    (trace (processCloudFormation noFile account_send 5 CACHE_DIR eu_west_1
              "staging" None None)) /\
  In (WriteFile (unitFile APP_OUTPUT_DIR "rtc-staging") "")
    (trace (processCloudFormation noFile account_send 5 CACHE_DIR eu_west_1
              "staging" None None)) /\
  (forall file data,
     ~ In (WriteFile (joinPath APP_OUTPUT_DIR file) data)
         (trace (processCloudFormation noFile account_send 5 CACHE_DIR eu_west_1
                   "staging" (Some ["bas"]) None))).
Proof.
  assert (Hall : processCloudFormation noFile account_send 5 CACHE_DIR eu_west_1
                   "staging" None None
                 = (trace (processCloudFormation noFile account_send 5 CACHE_DIR
                             eu_west_1 "staging" None None), Return tt)) by run.
  assert (Hbas : processCloudFormation noFile account_send 5 CACHE_DIR eu_west_1
                   "staging" (Some ["bas"]) None
                 = (trace (processCloudFormation noFile account_send 5 CACHE_DIR
                             eu_west_1 "staging" (Some ["bas"]) None), Return tt)) by run.
  destruct (processCloudFormation_placeholders noFile account_send 5
              eu_west_1 "staging" None None _ Hall)
    as (stacks & exportsWithImportingStacks & Hf & Hw & _).
  destruct (account_fetches _ _ Hf) as [-> _].
  destruct (processCloudFormation_placeholders noFile account_send 5
              eu_west_1 "staging" (Some ["bas"]) None _ Hbas)
    as (_ & _ & _ & _ & Hnone).
  destruct (Hw rtc_app) as [(node & Hn & Hs) Ha].
  - right. right. right. right. left. reflexivity.
  - run.
  - destruct (Ha eq_refl) as (anode & Han & Has).
    assert (En : getNodeNameForStack rtc_app eu_west_1 = Return "rtc-staging-app") by run.
    assert (Ean : getNodeNameForApp rtc_app eu_west_1 = Return "rtc-staging") by run.
    rewrite En in Hn. inversion Hn. subst node.
    rewrite Ean in Han. inversion Han. subst anode.
    split; [exact Hs |]. split; [exact Has |]. exact (Hnone eq_refl).
Defined.

(** C4, as stated, fails: with the single app bas named, the config
    stack of bas passes the filter and is in the map of fetched stacks,
    and the run writes the placeholders of the stacks of bas into the
    stacks directory (once per key of the map) and nothing into the apps
    directory. *)
Lemma single_app_no_apps_placeholder :
  isInterestingStack bas_config "staging" (Some ["bas"]) None = Return true /\
  outcome (getStacks noFile account_send 5 CACHE_DIR (Some "eu-west-1") (Some "eu-west-1"))
    = Return accountStacks /\
  In bas_config (Map_values accountStacks) /\
  processCloudFormation noFile account_send 5 CACHE_DIR eu_west_1 "staging"
    (Some ["bas"]) None
    = ((accountFetch
        ++ [WriteFile (unitFile STACK_OUTPUT_DIR "bas-staging-config") "";
            WriteFile (unitFile STACK_OUTPUT_DIR "bas-staging-config") "";
            WriteFile (unitFile STACK_OUTPUT_DIR "bas-staging-app") "";
            WriteFile (unitFile STACK_OUTPUT_DIR "bas-staging-app") "";
            AppendFile (unitFile STACK_OUTPUT_DIR "bas-staging-app")
              (requireLine "bas-staging-config" (Some "bas-staging-config:url"))])%list,
       Return tt).
Proof.
  split; [run |]. split; [run |]. split; [left; reflexivity | run].
Qed.

(** C2 on the account: no coarse-grained output and the stacks graph in
    a run over the app bas; the apps graph in a run over all apps. *)
Lemma apps_outputs_witness :
  Forall (fun ev => ~ appOutput ev)
    (trace (main noFile account_send 5 (Some "eu-west-1") "staging" (Some ["bas"]) None)) /\
  In (MadgeImage STACK_OUTPUT_DIR "graph-stacks.png")
    (trace (main noFile account_send 5 (Some "eu-west-1") "staging" (Some ["bas"]) None)) /\
  In (MadgeImage APP_OUTPUT_DIR "graph-apps.png")
    (trace (main noFile account_send 5 (Some "eu-west-1") "staging" None None)).
Proof.
  assert (Hbas : outcome (main noFile account_send 5 (Some "eu-west-1") "staging"
                            (Some ["bas"]) None) = Return tt) by run.
  assert (Hall : outcome (main noFile account_send 5 (Some "eu-west-1") "staging"
                            None None) = Return tt) by run.
  pose proof (apps_outputs_only_for_several_apps noFile account_send 5
                (Some "eu-west-1") "staging" (Some ["bas"]) None) as (_ & H2 & H3).
  pose proof (apps_outputs_only_for_several_apps noFile account_send 5
                (Some "eu-west-1") "staging" None None) as (_ & _ & G3).
  split; [| split].
  - exact (proj2 (Forall_forall _ _) (fun ev Hin => H2 "bas" ev eq_refl Hin)).
  - exact (proj1 (H3 Hbas)).
  - exact (proj2 (G3 Hall) eq_refl).
Defined.

(** C2, as stated, fails: what decides is the number of app names
    given, not the number of apps involved. With the app bas
    named twice, the stacks of one app pass the filter, and the run
    writes the placeholder of that one app into the apps directory and
    renders the graph of the apps, a graph of one node. *)
Lemma apps_outputs_for_one_app_named_twice :
  In (WriteFile (unitFile APP_OUTPUT_DIR "bas-staging") "")
    (trace (main noFile account_send 5 (Some "eu-west-1") "staging"
              (Some ["bas"; "bas"]) None)) /\
  In (MadgeImage APP_OUTPUT_DIR "graph-apps.png")
    (trace (main noFile account_send 5 (Some "eu-west-1") "staging"
              (Some ["bas"; "bas"]) None)) /\
  (forall file data,
     In (WriteFile (joinPath APP_OUTPUT_DIR file) data)
       (trace (main noFile account_send 5 (Some "eu-west-1") "staging"
                 (Some ["bas"; "bas"]) None)) ->
     file = "bas-staging.js") /\
  (forall file data,
     ~ In (AppendFile (joinPath APP_OUTPUT_DIR file) data)
         (trace (main noFile account_send 5 (Some "eu-west-1") "staging"
                   (Some ["bas"; "bas"]) None))).
Proof.
  split; [| split; [| split]].
  - vm_compute. tauto.
  - vm_compute. tauto.
  - intros file data H. vm_compute in H.
    repeat (destruct H as [H | H];
            [first [discriminate H | injection H as <- _; reflexivity] |]).
    destruct H.
  - intros file data H. vm_compute in H.
    repeat (destruct H as [H | H]; [discriminate H |]).
    destruct H.
Qed.


(** C3, amended, on the account: a hit on the cached exports, a miss
    that lists the exports and writes them, and a miss whose work
    throws. *)
Lemma cacheOrWork_read_through_witness :
  cacheOrWork exportsCached CACHE_DIR "eu-west-1_exports.cache.json"
    (listExports account_send 5 (Some "eu-west-1")) = ([], Return []) /\
  cacheOrWork noFile CACHE_DIR "eu-west-1_exports.cache.json"
    (listExports account_send 5 (Some "eu-west-1"))
    = ([Send (Some "eu-west-1") (ListExportsCommand None);
        WriteFile (joinPath CACHE_DIR "eu-west-1_exports.cache.json")
          (JSON_stringify [config_url; rtc_queue])],
       Return [config_url; rtc_queue]) /\
  cacheOrWork noFile CACHE_DIR "us-east-1_cfListImports-x"
    (listImports account_send 5 (Some "us-east-1") "x")
    = ([Send (Some "us-east-1") (ListImportsCommand "x" None)],
       Throw (CloudFormationServiceException "ValidationError" "Invalid NextToken")).
Proof.
  split; [| split].
  - apply (proj1 (cacheOrWork_read_through exportsCached CACHE_DIR
                    "eu-west-1_exports.cache.json"
                    (listExports account_send 5 (Some "eu-west-1"))) "[]" []).
    + run.
    + discriminate.
    + run.
  - apply (proj1 (proj2 (cacheOrWork_read_through noFile CACHE_DIR
                           "eu-west-1_exports.cache.json"
                           (listExports account_send 5 (Some "eu-west-1"))))
             [Send (Some "eu-west-1") (ListExportsCommand None)]
             [config_url; rtc_queue]).
    + left. run.
    + run.
  - apply (proj2 (proj2 (cacheOrWork_read_through noFile CACHE_DIR
                           "us-east-1_cfListImports-x"
                           (listImports account_send 5 (Some "us-east-1") "x")))).
    + left. run.
    + run.
Defined.

(** C3, as stated, fails: the cache file of the key exists, and the work
    function is invoked all the same (the API is called and the file is
    written again), because its contents are empty. *)
Lemma cacheOrWork_empty_file_works :
  emptyFile (joinPath CACHE_DIR "eu-west-1_exports.cache.json") = inr "" /\
  cacheOrWork emptyFile CACHE_DIR "eu-west-1_exports.cache.json"
    (listExports account_send 5 (Some "eu-west-1"))
    = ([Send (Some "eu-west-1") (ListExportsCommand None);
        WriteFile (joinPath CACHE_DIR "eu-west-1_exports.cache.json")
          (JSON_stringify [config_url; rtc_queue])],
       Return [config_url; rtc_queue]).
Proof. split; run. Qed.

(** C5, amended, for the config stack of bas, the environment staging
    and the apps bas and rtc. *)
Lemma isInterestingStack_iff_witness :
  exists b,
    isInterestingStack bas_config "staging" (Some ["bas"; "rtc"]) None = Return b /\
    (b = true <->
     (contains ("-" ++ "staging" ++ "-") "bas-staging-config" \/
      endsWith ("-" ++ "staging") "bas-staging-config") /\
     "bas-staging-config" <> "CDKToolkit" /\
     ParentId bas_config = None /\
     ~ startsWith "internal-" "bas-staging-config" /\
     "bas-staging-config" <> "balsamiq-slack" /\
     (forall app, In app excludedApps -> ~ startsWith (app ++ "-") "bas-staging-config") /\
     (endsWith "-mysql" "bas-staging-config" -> included None mysql) /\
     (endsWith "-redis" "bas-staging-config" -> included None redis) /\
     (forall l, Some ["bas"; "rtc"] = Some l ->
        exists app, In app l /\ startsWith (app ++ "-") "bas-staging-config")).
Proof.
  refine (isInterestingStack_iff bas_config "staging" (Some ["bas"; "rtc"]) None
            "bas-staging-config" eq_refl _ eq_refl _).
  - discriminate.
  - intros l E. inversion E. split; [discriminate | reflexivity].
Defined.

(** C5, as stated, fails: the environment goes into the pattern as it
    is, so with the environment [staging|production] the filter passes a
    stack of staging, whose name neither contains
    [-staging|production-] nor ends with [-staging|production]. *)
Lemma isInterestingStack_environment_is_a_pattern :
  isInterestingStack bas_config "staging|production" None None = Return true /\
  ~ (contains ("-" ++ "staging|production" ++ "-") "bas-staging-config" \/
     endsWith ("-" ++ "staging|production") "bas-staging-config").
Proof.
  split; [run |].
  intros H. apply test_contains_or_endsWith in H. vm_compute in H. discriminate H.
Qed.

(** The two pages of the stacks of eu-west-1. *)
Lemma account_pages :
  pages account_send (Some "eu-west-1") DescribeStacksCommand None
    [stacksPage1; stacksPage2].
Proof.
  apply pages_more; [reflexivity | reflexivity |].
  apply pages_last; reflexivity.
Defined.

(** C6 on the account: the stacks of eu-west-1 come in two pages, the
    exports of us-east-1 in one page without a result list. *)
Lemma consumeAllTokens_concatenates_pages_witness :
  describeStacks account_send 5 (Some "eu-west-1")
    = ([Send (Some "eu-west-1") (DescribeStacksCommand None);
        Send (Some "eu-west-1") (DescribeStacksCommand (Some "2"))],
       Return [bas_config; bas_app; rtc_app; bas_mysql]) /\
  consumeAllTokens account_send 2 (Some "us-east-1") ListExportsCommand Exports
    = ([Send (Some "us-east-1") (ListExportsCommand None)], Return []) /\
  (exists rs, pages account_send (Some "eu-west-1") DescribeStacksCommand None rs /\
              length rs <= 5).
Proof.
  pose proof (consumeAllTokens_concatenates_pages account_send) as (H1 & H2 & H3 & _).
  split; [| split].
  - exact (H3 (Some "eu-west-1") [stacksPage1; stacksPage2] 5 account_pages
             ltac:(simpl; lia)).
  - refine (H1 Export (Some "us-east-1") ListExportsCommand Exports [page] 2 _ _).
    + apply pages_last; reflexivity.
    + simpl; lia.
  - refine (H2 Stack (Some "eu-west-1") DescribeStacksCommand Stacks 5 _
              fetchedStacks _).
    run.
Defined.





(** C10, amended, on the account: the app stack of rtc under its two
    keys. *)
Lemma getStacks_keys_witness :
  exists m,
    getStacks noFile account_send 5 CACHE_DIR (Some "eu-west-1") (Some "eu-west-1")
      = ([Send (Some "eu-west-1") (DescribeStacksCommand None);
          Send (Some "eu-west-1") (DescribeStacksCommand (Some "2"));
          WriteFile (joinPath CACHE_DIR "eu-west-1_stacks.cache.json")
            (JSON_stringify fetchedStacks)],
         Return m) /\
    (forall key, Map_get key m = find (has_key key) (rev fetchedStacks)) /\
    Map_get (template (StackId rtc_app)) m = Some rtc_app /\
    Map_get (template (StackName rtc_app)) m = Some rtc_app.
Proof.
  assert (Hfetch :
    cacheOrWork noFile CACHE_DIR (template (Some "eu-west-1") ++ "_stacks.cache.json")
      (describeStacks account_send 5 (Some "eu-west-1"))
    = ([Send (Some "eu-west-1") (DescribeStacksCommand None);
        Send (Some "eu-west-1") (DescribeStacksCommand (Some "2"));
        WriteFile (joinPath CACHE_DIR "eu-west-1_stacks.cache.json")
          (JSON_stringify fetchedStacks)],
       Return fetchedStacks)) by run.
  pose proof (getStacks_keys noFile account_send 5 CACHE_DIR (Some "eu-west-1")
                (Some "eu-west-1") _ fetchedStacks Hfetch) as [_ H].
  destruct H as (m & Hm & Hget & Hown).
  - intros stack [<- | [<- | [<- | [<- | []]]]]; split; reflexivity.
  - exists m. split; [exact Hm |]. split; [exact Hget |].
    apply Hown.
    + right. right. left. reflexivity.
    + intros other [<- | [<- | [<- | [<- | []]]]] [H | H];
        try reflexivity; vm_compute in H; discriminate H.
Defined.

(** C10, as stated, fails: of two fetched stacks with the same
    [StackName] the first is found under its [StackId] only; its
    [StackName] gives the other record. *)
Lemma getStacks_same_StackName :
  outcome (getStacks (JSON_Stacks := twice_Stacks) noFile twice_send 5 CACHE_DIR
             (Some "eu-west-1") (Some "eu-west-1"))
    = Return [(template (StackId bas_config), bas_config);
              (template (StackName bas_config), bas_config_again);
              (template (StackId bas_config_again), bas_config_again)] /\
  Map_get (template (StackName bas_config))
    [(template (StackId bas_config), bas_config);
     (template (StackName bas_config), bas_config_again);
     (template (StackId bas_config_again), bas_config_again)]
    = Some bas_config_again /\
  bas_config_again <> bas_config.
Proof. split; [run |]. split; [run | discriminate]. Qed.

(* ================================================================== *)
(** * Further properties *)

Section Further.

Variable readFile : path -> error + string.
Variable send : option string -> command -> error + response.

Context {JSON_Stacks : JSON (list Stack)}.
Context {JSON_Exports : JSON (list Export)}.
Context {JSON_Imports : JSON (list string)}.

(* ------------------------------------------------------------------ *)
(** ** The map of stacks, again *)

Lemma Map_set_keys {V} (key : string) (value : V) (m : Map V) :
  map fst (Map_set key value m)
    = if existsb (String.eqb key) (map fst m) then map fst m
      else (map fst m ++ [key])%list.
Proof.
  induction m as [|[k v] m IH]; simpl; [reflexivity |].
  destruct (String.eqb_spec k key) as [-> | Hne]; simpl.
  - rewrite String.eqb_refl. reflexivity.
  - rewrite IH. destruct (String.eqb_spec key k) as [-> | _]; [congruence |].
    simpl. destruct (existsb (String.eqb key) (map fst m)); reflexivity.
Qed.

Lemma existsb_eqb_In (key : string) (keys : list string) :
  existsb (String.eqb key) keys = true <-> In key keys.
Proof.
  rewrite existsb_exists. split.
  - intros (k & Hin & Hk). apply String.eqb_eq in Hk. subst. exact Hin.
  - intros Hin. exists key. split; [exact Hin | apply String.eqb_refl].
Qed.

Lemma Map_set_fresh {V} (key : string) (value : V) (m : Map V) :
  ~ In key (map fst m) -> Map_set key value m = (m ++ [(key, value)])%list.
Proof.
  induction m as [|[k v] m IH]; simpl; intros Hn; [reflexivity |].
  destruct (String.eqb_spec k key) as [-> | Hne]; [exfalso; auto |].
  rewrite IH by auto. reflexivity.
Qed.

Lemma Map_set_NoDup {V} (key : string) (value : V) (m : Map V) :
  NoDup (map fst m) -> NoDup (map fst (Map_set key value m)).
Proof.
  intros Hnd. rewrite Map_set_keys.
  destruct (existsb (String.eqb key) (map fst m)) eqn:E; [exact Hnd |].
  apply NoDup_app; [exact Hnd | repeat constructor; intros [] |].
  intros k Hk [<- | []].
  apply existsb_eqb_In in Hk. congruence.
Qed.

Lemma Map_set_In {V} (key k : string) (value v : V) (m : Map V) :
  In (k, v) (Map_set key value m) -> (k = key /\ v = value) \/ In (k, v) m.
Proof.
  induction m as [|[k' v'] m IH]; simpl.
  - intros [H | []]. inversion H. auto.
  - destruct (String.eqb_spec k' key) as [-> | Hne]; simpl.
    + intros [H | H]; [inversion H; auto | auto].
    + intros [H | H]; [auto |]. destruct (IH H); auto.
Qed.

Lemma Map_set_length {V} (key : string) (value : V) (m : Map V) :
  length (Map_set key value m) <= S (length m).
Proof.
  induction m as [|[k v] m IH]; simpl; [lia |].
  destruct (String.eqb k key); simpl; lia.
Qed.

Lemma Map_get_In {V} (key : string) (value : V) (m : Map V) :
  Map_get key m = Some value -> In (key, value) m.
Proof.
  induction m as [|[k v] m IH]; simpl; [discriminate |].
  destruct (String.eqb_spec k key) as [-> | Hne].
  - intros H. inversion H. left. reflexivity.
  - intros H. right. apply IH. exact H.
Qed.

Lemma Map_In_get {V} (key : string) (value : V) (m : Map V) :
  NoDup (map fst m) -> In (key, value) m -> Map_get key m = Some value.
Proof.
  induction m as [|[k v] m IH]; simpl; intros Hnd Hin; [destruct Hin |].
  inversion Hnd as [|? ? Hk Hnd']. subst.
  destruct Hin as [H | H].
  - inversion H. subst. rewrite String.eqb_refl. reflexivity.
  - destruct (String.eqb_spec k key) as [-> | Hne].
    + exfalso. apply Hk. apply in_map_iff. exists (key, value). auto.
    + apply IH; assumption.
Qed.

(** What every map that the [reduce] of [getStacks] returns keeps: no
    key twice, under every key a fetched stack that has the key as its
    [StackId] or [StackName], and at most two entries for each stack. *)
Lemma getStacks_reduce_invariant (fetched : list Stack) (m : Map Stack) :
  getStacks_reduce fetched = Return m ->
  NoDup (map fst m) /\
  (forall key stack, In (key, stack) m ->
     In stack fetched /\ has_key key stack = true) /\
  length m <= 2 * length fetched.
Proof.
  revert m. induction fetched as [|stack fetched IH] using rev_ind; intros m H.
  - inversion H. simpl. split; [constructor |]. split; [intros ? ? [] | lia].
  - rewrite getStacks_reduce_snoc in H. apply getStacks_step_Return in H.
    destruct H as (m' & Hm' & Hid & ->). destruct (IH m' Hm') as (Hnd & Hin & Hlen).
    split; [| split].
    + apply Map_set_NoDup, Map_set_NoDup, Hnd.
    + intros key s H. destruct (has_key_own stack Hid) as [Hi Hn].
      apply Map_set_In in H. destruct H as [[-> ->] | H].
      { split; [apply in_or_app; right; left; reflexivity | exact Hn]. }
      apply Map_set_In in H. destruct H as [[-> ->] | H].
      { split; [apply in_or_app; right; left; reflexivity | exact Hi]. }
      destruct (Hin key s H) as [Hf Hk].
      split; [apply in_or_app; left; exact Hf | exact Hk].
    + rewrite length_app. simpl.
      pose proof (Map_set_length (template (StackName stack)) stack
                    (Map_set (template (StackId stack)) stack m')).
      pose proof (Map_set_length (template (StackId stack)) stack m'). lia.
Qed.

Lemma keysOf_app (a b : list Stack) : keysOf (a ++ b) = (keysOf a ++ keysOf b)%list.
Proof. apply flat_map_app. Qed.

Lemma entriesOf_keys (fetched : list Stack) : map fst (entriesOf fetched) = keysOf fetched.
Proof.
  induction fetched as [|s fetched IH]; simpl; [reflexivity |]. rewrite IH. reflexivity.
Qed.

Lemma NoDup_app_inv {A} (a b : list A) :
  NoDup (a ++ b) -> NoDup a /\ NoDup b /\ (forall x, In x a -> ~ In x b).
Proof.
  induction a as [|x a IH]; simpl; intros H.
  - split; [constructor |]. split; [exact H | intros ? []].
  - inversion H as [|? ? Hx Hnd]. subst. destruct (IH Hnd) as (Ha & Hb & Hd).
    split; [| split; [exact Hb |]].
    + constructor; [| exact Ha]. intros Hin. apply Hx. apply in_or_app. auto.
    + intros y [<- | Hy]; [| auto]. intros Hin. apply Hx. apply in_or_app. auto.
Qed.

(** Keys that are all different: the map is the stacks in the order of
    the listing, each of them twice. *)
Lemma getStacks_reduce_distinct (fetched : list Stack) :
  forallb identified fetched = true -> NoDup (keysOf fetched) ->
  getStacks_reduce fetched = Return (entriesOf fetched).
Proof.
  induction fetched as [|stack fetched IH] using rev_ind; intros Hid Hnd.
  - reflexivity.
  - rewrite forallb_app in Hid. apply andb_prop in Hid. destruct Hid as [Hid Hs].
    simpl in Hs. rewrite andb_true_r in Hs.
    rewrite keysOf_app in Hnd. apply NoDup_app_inv in Hnd.
    destruct Hnd as (Hnd' & Hown & Hdisjoint). simpl in Hown, Hdisjoint.
    rewrite getStacks_reduce_snoc, (IH Hid Hnd').
    unfold getStacks_step. cbn [cbind]. unfold identified in Hs.
    apply andb_prop in Hs. destruct Hs as [Hi Hn]. rewrite Hi, Hn. cbn [negb orb].
    assert (Hfresh1 : ~ In (template (StackId stack)) (map fst (entriesOf fetched))).
    { rewrite entriesOf_keys. intros Hin. apply (Hdisjoint _ Hin). left. reflexivity. }
    rewrite (Map_set_fresh _ _ _ Hfresh1).
    assert (Hfresh2 : ~ In (template (StackName stack))
                        (map fst (entriesOf fetched
                                  ++ [(template (StackId stack), stack)]))).
    { rewrite map_app, entriesOf_keys. simpl. intros Hin.
      apply in_app_or in Hin. destruct Hin as [Hin | [Heq | []]].
      - apply (Hdisjoint _ Hin). right. left. reflexivity.
      - inversion Hown as [|? ? Hx _]. apply Hx. left. symmetry. exact Heq. }
    rewrite (Map_set_fresh _ _ _ Hfresh2).
    unfold entriesOf. rewrite flat_map_app. simpl. rewrite <- app_assoc. reflexivity.
Qed.

Lemma Map_values_entriesOf (fetched : list Stack) :
  Map_values (entriesOf fetched) = flat_map (fun stack => [stack; stack]) fetched.
Proof.
  unfold Map_values. induction fetched as [|s fetched IH]; simpl; [reflexivity |].
  rewrite IH. reflexivity.
Qed.

(** X1. When the stacks fetched all have a [StackId] and a [StackName]
    and no two of these keys are equal, the map of [getStacks] lists the
    stacks in the order fetched, each under its [StackId] and then under
    its [StackName]: its values are every stack twice. *)
Theorem getStacks_lists_each_stack_twice (fuel : nat) (cache : FilesystemCache)
  (cfClient : CloudFormationClient) (region : option string)
  (t : list event) (fetched : list Stack) :
  cacheOrWork readFile cache (template region ++ "_stacks.cache.json")
    (describeStacks send fuel cfClient) = (t, Return fetched) ->
  (forall stack, In stack fetched ->
     truthy (StackId stack) = true /\ truthy (StackName stack) = true) ->
  NoDup (keysOf fetched) ->
  getStacks readFile send fuel cache cfClient region = (t, Return (entriesOf fetched)) /\
  Map_values (entriesOf fetched) = flat_map (fun stack => [stack; stack]) fetched.
Proof.
  intros Hfetch Hall Hnd. split; [| apply Map_values_entriesOf].
  unfold getStacks. rewrite Hfetch, bind_Return.
  rewrite (getStacks_reduce_distinct fetched
             (proj2 (forallb_identified fetched) Hall) Hnd).
  simpl. rewrite app_nil_r. reflexivity.
Qed.

(** X2. Every map that [getStacks] returns has no key twice; a lookup
    finds only stacks that were fetched and have the key as their
    [StackId] or [StackName]; all its values have both properties; and
    it has at most two entries for each stack fetched. *)
Theorem getStacks_map_invariant (fuel : nat) (cache : FilesystemCache)
  (cfClient : CloudFormationClient) (region : option string)
  (t : list event) (m : Map Stack) :
  getStacks readFile send fuel cache cfClient region = (t, Return m) ->
  exists fetched,
    cacheOrWork readFile cache (template region ++ "_stacks.cache.json")
      (describeStacks send fuel cfClient) = (t, Return fetched) /\
    NoDup (map fst m) /\
    (forall key stack, Map_get key m = Some stack ->
       In stack fetched /\ has_key key stack = true) /\
    (forall stack, In stack (Map_values m) ->
       In stack fetched /\
       truthy (StackId stack) = true /\ truthy (StackName stack) = true) /\
    length m <= 2 * length fetched.
Proof.
  unfold getStacks. intros H.
  apply bind_returns in H. destruct H as (t1 & fetched & t2 & H1 & H2 & ->).
  apply lift_returns in H2. destruct H2 as [H2 ->]. rewrite app_nil_r.
  exists fetched. split; [exact H1 |].
  destruct (getStacks_reduce_invariant fetched m H2) as (Hnd & Hin & Hlen).
  split; [exact Hnd |]. split; [| split; [| exact Hlen]].
  - intros key stack Hget. apply Hin. apply Map_get_In. exact Hget.
  - intros stack Hv. unfold Map_values in Hv. apply in_map_iff in Hv.
    destruct Hv as ([key s] & Hs & Hentry). simpl in Hs. subst s.
    destruct (Hin key stack Hentry) as [Hf _]. split; [exact Hf |].
    destruct (forallb identified fetched) eqn:E.
    + exact (proj1 (forallb_identified fetched) E stack Hf).
    + rewrite (getStacks_reduce_Throw fetched E) in H2. discriminate H2.
Qed.

(* ------------------------------------------------------------------ *)
(** ** Pagination that does not come to an end *)

Lemma consumeAllTokens_loop_failsAfter {T} cfClient Command
  (resultProp : response -> option (list T)) token rs e :
  failsAfter send cfClient Command token rs e ->
  forall fuel result, length rs < fuel ->
  consumeAllTokens_loop send fuel cfClient Command resultProp token result
    = (map (fun tok => Send cfClient (Command tok)) (token :: map NextToken rs),
       Throw e).
Proof.
  induction 1 as [token e Hs | token r rs e Hs Hn Hp IH]; intros fuel result Hf.
  - destruct fuel as [|fuel]; [simpl in Hf; lia |]. cbn [consumeAllTokens_loop].
    rewrite (cfClient_send_inl send _ _ _ Hs). reflexivity.
  - destruct fuel as [|fuel]; [simpl in Hf; lia |].
    simpl in Hf. cbn [consumeAllTokens_loop].
    rewrite (cfClient_send_inr send _ _ _ Hs), bind_Return, Hn.
    rewrite IH by lia. reflexivity.
Qed.

(** X3. When the API answers some pages and then fails a request,
    [consumeAllTokens] throws that error after one request per page and
    the failed one, and what the pages held is lost. [listImports] turns
    the error of an export that nothing imports into an empty list also
    when pages with imports came before it. *)
Theorem consumeAllTokens_failing_page :
  (forall T cfClient Command (resultProp : response -> option (list T)) rs e fuel,
     failsAfter send cfClient Command None rs e -> length rs < fuel ->
     consumeAllTokens send fuel cfClient Command resultProp
       = (map (fun tok => Send cfClient (Command tok)) (None :: map NextToken rs),
          Throw e)) /\
  (forall cfClient exportName rs name fuel,
     failsAfter send cfClient (ListImportsCommand exportName) None rs
       (CloudFormationServiceException name (notImported exportName)) ->
     length rs < fuel ->
     listImports send fuel cfClient exportName
       = (map (fun tok => Send cfClient (ListImportsCommand exportName tok))
            (None :: map NextToken rs),
          Return [])).
Proof.
  split.
  - intros T cfClient Command resultProp rs e fuel Hp Hf. unfold consumeAllTokens.
    apply (consumeAllTokens_loop_failsAfter _ _ _ _ _ _ Hp). exact Hf.
  - intros cfClient exportName rs name fuel Hp Hf. unfold listImports, consumeAllTokens.
    rewrite (consumeAllTokens_loop_failsAfter _ _ _ _ _ _ Hp) by exact Hf.
    unfold try_catch. rewrite String.eqb_refl. simpl. rewrite app_nil_r. reflexivity.
Qed.

Lemma consumeAllTokens_loop_endless {T} cfClient Command
  (resultProp : response -> option (list T)) :
  endless send cfClient Command ->
  forall fuel token result, exists t,
    consumeAllTokens_loop send fuel cfClient Command resultProp token result
      = (t, Undetermined "fuel") /\
    length t = fuel /\
    Forall (fun ev => exists tok, ev = Send cfClient (Command tok)) t.
Proof.
  intros Hend. induction fuel as [|fuel IH]; intros token result.
  - exists []. split; [reflexivity |]. split; [reflexivity | constructor].
  - destruct (Hend token) as (r & Hs & Hn). cbn [consumeAllTokens_loop].
    rewrite (cfClient_send_inr send _ _ _ Hs), bind_Return, Hn.
    destruct (IH (NextToken r)
                (match resultProp r with
                 | Some partialResults => (result ++ partialResults)%list
                 | None => result
                 end)) as (t & Ht & Hlen & Hall).
    rewrite Ht. exists (Send cfClient (Command token) :: t).
    split; [reflexivity |]. split; [simpl; rewrite Hlen; reflexivity |].
    constructor; [exists token; reflexivity | exact Hall].
Qed.

(** X4. When the API answers every request with a page that has a
    [NextToken], [consumeAllTokens] never returns and never throws:
    after any number of rounds it has sent that many requests and the
    loop is still running. [listImports] catches nothing of it. *)
Theorem consumeAllTokens_endless :
  (forall T cfClient Command (resultProp : response -> option (list T)),
     endless send cfClient Command ->
     forall fuel, exists t,
       consumeAllTokens send fuel cfClient Command resultProp
         = (t, Undetermined "fuel") /\
       length t = fuel /\
       Forall (fun ev => exists tok, ev = Send cfClient (Command tok)) t) /\
  (forall cfClient exportName,
     endless send cfClient (ListImportsCommand exportName) ->
     forall fuel, exists t,
       listImports send fuel cfClient exportName = (t, Undetermined "fuel") /\
       length t = fuel).
Proof.
  split.
  - intros T cfClient Command resultProp Hend fuel. unfold consumeAllTokens.
    apply consumeAllTokens_loop_endless. exact Hend.
  - intros cfClient exportName Hend fuel. unfold listImports, consumeAllTokens.
    destruct (consumeAllTokens_loop_endless cfClient (ListImportsCommand exportName)
                Imports Hend fuel None []) as (t & Ht & Hlen & _).
    exists t. rewrite Ht. split; [reflexivity | exact Hlen].
Qed.

(* ------------------------------------------------------------------ *)
(** ** The cache *)

(** X5. A cache file that cannot be read for another reason than that
    it is not there, or whose contents [JSON.parse] rejects, makes
    [cacheOrWork] throw that error: the work is not done, nothing is
    sent and nothing is written, so the file stays as it is. *)
Theorem cacheOrWork_unusable_cache {T} `{JSON T} (cache : FilesystemCache)
  (key : string) (work : M T) :
  (forall e, readFile (joinPath cache key) = inl e -> e <> SystemError "open" "ENOENT" ->
     cacheOrWork readFile cache key work = ([], Throw e)) /\
  (forall contents e,
     readFile (joinPath cache key) = inr contents -> contents <> "" ->
     JSON_parse contents = inl e ->
     cacheOrWork readFile cache key work = ([], Throw e)).
Proof.
  split.
  - intros e Hread Hne. unfold cacheOrWork, _readFileOrNull. rewrite Hread.
    destruct e as [m | m | syscall code | n m | d]; try reflexivity.
    destruct (String.eqb syscall "open") eqn:Es; [| reflexivity].
    destruct (String.eqb code "ENOENT") eqn:Ec; [| reflexivity].
    apply String.eqb_eq in Es, Ec. subst. contradiction Hne. reflexivity.
  - intros contents e Hread Hne Hparse.
    rewrite (cacheOrWork_hit readFile cache key work contents Hread Hne), Hparse.
    reflexivity.
Qed.

Lemma cacheOrWork_holds {T} `{JSON T} (cache : FilesystemCache) (key : string)
  (work : M T) (value : T) :
  holds readFile cache key value ->
  cacheOrWork readFile cache key work = ([], Return value).
Proof.
  intros (contents & Hread & Hne & Hparse).
  rewrite (cacheOrWork_hit readFile cache key work contents Hread Hne), Hparse.
  reflexivity.
Qed.

Lemma cacheOrWork_miss_returns {T} `{JSON T} (cache : FilesystemCache) (key : string)
  (work : M T) (t : list event) (value : T) :
  nothingCached readFile (joinPath cache key) ->
  cacheOrWork readFile cache key work = (t, Return value) ->
  exists t', work = (t', Return value) /\
             t = (t' ++ [WriteFile (joinPath cache key) (JSON_stringify value)])%list.
Proof.
  intros Hcold Hrun. rewrite (cacheOrWork_miss readFile cache key work Hcold) in Hrun.
  apply bind_returns in Hrun. destruct Hrun as (t1 & a & t2 & Hwork & Hk & ->).
  rewrite bind_emit in Hk. simpl in Hk. injection Hk as <- <-.
  exists t1. split; [exact Hwork | reflexivity].
Qed.

(** X6. What [cacheOrWork] writes on a miss, it returns on a later
    call: when the file then reads as it was written and the value
    round-trips through JSON, the later call returns the value of the
    first one, and does so without its work and without any
    operation. *)
Theorem cacheOrWork_round_trip {T} `{JSON T} (readFile' : path -> error + string)
  (cache : FilesystemCache) (key : string) (work work' : M T)
  (t : list event) (value : T) :
  nothingCached readFile (joinPath cache key) ->
  cacheOrWork readFile cache key work = (t, Return value) ->
  roundTrips value ->
  (forall data, In (WriteFile (joinPath cache key) data) t ->
     readFile' (joinPath cache key) = inr data) ->
  cacheOrWork readFile' cache key work' = ([], Return value).
Proof.
  intros Hcold Hrun [Hparse Hne] Hback.
  destruct (cacheOrWork_miss_returns cache key work t value Hcold Hrun)
    as (t' & _ & ->).
  assert (Hread : readFile' (joinPath cache key) = inr (JSON_stringify value)).
  { apply Hback. apply in_or_app. right. left. reflexivity. }
  rewrite (cacheOrWork_hit readFile' cache key work' _ Hread Hne), Hparse.
  reflexivity.
Qed.

Lemma unitFileOperation_app node data :
  unitFileOperation (WriteFile (unitFile APP_OUTPUT_DIR node) data) /\
  unitFileOperation (AppendFile (unitFile APP_OUTPUT_DIR node) data).
Proof. split; exists APP_OUTPUT_DIR, node; split; auto. Qed.

Lemma unitFileOperation_stack node data :
  unitFileOperation (WriteFile (unitFile STACK_OUTPUT_DIR node) data) /\
  unitFileOperation (AppendFile (unitFile STACK_OUTPUT_DIR node) data).
Proof. split; exists STACK_OUTPUT_DIR, node; split; auto. Qed.

Lemma writePlaceholders_unitFileOperations regionConfig apps stack :
  Forall unitFileOperation (trace (writePlaceholders regionConfig apps stack)).
Proof.
  unfold writePlaceholders. apply Forall_trace_bind.
  - destruct (multipleApps apps); [| constructor].
    apply Forall_trace_bind; [constructor |].
    intros node. apply Forall_trace_emit. exact (proj1 (unitFileOperation_app _ _)).
  - intros _. apply Forall_trace_bind; [constructor |].
    intros node. apply Forall_trace_emit. exact (proj1 (unitFileOperation_stack _ _)).
Qed.

Lemma appendDeclarations_unitFileOperations regionConfig apps eexport eStack iStack :
  Forall unitFileOperation
    (trace (appendDeclarations regionConfig apps eexport eStack iStack)).
Proof.
  unfold appendDeclarations. apply Forall_trace_bind.
  - destruct (multipleApps apps); [| constructor].
    apply Forall_trace_bind; [constructor |]. intros ne.
    apply Forall_trace_bind; [constructor |]. intros ni.
    destruct (negb (String.eqb ne ni)); [| constructor].
    apply Forall_trace_emit. exact (proj2 (unitFileOperation_app _ _)).
  - intros _.
    apply Forall_trace_bind; [constructor |]. intros ne.
    apply Forall_trace_bind; [constructor |]. intros ni.
    destruct (negb (String.eqb ne ni)); [| constructor].
    apply Forall_trace_emit. exact (proj2 (unitFileOperation_stack _ _)).
Qed.

Lemma emitGraph_unitFileOperations stacks exportsWithImportingStacks regionConfig
  environment apps includes :
  Forall unitFileOperation
    (trace (emitGraph stacks exportsWithImportingStacks regionConfig environment
              apps includes)).
Proof.
  unfold emitGraph. apply Forall_trace_bind; [constructor |].
  intros interestingStacks. apply Forall_trace_bind.
  - apply Forall_trace_for_of. intros stack _.
    apply writePlaceholders_unitFileOperations.
  - intros _. apply Forall_trace_for_of. intros [eexport imports] _.
    unfold processExport.
    destruct (negb (truthy (ExportingStackId eexport))); [constructor |].
    destruct (Map_get _ stacks) as [exportingStack|]; [| constructor].
    apply Forall_trace_bind; [constructor |].
    intros [|]; simpl; [| constructor].
    apply Forall_trace_for_of. intros iimport _. unfold processImport.
    destruct (Map_get iimport stacks) as [importingStack|]; [| constructor].
    apply Forall_trace_bind; [constructor |].
    intros [|]; simpl; [| constructor].
    apply appendDeclarations_unitFileOperations.
Qed.

Lemma bind_nil {A B} (a : A) (k : A -> M B) : bind (@nil event, Return a) k = k a.
Proof. exact (bind_ret a k). Qed.

Lemma getExportsWithImportingStacks_cached (fuel : nat) (cache : FilesystemCache)
  (cfClient : CloudFormationClient) (region : option string)
  (exportsWithImportingStacks : list (Export * list string)) :
  Forall (fun entry =>
            holds readFile cache
              (template region ++ "_cfListImports-" ++ template (Name (fst entry)))
              (snd entry))
    exportsWithImportingStacks ->
  getExportsWithImportingStacks readFile send fuel (map fst exportsWithImportingStacks)
    cache cfClient region = ([], Return exportsWithImportingStacks).
Proof.
  induction 1 as [| [eexport imports] rest Hentry _ IH]; [reflexivity |].
  cbn [map fst getExportsWithImportingStacks].
  rewrite (cacheOrWork_holds cache _ _ imports Hentry), bind_nil.
  rewrite IH, bind_nil. reflexivity.
Qed.

Lemma processCloudFormation_cached (fuel : nat) (cache : FilesystemCache)
  (regionConfig : RegionConfiguration) (environment : string)
  (apps : option (list string)) (includes : option (list IncludeOptionChoice))
  (fetched : list Stack) (exportsWithImportingStacks : list (Export * list string)) :
  cached readFile cache (region regionConfig) fetched exportsWithImportingStacks ->
  processCloudFormation readFile send fuel cache regionConfig environment apps includes
    = (stacks <- lift (getStacks_reduce fetched) ;;
       emitGraph stacks exportsWithImportingStacks regionConfig environment apps
         includes).
Proof.
  intros (Hstacks & Hexports & Himports).
  unfold processCloudFormation, getStacks.
  rewrite (cacheOrWork_holds cache _ _ fetched Hstacks), bind_nil.
  destruct (getStacks_reduce fetched) as [stacks | e | w]; try reflexivity.
  unfold lift. rewrite !bind_nil.
  rewrite (cacheOrWork_holds cache _ _ _ Hexports), bind_nil.
  rewrite (getExportsWithImportingStacks_cached fuel cache _ _ _ Himports), bind_nil.
  reflexivity.
Qed.

(** X7. With the stacks, the exports and the imports of every export
    of a region in the cache, [processCloudFormation] makes the graph
    of what the cache holds: it sends no request, writes nothing into
    the cache, and does the same whatever the API would answer. All its
    operations are writes and appends to unit files. *)
Theorem processCloudFormation_warm_cache (fuel : nat) (cache : FilesystemCache)
  (regionConfig : RegionConfiguration) (environment : string)
  (apps : option (list string)) (includes : option (list IncludeOptionChoice))
  (fetched : list Stack) (exportsWithImportingStacks : list (Export * list string)) :
  cached readFile cache (region regionConfig) fetched exportsWithImportingStacks ->
  processCloudFormation readFile send fuel cache regionConfig environment apps includes
    = (stacks <- lift (getStacks_reduce fetched) ;;
       emitGraph stacks exportsWithImportingStacks regionConfig environment apps
         includes) /\
  Forall unitFileOperation
    (trace (processCloudFormation readFile send fuel cache regionConfig environment
              apps includes)) /\
  (forall cfClient c,
     ~ In (Send cfClient c)
         (trace (processCloudFormation readFile send fuel cache regionConfig environment
                   apps includes))).
Proof.
  intros Hcached.
  pose proof (processCloudFormation_cached fuel cache regionConfig environment apps
                includes fetched exportsWithImportingStacks Hcached) as Heq.
  assert (Hops : Forall unitFileOperation
    (trace (processCloudFormation readFile send fuel cache regionConfig environment
              apps includes))).
  { rewrite Heq. apply Forall_trace_bind; [constructor |].
    intros stacks. apply emitGraph_unitFileOperations. }
  split; [exact Heq |]. split; [exact Hops |].
  intros cfClient c Hin.
  exact (proj1 (Forall_forall _ _) Hops _ Hin).
Qed.

(* ------------------------------------------------------------------ *)
(** ** The imports of the exports *)

Lemma getExportsWithImportingStacks_cons fuel eexport exports cache cfClient region :
  getExportsWithImportingStacks readFile send fuel (eexport :: exports) cache cfClient
    region
  = (imports <- importsOf readFile send fuel cache cfClient region eexport ;;
     result <- getExportsWithImportingStacks readFile send fuel exports cache cfClient
                 region ;;
     ret ((eexport, imports) :: result)).
Proof. reflexivity. Qed.

Lemma bind_Throw {A B} (t : list event) (e : error) (k : A -> M B) :
  bind (t, Throw e) k = (t, Throw e).
Proof. reflexivity. Qed.

Lemma getExportsWithImportingStacks_steps (fuel : nat) (cache : FilesystemCache)
  (cfClient : CloudFormationClient) (region : option string) :
  (forall exports t result,
     getExportsWithImportingStacks readFile send fuel exports cache cfClient region
       = (t, Return result) ->
     map fst result = exports /\
     Forall (fun entry =>
               outcome (importsOf readFile send fuel cache cfClient region (fst entry))
                 = Return (snd entry)) result /\
     t = flat_map (fun eexport =>
                     trace (importsOf readFile send fuel cache cfClient region eexport))
           exports) /\
  (forall before eexport after t result t' e,
     getExportsWithImportingStacks readFile send fuel before cache cfClient region
       = (t, Return result) ->
     importsOf readFile send fuel cache cfClient region eexport = (t', Throw e) ->
     getExportsWithImportingStacks readFile send fuel (before ++ eexport :: after)%list
       cache cfClient region = ((t ++ t')%list, Throw e)) /\
  (forall eexport,
     truthy (Name eexport) = false ->
     nothingCached readFile
       (joinPath cache (template region ++ "_cfListImports-" ++ template (Name eexport))) ->
     importsOf readFile send fuel cache cfClient region eexport
       = ([], Throw invalidExport)).
Proof.
  split; [| split].
  - induction exports as [| eexport exports IH]; intros t result H.
    + injection H as <- <-. split; [reflexivity |]. split; [constructor | reflexivity].
    + rewrite getExportsWithImportingStacks_cons in H.
      apply bind_returns in H. destruct H as (t1 & imports & t' & H1 & H & ->).
      apply bind_returns in H. destruct H as (t2 & rest & t3 & H2 & H3 & ->).
      injection H3 as <- <-.
      destruct (IH _ _ H2) as (Hfst & Hall & Ht).
      split; [simpl; rewrite Hfst; reflexivity |]. split.
      * constructor; [simpl; rewrite H1; reflexivity | exact Hall].
      * simpl. rewrite H1, Ht, app_nil_r. reflexivity.
  - induction before as [| first before IH]; intros eexport after t result t' e H He.
    + injection H as <- <-. cbn [app]. rewrite getExportsWithImportingStacks_cons, He.
      reflexivity.
    + cbn [app]. rewrite getExportsWithImportingStacks_cons in H |- *.
      apply bind_returns in H. destruct H as (t1 & imports & t0 & H1 & H & ->).
      apply bind_returns in H. destruct H as (t2 & rest & t3 & H2 & H3 & ->).
      injection H3 as <- _.
      rewrite H1, bind_Return. rewrite (IH eexport after t2 rest t' e H2 He).
      cbn [bind trace outcome fst snd]. rewrite app_nil_r, app_assoc. reflexivity.
  - intros eexport Hname Hcold. unfold importsOf.
    rewrite (cacheOrWork_miss readFile cache _ _ Hcold), Hname. reflexivity.
Qed.

(** X9. For exports whose names differ from one another, as the
    exports of a region do, so that no two of them share a cache file:
    [getExportsWithImportingStacks] returns one entry for each export, in
    the order of the exports, with the imports that the cache or the API
    gave for it, and its operations are those of getting them, in that
    order. The first export whose imports cannot be got ends it with
    that error, the exports after it untouched; with nothing cached for
    it, an export without a name is such an export. *)
Theorem getExportsWithImportingStacks_entries (fuel : nat) (cache : FilesystemCache)
  (cfClient : CloudFormationClient) (region : option string) :
  (forall exports t result,
     NoDup (map (fun eexport => template (Name eexport)) exports) ->
     getExportsWithImportingStacks readFile send fuel exports cache cfClient region
       = (t, Return result) ->
     map fst result = exports /\
     Forall (fun entry =>
               outcome (importsOf readFile send fuel cache cfClient region (fst entry))
                 = Return (snd entry)) result /\
     t = flat_map (fun eexport =>
                     trace (importsOf readFile send fuel cache cfClient region eexport))
           exports) /\
  (forall before eexport after t result t' e,
     NoDup (map (fun eexport => template (Name eexport)) (before ++ [eexport])) ->
     getExportsWithImportingStacks readFile send fuel before cache cfClient region
       = (t, Return result) ->
     importsOf readFile send fuel cache cfClient region eexport = (t', Throw e) ->
     getExportsWithImportingStacks readFile send fuel (before ++ eexport :: after)%list
       cache cfClient region = ((t ++ t')%list, Throw e)) /\
  (forall eexport,
     truthy (Name eexport) = false ->
     nothingCached readFile
       (joinPath cache (template region ++ "_cfListImports-" ++ template (Name eexport))) ->
     importsOf readFile send fuel cache cfClient region eexport
       = ([], Throw invalidExport)).
Proof.
  destruct (getExportsWithImportingStacks_steps fuel cache cfClient region)
    as (Ha & Hb & Hc).
  split; [| split].
  - intros exports t result _. apply Ha.
  - intros before eexport after t result t' e _. apply Hb.
  - exact Hc.
Qed.

(* ------------------------------------------------------------------ *)
(** ** The graph *)

Lemma processImport_resolves stacks regionConfig environment apps includes eexport
  exportingStack iimport :
  outcome (processImport stacks regionConfig environment apps includes eexport
             exportingStack iimport) = Return tt ->
  exists importingStack b',
    Map_get iimport stacks = Some importingStack /\
    isInterestingStack importingStack environment apps includes = Return b'.
Proof.
  unfold processImport.
  destruct (Map_get iimport stacks) as [importingStack|] eqn:Ei; [| discriminate].
  destruct (isInterestingStack importingStack environment apps includes) as [b' | e | w]
    eqn:Eb; [| discriminate | discriminate].
  intros _. exists importingStack, b'. split; [reflexivity | exact Eb].
Qed.

Lemma processExport_resolves stacks regionConfig environment apps includes entry :
  outcome (processExport stacks regionConfig environment apps includes entry)
    = Return tt ->
  resolved stacks environment apps includes entry.
Proof.
  destruct entry as [eexport imports]. unfold processExport, resolved. cbn [fst snd].
  destruct (truthy (ExportingStackId eexport)); [| discriminate]. cbn [negb].
  destruct (Map_get (template (ExportingStackId eexport)) stacks) as [exportingStack|]
    eqn:Ee; [| discriminate].
  destruct (isInterestingStack exportingStack environment apps includes) as [b | e | w]
    eqn:Eb; [| discriminate | discriminate].
  rewrite bind_lift. intros H. split; [reflexivity |].
  exists exportingStack, b. split; [reflexivity |]. split; [exact Eb |].
  intros -> iimport Hin. cbn [negb] in H.
  destruct (for_of imports
              (processImport stacks regionConfig environment apps includes eexport
                 exportingStack)) as [t c] eqn:E.
  simpl in H. subst c. apply for_of_returns in E. destruct E as [_ HF].
  rewrite Forall_forall in HF.
  exact (processImport_resolves _ _ _ _ _ _ _ _ (HF iimport Hin)).
Qed.

Lemma before_the_append (ph d t1 t2 : list event) (x : event) :
  (ph ++ d)%list = (t1 ++ x :: t2)%list ->
  Forall (fun ev => isAppendFile ev = false) ph -> isAppendFile x = true ->
  exists d1, t1 = (ph ++ d1)%list /\ d = (d1 ++ x :: t2)%list.
Proof.
  revert t1. induction ph as [| ev ph IH]; intros t1 H Hph Hx.
  - exists t1. split; [reflexivity | exact H].
  - inversion Hph as [| ? ? Hev Hph']; subst.
    destruct t1 as [| ev' t1]; simpl in H.
    + injection H as -> _. congruence.
    + injection H as <- H. destruct (IH t1 H Hph' Hx) as (d1 & -> & ->).
      exists d1. split; reflexivity.
Qed.

Lemma Map_get_value {V} (key : string) (value : V) (m : Map V) :
  Map_get key m = Some value -> In value (Map_values m).
Proof.
  intros H. apply Map_get_In in H. unfold Map_values.
  apply in_map_iff. exists (key, value). split; [reflexivity | exact H].
Qed.

Lemma passes_true stack environment apps includes :
  passes stack environment apps includes = true ->
  isInterestingStack stack environment apps includes = Return true.
Proof.
  unfold passes.
  destruct (isInterestingStack stack environment apps includes) as [[|] | e | w];
    [reflexivity | discriminate | discriminate | discriminate].
Qed.

Lemma emitGraph_closed (stacks : Map Stack)
  (exportsWithImportingStacks : list (Export * list string))
  (regionConfig : RegionConfiguration) (environment : string)
  (apps : option (list string)) (includes : option (list IncludeOptionChoice))
  (t t1 t2 : list event) (p : path) (data : string) :
  emitGraph stacks exportsWithImportingStacks regionConfig environment apps includes
    = (t, Return tt) ->
  t = (t1 ++ AppendFile p data :: t2)%list ->
  (exists outputDir exportingNode importingNode exportName,
     (outputDir = APP_OUTPUT_DIR \/ outputDir = STACK_OUTPUT_DIR) /\
     p = unitFile outputDir importingNode /\
     data = requireLine exportingNode exportName /\
     In (WriteFile (unitFile outputDir importingNode) "") t1 /\
     In (WriteFile (unitFile outputDir exportingNode) "") t1) /\
  Forall (fun ev => isAppendFile ev = true) t2.
Proof.
  intros Hrun Ht.
  destruct (emitGraph_returns _ _ _ _ _ _ _ Hrun)
    as (interestingStacks & Hfilter & Hret & Hshape).
  pose proof (placeholders_written _ _ _ _ _ _ _ Hrun) as [Hwritten _].
  assert (Hph : Forall (fun ev => isAppendFile ev = false)
                  (flat_map (fun stack => trace (writePlaceholders regionConfig apps stack))
                     interestingStacks)).
  { apply Forall_flat_map. rewrite Forall_forall.
    intros stack _. apply writePlaceholders_writes. }
  assert (Hd : Forall (fun ev => isAppendFile ev = true)
                 (flat_map (referenceDeclarations stacks regionConfig environment apps
                              includes)
                    (references exportsWithImportingStacks))).
  { apply Forall_flat_map. rewrite Forall_forall.
    intros r _. apply referenceDeclarations_appends. }
  rewrite Hshape in Ht.
  destruct (before_the_append _ _ _ _ _ Ht Hph eq_refl) as (d1 & Ht1 & Hdecl).
  assert (Hearlier : forall q, In (WriteFile q "") t -> In (WriteFile q "") t1).
  { intros q Hin. rewrite Hshape in Hin. apply in_app_or in Hin.
    destruct Hin as [Hin | Hin].
    - rewrite Ht1. apply in_or_app. left. exact Hin.
    - rewrite Forall_forall in Hd. specialize (Hd _ Hin). discriminate Hd. }
  split.
  - assert (Hin : In (AppendFile p data)
                    (flat_map (referenceDeclarations stacks regionConfig environment
                                 apps includes)
                       (references exportsWithImportingStacks))).
    { rewrite Hdecl. apply in_or_app. right. left. reflexivity. }
    apply in_flat_map in Hin. destruct Hin as ([eexport iimport] & _ & Hin).
    unfold referenceDeclarations in Hin. cbn [fst snd] in Hin.
    destruct (Map_get (template (ExportingStackId eexport)) stacks)
      as [exportingStack|] eqn:Ee; [| destruct Hin].
    destruct (Map_get iimport stacks) as [importingStack|] eqn:Ei; [| destruct Hin].
    destruct (passes exportingStack environment apps includes) eqn:Pe; [| destruct Hin].
    destruct (passes importingStack environment apps includes) eqn:Pi; [| destruct Hin].
    cbn [andb] in Hin.
    destruct (Hwritten exportingStack (Map_get_value _ _ _ Ee) (passes_true _ _ _ _ Pe))
      as [(seNode & HseN & HseW) HeApp].
    destruct (Hwritten importingStack (Map_get_value _ _ _ Ei) (passes_true _ _ _ _ Pi))
      as [(siNode & HsiN & HsiW) HiApp].
    apply in_app_or in Hin. destruct Hin as [Hin | Hin].
    + unfold appDeclaration in Hin.
      destruct (multipleApps apps) eqn:Em; [| destruct Hin].
      apply In_declaration in Hin.
      destruct Hin as (ne & ni & Hne & Hni & _ & Hev). injection Hev as -> ->.
      destruct (HeApp eq_refl) as (aeNode & HaeN & HaeW).
      destruct (HiApp eq_refl) as (aiNode & HaiN & HaiW).
      rewrite Hne in HaeN. injection HaeN as <-.
      rewrite Hni in HaiN. injection HaiN as <-.
      exists APP_OUTPUT_DIR, ne, ni, (Name eexport).
      split; [left; reflexivity |]. split; [reflexivity |]. split; [reflexivity |].
      split; apply Hearlier; assumption.
    + apply In_declaration in Hin.
      destruct Hin as (ne & ni & Hne & Hni & _ & Hev). injection Hev as -> ->.
      rewrite Hne in HseN. injection HseN as <-.
      rewrite Hni in HsiN. injection HsiN as <-.
      exists STACK_OUTPUT_DIR, ne, ni, (Name eexport).
      split; [right; reflexivity |]. split; [reflexivity |]. split; [reflexivity |].
      split; apply Hearlier; assumption.
  - rewrite Hdecl in Hd. apply Forall_app in Hd. destruct Hd as [_ Hd].
    inversion Hd. assumption.
Qed.

(** X11. In a run of [processCloudFormation] that returns, every
    [appendFile] adds a require line to a unit file that a [writeFile]
    with empty contents has made before it, for a unit whose file has
    also been made before it, in the same directory; after the first
    [appendFile] there are only [appendFile] calls. No declaration names
    a unit without a file, and no placeholder is written over one. *)
Theorem processCloudFormation_closed_graph (fuel : nat) (cache : FilesystemCache)
  (regionConfig : RegionConfiguration) (environment : string)
  (apps : option (list string)) (includes : option (list IncludeOptionChoice))
  (t t1 t2 : list event) (p : path) (data : string) :
  processCloudFormation readFile send fuel cache regionConfig environment apps includes
    = (t, Return tt) ->
  t = (t1 ++ AppendFile p data :: t2)%list ->
  (exists outputDir exportingNode importingNode exportName,
     (outputDir = APP_OUTPUT_DIR \/ outputDir = STACK_OUTPUT_DIR) /\
     p = unitFile outputDir importingNode /\
     data = requireLine exportingNode exportName /\
     In (WriteFile (unitFile outputDir importingNode) "") t1 /\
     In (WriteFile (unitFile outputDir exportingNode) "") t1) /\
  Forall (fun ev => isAppendFile ev = true) t2.
Proof.
  intros Hrun Ht.
  destruct (processCloudFormation_returns readFile send fuel cache regionConfig
              environment apps includes t Hrun)
    as (stacks & ewis & tf & te & _ & Hfetching & Hemit & Hshape).
  assert (Hf : Forall (fun ev => isAppendFile ev = false) tf).
  { eapply Forall_impl; [| exact Hfetching].
    intros [] H; simpl in *; try reflexivity; contradiction. }
  rewrite Hshape in Ht.
  destruct (before_the_append _ _ _ _ _ Ht Hf eq_refl) as (d1 & -> & Hte).
  destruct (emitGraph_closed _ _ _ _ _ _ _ _ _ _ _ Hemit Hte)
    as [(outputDir & ne & ni & name & Hdir & Hp & Hdata & Hi & He) Hafter].
  split; [| exact Hafter].
  exists outputDir, ne, ni, name.
  split; [exact Hdir |]. split; [exact Hp |]. split; [exact Hdata |].
  split; apply in_or_app; right; assumption.
Qed.

(** X12. However a run of [processCloudFormation] ends, its requests
    and its writes into the cache all come before its first write to a
    unit file, and it writes to a unit file only after it has fetched
    the stacks, the exports and the imports of every export: a run that
    fails while fetching leaves the output directories as they were. *)
Theorem processCloudFormation_fetches_first (fuel : nat) (cache : FilesystemCache)
  (regionConfig : RegionConfiguration) (environment : string)
  (apps : option (list string)) (includes : option (list IncludeOptionChoice)) :
  exists tf te,
    trace (processCloudFormation readFile send fuel cache regionConfig environment apps
             includes) = (tf ++ te)%list /\
    Forall (fetching cache) tf /\
    Forall unitFileOperation te /\
    (te <> [] ->
     exists stacks exportsWithImportingStacks,
       fetches readFile send fuel cache regionConfig stacks exportsWithImportingStacks).
Proof.
  assert (Hs : forall cfClient c, fetching cache (Send cfClient c)) by (intros; exact I).
  assert (Hc : forall key data, fetching cache (WriteFile (joinPath cache key) data))
    by (intros key data; exists key; reflexivity).
  pose proof (getStacks_trace readFile send (fetching cache) cache Hs Hc fuel
                (region regionConfig) (region regionConfig)) as F1.
  pose proof (cacheOrWork_trace readFile (fetching cache) cache Hc
                (template (region regionConfig) ++ "_exports.cache.json")
                (listExports send fuel (region regionConfig))
                (consumeAllTokens_loop_trace send (fetching cache) Hs fuel
                   (region regionConfig) ListExportsCommand Exports None [])) as F2.
  unfold processCloudFormation.
  destruct (getStacks readFile send fuel cache (region regionConfig)
              (region regionConfig)) as [t1 [stacks | e | w]] eqn:E1; simpl in F1;
    [| exists t1, []; rewrite app_nil_r;
       (split; [reflexivity |]); (split; [exact F1 |]);
       (split; [constructor | intros H; contradiction H; reflexivity]) ..].
  rewrite bind_Return.
  destruct (cacheOrWork readFile cache
              (template (region regionConfig) ++ "_exports.cache.json")
              (listExports send fuel (region regionConfig)))
    as [t2 [exports | e | w]] eqn:E2; simpl in F2;
    [| exists (t1 ++ t2)%list, []; rewrite app_nil_r;
       (split; [reflexivity |]); (split; [apply Forall_app; split; assumption |]);
       (split; [constructor | intros H; contradiction H; reflexivity]) ..].
  rewrite bind_Return.
  pose proof (getExportsWithImportingStacks_trace readFile send (fetching cache) cache
                Hs Hc fuel exports (region regionConfig) (region regionConfig)) as F3.
  destruct (getExportsWithImportingStacks readFile send fuel exports cache
              (region regionConfig) (region regionConfig))
    as [t3 [ewis | e | w]] eqn:E3; simpl in F3;
    [| exists (t1 ++ t2 ++ t3)%list, []; rewrite app_nil_r;
       (split; [reflexivity |]);
       (split; [apply Forall_app; split; [assumption | apply Forall_app; split; assumption]
               |]);
       (split; [constructor | intros H; contradiction H; reflexivity]) ..].
  rewrite bind_Return.
  exists (t1 ++ t2 ++ t3)%list,
    (trace (emitGraph stacks ewis regionConfig environment apps includes)).
  split; [simpl; rewrite <- !app_assoc; reflexivity |].
  split; [apply Forall_app; split; [assumption | apply Forall_app; split; assumption] |].
  split; [apply emitGraph_unitFileOperations |].
  intros _. exists stacks, ewis, t1, t2, exports, t3. auto.
Qed.

(* ------------------------------------------------------------------ *)
(** ** The whole run *)





(* ------------------------------------------------------------------ *)
(** ** Node names *)

Lemma append_cancel_r (a b c : string) : a ++ c = b ++ c -> a = b.
Proof.
  intros H. apply lst_inj. apply (f_equal lst) in H. rewrite !lst_app in H.
  exact (app_inv_tail _ _ _ H).
Qed.

Lemma truthy_template (s : option string) :
  truthy s = true -> s = Some (template s).
Proof. destruct s as [[| c s] |]; simpl; intros H; try discriminate H; reflexivity. Qed.

Lemma getNodeNameForStack_Return stack regionConfig node :
  getNodeNameForStack stack regionConfig = Return node ->
  truthy (StackName stack) = true /\
  node = template (StackName stack) ++ regionSuffix regionConfig.
Proof.
  unfold getNodeNameForStack. destruct (truthy (StackName stack)); [| discriminate].
  intros H. injection H as <-. split; reflexivity.
Qed.

(** X15. Within a region the stacks-level node names tell the stacks
    apart by name: two stacks have the same node name only if they have
    the same [StackName], so that the declaration between two stacks is
    left out only when they are called the same, and the declaration
    that is made names the two stacks. *)
Theorem getNodeNameForStack_injective (regionConfig : RegionConfiguration)
  (stack stack' : Stack) (node node' : string) :
  getNodeNameForStack stack regionConfig = Return node ->
  getNodeNameForStack stack' regionConfig = Return node' ->
  (node = node' <-> StackName stack = StackName stack') /\
  (forall eexport,
     stackDeclaration regionConfig eexport stack stack' = [] <->
     StackName stack = StackName stack') /\
  (forall eexport,
     StackName stack <> StackName stack' ->
     stackDeclaration regionConfig eexport stack stack'
       = [AppendFile
            (unitFile STACK_OUTPUT_DIR
               (template (StackName stack') ++ regionSuffix regionConfig))
            (requireLine (template (StackName stack) ++ regionSuffix regionConfig)
               (Name eexport))]).
Proof.
  intros H H'.
  destruct (getNodeNameForStack_Return _ _ _ H) as [Ht Hn].
  destruct (getNodeNameForStack_Return _ _ _ H') as [Ht' Hn'].
  assert (Hiff : node = node' <-> StackName stack = StackName stack').
  { split.
    - intros Heq. rewrite Hn, Hn' in Heq. apply append_cancel_r in Heq.
      rewrite (truthy_template _ Ht), (truthy_template _ Ht'), Heq. reflexivity.
    - intros Heq. rewrite Hn, Hn', Heq. reflexivity. }
  split; [exact Hiff |]. split.
  - intros eexport. rewrite (stackDeclaration_names _ eexport _ _ _ _ H H').
    destruct (String.eqb_spec node node') as [Heq | Hne].
    + split; [intros _; apply Hiff; exact Heq | reflexivity].
    + split; [discriminate | intros Hs; contradiction Hne; apply Hiff; exact Hs].
  - intros eexport Hne. rewrite (stackDeclaration_names _ eexport _ _ _ _ H H').
    destruct (String.eqb_spec node node') as [Heq | _].
    + contradiction Hne. apply Hiff. exact Heq.
    + rewrite Hn, Hn'. reflexivity.
Qed.

Lemma getTagValue_tagged stack key :
  (exists v, getTagValue stack key = Return v) <-> tagged stack key.
Proof.
  unfold getTagValue, tagged, lacks, carries. split.
  - intros (v & H). destruct (Tags stack) as [tags|]; [| discriminate H].
    destruct (find (fun tag => eqb_key (Key tag) key) tags) as [tag|] eqn:E.
    + destruct (truthy (Value tag)) eqn:Et; [| discriminate H].
      right. exists (template (Value tag)), tags, tag.
      split; [reflexivity |]. split; [exact E |].
      split; [apply truthy_template; exact Et |].
      destruct (Value tag) as [[| c s] |]; simpl in *; discriminate.
    + left. exists tags. split; [reflexivity | exact E].
  - intros [(tags & Ht & Hf) | (v & tags & tag & Ht & Hf & Hv & Hne)]; rewrite Ht, Hf.
    + exists None. reflexivity.
    + rewrite Hv, (truthy_carried _ Hne). exists (Some v). reflexivity.
Qed.

(** X16. [getNodeNameForApp] returns a name exactly for a stack with a
    list of tags in which the product tag and the environment tag, where
    they occur, have a value, and which has both tags or a [StackName].
    A stack without a list of tags is an invalid stack and a tag without
    a value an invalid tag, also when the stack has a [StackName]. *)
Theorem getNodeNameForApp_returns_iff (stack : Stack)
  (regionConfig : RegionConfiguration) :
  ((exists node, getNodeNameForApp stack regionConfig = Return node) <->
   tagged stack "balsamiq-product" /\ tagged stack "environment" /\
   (((exists app, carries stack "balsamiq-product" app) /\
     (exists env, carries stack "environment" env)) \/
    truthy (StackName stack) = true)) /\
  (Tags stack = None -> getNodeNameForApp stack regionConfig = Throw invalidStack) /\
  (forall tags tag key,
     Tags stack = Some tags ->
     key = "balsamiq-product" \/ key = "environment" ->
     find (fun tag => eqb_key (Key tag) key) tags = Some tag ->
     truthy (Value tag) = false ->
     getNodeNameForApp stack regionConfig = Throw invalidTag).
Proof.
  split; [| split].
  - split.
    + intros (node & H). unfold getNodeNameForApp in H.
      destruct (getTagValue stack "balsamiq-product") as [appName | |] eqn:Ea;
        [| discriminate H | discriminate H].
      destruct (getTagValue stack "environment") as [env | |] eqn:Ee;
        [| discriminate H | discriminate H].
      cbn [cbind] in H.
      pose proof (proj1 (getTagValue_tagged stack "balsamiq-product")
                    (ex_intro _ appName Ea)) as Ta.
      pose proof (proj1 (getTagValue_tagged stack "environment")
                    (ex_intro _ env Ee)) as Te.
      split; [exact Ta |]. split; [exact Te |].
      destruct (truthy (StackName stack)); [right; reflexivity |].
      destruct Ta as [La | Ca]; [| destruct Te as [Le | Ce]; [| left; split; assumption]].
      * rewrite (getTagValue_lacks _ _ La) in Ea. injection Ea as <-.
        simpl in H. discriminate H.
      * rewrite (getTagValue_lacks _ _ Le) in Ee. injection Ee as <-.
        rewrite andb_false_r in H. discriminate H.
    + intros (Ta & Te & Hor). unfold getNodeNameForApp.
      destruct (proj2 (getTagValue_tagged stack "balsamiq-product") Ta) as (a & Ea).
      destruct (proj2 (getTagValue_tagged stack "environment") Te) as (e & Ee).
      rewrite Ea, Ee. cbn [cbind].
      destruct Hor as [[(app & Ca) (env & Ce)] | Hname].
      * rewrite (getTagValue_carries _ _ _ Ca) in Ea. injection Ea as <-.
        rewrite (getTagValue_carries _ _ _ Ce) in Ee. injection Ee as <-.
        destruct Ca as (_ & _ & _ & _ & _ & Hna). destruct Ce as (_ & _ & _ & _ & _ & Hne).
        rewrite (truthy_carried _ Hna), (truthy_carried _ Hne).
        eexists. reflexivity.
      * rewrite Hname. destruct (truthy a && truthy e); eexists; reflexivity.
  - intros Ht. unfold getNodeNameForApp, getTagValue. rewrite Ht. reflexivity.
  - intros tags tag key Ht [-> | ->] Hf Hv.
    + unfold getNodeNameForApp, getTagValue. rewrite Ht, Hf, Hv. reflexivity.
    + unfold getNodeNameForApp.
      destruct (getTagValue stack "balsamiq-product") as [appName | e | w] eqn:Ea.
      * unfold getTagValue. rewrite Ht, Hf, Hv. reflexivity.
      * unfold getTagValue in Ea. rewrite Ht in Ea.
        destruct (find (fun tag0 => eqb_key (Key tag0) "balsamiq-product") tags)
          as [tag'|]; [| discriminate Ea].
        destruct (truthy (Value tag')); [discriminate Ea |].
        injection Ea as <-. reflexivity.
      * unfold getTagValue in Ea. rewrite Ht in Ea.
        destruct (find (fun tag0 => eqb_key (Key tag0) "balsamiq-product") tags)
          as [tag'|]; [| discriminate Ea].
        destruct (truthy (Value tag')); discriminate Ea.
Qed.

(* ------------------------------------------------------------------ *)
(** ** The filter *)

Lemma notIncluded_true includes choice :
  notIncluded includes choice = true <-> ~ included includes choice.
Proof.
  destruct (notIncluded includes choice) eqn:E.
  - split; [| reflexivity]. intros _ H. apply notIncluded_false in H. congruence.
  - split; [discriminate |]. intros H. contradiction H.
    apply notIncluded_false. exact E.
Qed.

(** X17. Listing more kinds of resource in [includes] never makes the
    filter reject a stack that it accepted, and naming apps never makes
    it accept a stack that it rejects without them. *)
Theorem isInterestingStack_monotone (stack : Stack) (environment : string)
  (apps : option (list string)) (includes includes' : option (list IncludeOptionChoice)) :
  ((forall choice, included includes choice -> included includes' choice) ->
   isInterestingStack stack environment apps includes = Return true ->
   isInterestingStack stack environment apps includes' = Return true) /\
  (isInterestingStack stack environment apps includes = Return true ->
   isInterestingStack stack environment None includes = Return true).
Proof.
  split.
  - intros Hsub. unfold isInterestingStack.
    destruct (negb (truthy (StackName stack))); [discriminate |]. cbv zeta.
    assert (Hm : notIncluded includes' mysql = true -> notIncluded includes mysql = true).
    { rewrite !notIncluded_true. intros H Hi. apply H, Hsub, Hi. }
    assert (Hr : notIncluded includes' redis = true -> notIncluded includes redis = true).
    { rewrite !notIncluded_true. intros H Hi. apply H, Hsub, Hi. }
    destruct (notIncluded includes' mysql); [rewrite (Hm eq_refl) |];
      (destruct (notIncluded includes' redis); [rewrite (Hr eq_refl) |]);
      try (intros H; exact H);
      destruct (notIncluded includes mysql), (notIncluded includes redis);
      cbn [andb];
      repeat match goal with
             | |- context [test ?r ?n] =>
                 match r with
                 | regexp_literal _ => destruct (test r n); cbn [negb andb]
                 end
             end;
      destruct (isSome (ParentId stack)); cbn [negb andb];
      try discriminate; intros H; exact H.
  - unfold isInterestingStack.
    destruct (negb (truthy (StackName stack))); [discriminate |]. cbv zeta.
    match goal with
    | |- (if ?b then _ else _) = _ -> _ => destruct b; [| discriminate]
    end.
    destruct (RegExp ("-" ++ environment ++ "-|-" ++ environment ++ "$"))
      as [inEnvironment | e | w]; [| discriminate | discriminate].
    cbn [cbind].
    destruct (test inEnvironment (template (StackName stack))); [| discriminate].
    intros _. reflexivity.
Qed.

Lemma excluded_result (stack : Stack) (name : string)
  (includes : option (list IncludeOptionChoice)) :
  excluded stack name includes ->
  negb (test (sequence (Bol :: chars (lst "CDKToolkit") ++ [Eol])) name)
  && negb (isSome (ParentId stack))
  && negb (test (sequence (Bol :: chars (lst "internal-"))) name)
  && negb (test (sequence [Bol; Group (disjunction (map text ["balsamiq-slack"])); Eol])
             name)
  && negb (test (sequence [Bol; Group (disjunction (map text excludedApps)); Char "-"])
             name)
  && (negb (notIncluded includes mysql)
      || negb (test (sequence (chars (lst "-mysql") ++ [Eol])) name))
  && (negb (notIncluded includes redis)
      || negb (test (sequence (chars (lst "-redis") ++ [Eol])) name)) = false.
Proof.
  intros [H | [H | [H | [H | [H | [[H Hn] | [H Hn]]]]]]].
  - rewrite (proj2 (test_exactly "CDKToolkit" name) H). reflexivity.
  - destruct (ParentId stack); [| contradiction H; reflexivity].
    cbn [isSome negb]. rewrite andb_false_r. reflexivity.
  - rewrite (proj2 (test_startsWith "internal-" name) H). cbn [negb].
    rewrite !andb_false_r. reflexivity.
  - assert (Hin : In name ["balsamiq-slack"]) by (left; symmetry; exact H).
    rewrite (proj2 (test_one_of ["balsamiq-slack"] name ltac:(discriminate)) Hin).
    cbn [negb]. rewrite !andb_false_r. reflexivity.
  - rewrite (proj2 (test_startsWith_one_of excludedApps name ltac:(discriminate)) H).
    cbn [negb]. rewrite !andb_false_r. reflexivity.
  - rewrite (proj2 (test_endsWith "-mysql" name) H).
    rewrite (proj2 (notIncluded_true includes mysql) Hn). cbn [negb orb].
    rewrite !andb_false_r. reflexivity.
  - rewrite (proj2 (test_endsWith "-redis" name) H).
    rewrite (proj2 (notIncluded_true includes redis) Hn). cbn [negb orb].
    rewrite !andb_false_r. reflexivity.
Qed.

Lemma isInterestingStack_result (stack : Stack) (environment : string)
  (apps : option (list string)) (includes : option (list IncludeOptionChoice))
  (name : string) :
  StackName stack = Some name -> name <> "" ->
  isInterestingStack stack environment apps includes
  = if negb (test (sequence (Bol :: chars (lst "CDKToolkit") ++ [Eol])) name)
       && negb (isSome (ParentId stack))
       && negb (test (sequence (Bol :: chars (lst "internal-"))) name)
       && negb (test (sequence [Bol; Group (disjunction (map text ["balsamiq-slack"]));
                                Eol]) name)
       && negb (test (sequence [Bol; Group (disjunction (map text excludedApps));
                                Char "-"]) name)
       && (negb (notIncluded includes mysql)
           || negb (test (sequence (chars (lst "-mysql") ++ [Eol])) name))
       && (negb (notIncluded includes redis)
           || negb (test (sequence (chars (lst "-redis") ++ [Eol])) name))
    then
      inEnvironment <~ RegExp ("-" ++ environment ++ "-|-" ++ environment ++ "$") ;;
      if test inEnvironment name then
        match apps with
        | None => Return true
        | Some apps' =>
            ofApps <~ RegExp ("^(" ++ join "|" apps' ++ ")-") ;;
            Return (test ofApps name)
        end
      else Return false
    else Return false.
Proof.
  intros Hname Hne. unfold isInterestingStack.
  rewrite Hname, (truthy_carried _ Hne). cbn [negb template].
  rewrite literal_CDKToolkit, literal_internal, literal_balsamiq_slack,
    literal_excludedApps, literal_mysql, literal_redis.
  cbv zeta. cbn [andb].
  destruct (notIncluded includes mysql), (notIncluded includes redis); cbn [negb orb];
    rewrite ?andb_true_r; reflexivity.
Qed.

(** X18. A stack that one of the fixed rules excludes (the CDK toolkit,
    a nested stack, shared infrastructure, the singleton and the
    excluded apps, a mysql or redis stack whose kind is not included) is
    rejected whatever the environment and the apps are, also when they
    make no valid pattern. For any other stack the pattern of the
    environment is compiled, and a pattern that is not valid makes the
    filter throw. *)
Theorem isInterestingStack_excluded (stack : Stack) (name : string)
  (includes : option (list IncludeOptionChoice)) :
  StackName stack = Some name -> name <> "" ->
  (excluded stack name includes ->
   forall environment apps,
     isInterestingStack stack environment apps includes = Return false) /\
  (~ excluded stack name includes ->
   forall environment apps e,
     RegExp ("-" ++ environment ++ "-|-" ++ environment ++ "$") = Throw e ->
     isInterestingStack stack environment apps includes = Throw e).
Proof.
  intros Hname Hne. split.
  - intros Hex environment apps.
    rewrite (isInterestingStack_result stack environment apps includes name Hname Hne).
    rewrite (excluded_result stack name includes Hex). reflexivity.
  - intros Hnex environment apps e Hre.
    rewrite (isInterestingStack_result stack environment apps includes name Hname Hne).
    rewrite Hre.
    match goal with
    | |- (if ?b then _ else _) = _ => destruct b eqn:E; [reflexivity |]
    end.
    contradiction Hnex. unfold excluded.
    rewrite !andb_false_iff, !orb_false_iff, !negb_false_iff in E.
    destruct E as [[[[[[E | E] | E] | E] | E] | [Ei E]] | [Ei E]].
    + left. apply (proj1 (test_exactly "CDKToolkit" name) E).
    + right. left. destruct (ParentId stack); [discriminate | discriminate E].
    + right. right. left. apply (proj1 (test_startsWith "internal-" name) E).
    + right. right. right. left.
      destruct (proj1 (test_one_of ["balsamiq-slack"] name ltac:(discriminate)) E)
        as [H | []]. symmetry. exact H.
    + right. right. right. right. left.
      apply (proj1 (test_startsWith_one_of excludedApps name ltac:(discriminate)) E).
    + right. right. right. right. right. left.
      split; [apply (proj1 (test_endsWith "-mysql" name) E) |].
      apply notIncluded_true. exact Ei.
    + right. right. right. right. right. right.
      split; [apply (proj1 (test_endsWith "-redis" name) E) |].
      apply notIncluded_true. exact Ei.
Qed.

Lemma filter_throwing_answers {A} (p : A -> completion bool) (xs l : list A) :
  filter_throwing p xs = Return l ->
  Forall (fun x => exists b, p x = Return b) xs.
Proof.
  revert l. induction xs as [| x xs IH]; intros l H; [constructor |].
  simpl in H. destruct (p x) as [keep | e | w] eqn:Ex; [| discriminate H ..].
  cbn [cbind] in H.
  destruct (filter_throwing p xs) as [rest | e | w]; [| discriminate H ..].
  constructor; [exists keep; exact Ex | exact (IH rest eq_refl)].
Qed.

Lemma filter_throwing_total {A} (p : A -> completion bool) (xs : list A) :
  Forall (fun x => exists b, p x = Return b) xs ->
  exists l, filter_throwing p xs = Return l /\
            forall x, In x l -> In x xs /\ p x = Return true.
Proof.
  induction 1 as [| x xs (b & Hb) _ (rest & Hrest & Hin)].
  - exists []. split; [reflexivity | intros x []].
  - simpl. rewrite Hb, Hrest. cbn [cbind]. destruct b.
    + exists (x :: rest). split; [reflexivity |].
      intros y [<- | Hy]; [split; [left; reflexivity | exact Hb] |].
      destruct (Hin y Hy) as [H1 H2]. split; [right; exact H1 | exact H2].
    + exists rest. split; [reflexivity |].
      intros y Hy. destruct (Hin y Hy) as [H1 H2]. split; [right; exact H1 | exact H2].
Qed.

Lemma for_of_all_return {A} (xs : list A) (body : A -> M unit) :
  Forall (fun x => outcome (body x) = Return tt) xs ->
  exists t, for_of xs body = (t, Return tt).
Proof.
  induction 1 as [| x xs Hx _ (t & Ht)]; [exists []; reflexivity |].
  simpl. destruct (body x) as [tx c]. simpl in Hx. subst c.
  rewrite bind_Return, Ht. eexists. reflexivity.
Qed.

Lemma isInterestingStack_named stack environment apps includes b :
  isInterestingStack stack environment apps includes = Return b ->
  truthy (StackName stack) = true.
Proof.
  unfold isInterestingStack. destruct (truthy (StackName stack)); [reflexivity |].
  discriminate.
Qed.

Lemma appendDeclarations_succeeds regionConfig apps eexport eStack iStack :
  truthy (StackName eStack) = true -> truthy (StackName iStack) = true ->
  (multipleApps apps = true ->
   (exists node, getNodeNameForApp eStack regionConfig = Return node) /\
   (exists node, getNodeNameForApp iStack regionConfig = Return node)) ->
  outcome (appendDeclarations regionConfig apps eexport eStack iStack) = Return tt.
Proof.
  intros He Hi Happ. unfold appendDeclarations, getNodeNameForStack.
  rewrite He, Hi, !bind_lift.
  destruct (multipleApps apps).
  - destruct (Happ eq_refl) as [(ne & Hne) (ni & Hni)].
    rewrite Hne, Hni, !bind_lift.
    destruct (negb (String.eqb ne ni));
      [rewrite bind_emit | rewrite bind_ret];
      match goal with |- context [if ?b then _ else _] => destruct b end; reflexivity.
  - rewrite bind_ret.
    match goal with |- context [if ?b then _ else _] => destruct b end; reflexivity.
Qed.

Lemma writePlaceholders_succeeds regionConfig apps stack :
  truthy (StackName stack) = true ->
  (multipleApps apps = true ->
   exists node, getNodeNameForApp stack regionConfig = Return node) ->
  outcome (writePlaceholders regionConfig apps stack) = Return tt.
Proof.
  intros Hs Happ. unfold writePlaceholders, getNodeNameForStack. rewrite Hs, bind_lift.
  destruct (multipleApps apps).
  - destruct (Happ eq_refl) as (node & Hnode). rewrite Hnode, bind_lift. reflexivity.
  - reflexivity.
Qed.

(** X10. [emitGraph] returns exactly when the filter gives an answer
    for every stack of the map, every stack that passes it has an
    app-level node name where the apps graph is made, and every export
    and its imports are resolved. A run that returns has skipped no
    export for a stack that is not in the map; the imports of an export
    whose stack the filter rejects are not looked at. *)
Theorem emitGraph_returns_iff (stacks : Map Stack)
  (exportsWithImportingStacks : list (Export * list string))
  (regionConfig : RegionConfiguration) (environment : string)
  (apps : option (list string)) (includes : option (list IncludeOptionChoice)) :
  (exists t,
     emitGraph stacks exportsWithImportingStacks regionConfig environment apps includes
       = (t, Return tt)) <->
  Forall (fun stack =>
            exists b, isInterestingStack stack environment apps includes = Return b)
    (Map_values stacks) /\
  (multipleApps apps = true ->
   Forall (fun stack =>
             isInterestingStack stack environment apps includes = Return true ->
             exists node, getNodeNameForApp stack regionConfig = Return node)
     (Map_values stacks)) /\
  Forall (resolved stacks environment apps includes) exportsWithImportingStacks.
Proof.
  split.
  - intros (t & Hrun).
    destruct (emitGraph_returns _ _ _ _ _ _ _ Hrun)
      as (interestingStacks & Hfilter & Hret & _).
    split; [exact (filter_throwing_answers _ _ _ Hfilter) |]. split.
    + intros Hm. rewrite Forall_forall. intros stack Hin Hpass.
      pose proof (filter_throwing_In _ _ _ Hfilter stack Hin Hpass) as Hi.
      rewrite Forall_forall in Hret.
      destruct (writePlaceholders_returns _ _ _ (Hret stack Hi))
        as (stackNode & _ & [[Hm' _] | [_ (appNode & Ha & _)]]); [congruence |].
      exists appNode. exact Ha.
    + unfold emitGraph in Hrun.
      apply bind_returns in Hrun.
      destruct Hrun as (t1 & interestingStacks' & t2 & _ & H2 & _).
      apply bind_returns in H2. destruct H2 as (t3 & [] & t4 & _ & H4 & _).
      apply for_of_returns in H4. destruct H4 as [_ HF].
      eapply Forall_impl; [| exact HF].
      intros entry. apply processExport_resolves.
  - intros (Hanswers & Happ & Hresolved).
    assert (Hnode : forall stack,
      In stack (Map_values stacks) ->
      isInterestingStack stack environment apps includes = Return true ->
      multipleApps apps = true ->
      exists node, getNodeNameForApp stack regionConfig = Return node).
    { intros stack Hin Hpass Hm.
      exact (proj1 (Forall_forall _ _) (Happ Hm) stack Hin Hpass). }
    destruct (filter_throwing_total _ _ Hanswers) as (interestingStacks & Hfilter & Hint).
    unfold emitGraph. rewrite Hfilter, bind_lift.
    destruct (for_of_all_return interestingStacks (writePlaceholders regionConfig apps))
      as (tw & Hw).
    { rewrite Forall_forall. intros stack Hin. destruct (Hint stack Hin) as [Hv Hp].
      apply writePlaceholders_succeeds.
      - exact (isInterestingStack_named _ _ _ _ _ Hp).
      - apply Hnode; assumption. }
    rewrite Hw, bind_Return.
    destruct (for_of_all_return exportsWithImportingStacks
                (processExport stacks regionConfig environment apps includes))
      as (te & He).
    { eapply Forall_impl; [| exact Hresolved].
      intros [eexport imports] (Hid & eStack & b & Hget & Hb & Himports).
      cbn [fst snd] in *. unfold processExport.
      rewrite Hid, Hget, Hb, bind_lift. cbn [negb]. destruct b; [| reflexivity].
      cbn [negb].
      destruct (for_of_all_return imports
                  (processImport stacks regionConfig environment apps includes eexport
                     eStack)) as (ti & Hi); [| rewrite Hi; reflexivity].
      rewrite Forall_forall. intros iimport Hin.
      destruct (Himports eq_refl iimport Hin) as (iStack & b' & Hgi & Hbi).
      unfold processImport. rewrite Hgi, Hbi, bind_lift.
      destruct b'; [| reflexivity]. cbn [negb].
      apply appendDeclarations_succeeds.
      - exact (isInterestingStack_named _ _ _ _ _ Hb).
      - exact (isInterestingStack_named _ _ _ _ _ Hbi).
      - intros Hm. split.
        + exact (Hnode eStack (Map_get_value _ _ _ Hget) Hb Hm).
        + exact (Hnode iStack (Map_get_value _ _ _ Hgi) Hbi Hm). }
    rewrite He. eexists. reflexivity.
Qed.

End Further.

(* ------------------------------------------------------------------ *)
(** ** A second run *)

Section SecondRun.

(** The files and the API as the first run finds them, and as the
    second run does. *)
Variable readFile readFile' : path -> error + string.
Variable send send' : option string -> command -> error + response.

Context {JSON_Stacks : JSON (list Stack)}.
Context {JSON_Exports : JSON (list Export)}.
Context {JSON_Imports : JSON (list string)}.

Lemma getExportsWithImportingStacks_cold (fuel : nat) (cache : FilesystemCache)
  (cfClient : CloudFormationClient) (region : option string) :
  (forall key, nothingCached readFile (joinPath cache key)) ->
  forall exports t exportsWithImportingStacks,
  getExportsWithImportingStacks readFile send fuel exports cache cfClient region
    = (t, Return exportsWithImportingStacks) ->
  map fst exportsWithImportingStacks = exports /\
  Forall (fun entry =>
            (exists t', listImports send fuel cfClient (template (Name (fst entry)))
                          = (t', Return (snd entry))) /\
            In (WriteFile
                  (joinPath cache
                     (template region ++ "_cfListImports-" ++ template (Name (fst entry))))
                  (JSON_stringify (snd entry))) t)
    exportsWithImportingStacks.
Proof.
  intros Hcold. induction exports as [| eexport exports IH]; intros t ewis H.
  - injection H as <- <-. split; [reflexivity | constructor].
  - cbn [getExportsWithImportingStacks] in H.
    apply bind_returns in H. destruct H as (t1 & imports & t' & H1 & H & ->).
    apply bind_returns in H. destruct H as (t2 & rest & t3 & H2 & H3 & ->).
    injection H3 as <- <-.
    destruct (IH _ _ H2) as [Hfst Hrest].
    destruct (cacheOrWork_miss_returns readFile cache _ _ t1 imports (Hcold _) H1)
      as (tw & Hwork & ->).
    split; [simpl; rewrite Hfst; reflexivity |].
    constructor.
    + simpl. split.
      * destruct (negb (truthy (Name eexport))); [discriminate Hwork |].
        exists tw. exact Hwork.
      * apply in_or_app. left. apply in_or_app. right. left. reflexivity.
    + eapply Forall_impl; [| exact Hrest].
      intros entry [Hl Hin]. split; [exact Hl |].
      apply in_or_app. right. apply in_or_app. left. exact Hin.
Qed.

(** X8. After a run of [processCloudFormation] that found nothing in
    the cache and returned, a second run that reads the cache files as
    the first one wrote them, the values fetched round-tripping through
    JSON, makes the same writes and appends to the unit files and
    returns, whatever the API now answers and without a request. *)
Theorem processCloudFormation_second_run (fuel : nat) (cache : FilesystemCache)
  (regionConfig : RegionConfiguration) (environment : string)
  (apps : option (list string)) (includes : option (list IncludeOptionChoice))
  (t : list event) :
  (forall key, nothingCached readFile (joinPath cache key)) ->
  processCloudFormation readFile send fuel cache regionConfig environment apps includes
    = (t, Return tt) ->
  (forall t' fetched,
     describeStacks send fuel (region regionConfig) = (t', Return fetched) ->
     roundTrips fetched) ->
  (forall t' exports,
     listExports send fuel (region regionConfig) = (t', Return exports) ->
     roundTrips exports) ->
  (forall exportName t' imports,
     listImports send fuel (region regionConfig) exportName = (t', Return imports) ->
     roundTrips imports) ->
  (forall key data, In (WriteFile (joinPath cache key) data) t ->
     readFile' (joinPath cache key) = inr data) ->
  exists tf te,
    t = (tf ++ te)%list /\
    Forall (fetching cache) tf /\
    Forall unitFileOperation te /\
    forall fuel',
      processCloudFormation readFile' send' fuel' cache regionConfig environment apps
        includes = (te, Return tt).
Proof.
  intros Hcold Hrun RTs RTe RTi Hback.
  destruct (processCloudFormation_returns readFile send fuel cache regionConfig
              environment apps includes t Hrun)
    as (stacks0 & ewis0 & tf & te & Hfetches & Hfetching & Hemit0 & Ht).
  destruct Hfetches as (t1' & t2' & exports' & t3' & G1 & G2 & G3).
  unfold processCloudFormation in Hrun.
  apply bind_returns in Hrun. destruct Hrun as (t1 & stacks & r1 & H1 & Hrun & Ht1).
  apply bind_returns in Hrun. destruct Hrun as (t2 & exports & r2 & H2 & Hrun & ->).
  apply bind_returns in Hrun. destruct Hrun as (t3 & ewis & t4 & H3 & H4 & ->).
  rewrite G1 in H1. injection H1 as -> ->.
  rewrite G2 in H2. injection H2 as -> ->.
  rewrite G3 in H3. injection H3 as -> ->.
  rewrite Hemit0 in H4. injection H4 as ->.
  exists tf, t4. split; [exact Ht |]. split; [exact Hfetching |].
  split.
  { pose proof (emitGraph_unitFileOperations stacks ewis regionConfig environment apps
                  includes) as F.
    rewrite Hemit0 in F. exact F. }
  intros fuel'.
  unfold getStacks in G1.
  apply bind_returns in G1. destruct G1 as (ta & fetched & tb & Ga & Gb & ->).
  apply lift_returns in Gb. destruct Gb as [Gb ->].
  destruct (cacheOrWork_miss_returns readFile cache _ _ ta fetched (Hcold _) Ga)
    as (ts & Hs & ->).
  destruct (cacheOrWork_miss_returns readFile cache _ _ t2 exports (Hcold _) G2)
    as (te' & He & ->).
  destruct (getExportsWithImportingStacks_cold fuel cache (region regionConfig)
              (region regionConfig) Hcold exports t3 ewis G3) as [Hfst Hentries].
  assert (Hcached : cached readFile' cache (region regionConfig) fetched ewis).
  { split; [| split].
    - destruct (RTs _ _ Hs) as [Hparse Hne].
      exists (JSON_stringify fetched). split; [| split; assumption].
      apply Hback. rewrite Ht1. apply in_or_app. left. apply in_or_app. left.
      apply in_or_app. right. left. reflexivity.
    - rewrite Hfst. destruct (RTe _ _ He) as [Hparse Hne].
      exists (JSON_stringify exports). split; [| split; assumption].
      apply Hback. rewrite Ht1. apply in_or_app. right. apply in_or_app. left.
      apply in_or_app. right. left. reflexivity.
    - eapply Forall_impl; [| exact Hentries].
      intros entry [(t' & Hl) Hin]. destruct (RTi _ _ _ Hl) as [Hparse Hne].
      exists (JSON_stringify (snd entry)). split; [| split; assumption].
      apply Hback. rewrite Ht1. apply in_or_app. right. apply in_or_app. right.
      apply in_or_app. left. exact Hin. }
  rewrite (processCloudFormation_cached readFile' send' fuel' cache regionConfig
             environment apps includes fetched ewis Hcached).
  rewrite Gb. unfold lift. rewrite bind_nil. exact Hemit0.
Qed.

End SecondRun.

(* ------------------------------------------------------------------ *)
(** ** The regions of a run *)

Section OperationsOf.

Variable readFile : path -> error + string.
Variable send : option string -> command -> error + response.

Context {JSON_Stacks : JSON (list Stack)}.
Context {JSON_Exports : JSON (list Export)}.
Context {JSON_Imports : JSON (list string)}.

(** A property of operations that holds of every request to one client
    and of every write of a cache file named after one region. *)
Variable P : event -> Prop.
Variable cache : FilesystemCache.
Variable cfClient : CloudFormationClient.
Variable region : option string.
Hypothesis P_Send : forall c, P (Send cfClient c).
Hypothesis P_cache : forall rest data,
  P (WriteFile (joinPath cache (template region ++ "_" ++ rest)) data).

Lemma consumeAllTokens_loop_of {T} fuel Command
  (resultProp : response -> option (list T)) :
  forall token result,
  Forall P (trace (consumeAllTokens_loop send fuel cfClient Command resultProp
                     token result)).
Proof.
  induction fuel as [|fuel IH]; intros token result; cbn [consumeAllTokens_loop].
  - constructor.
  - apply Forall_trace_bind.
    + unfold cfClient_send. apply Forall_trace_bind.
      * apply Forall_trace_emit. apply P_Send.
      * intros _. constructor.
    + intros r. destruct (truthy (NextToken r)); [apply IH | constructor].
Qed.

Lemma listImports_of fuel exportName :
  Forall P (trace (listImports send fuel cfClient exportName)).
Proof.
  unfold listImports. apply Forall_trace_try_catch.
  - apply consumeAllTokens_loop_of.
  - intros [m | m | s c | name m | d]; try constructor.
    destruct (String.eqb m (notImported exportName)); constructor.
Qed.

Lemma cacheOrWork_of {T} `{JSON T} rest (work : M T) :
  Forall P (trace work) ->
  Forall P (trace (cacheOrWork readFile cache (template region ++ "_" ++ rest) work)).
Proof.
  intros Hw. unfold cacheOrWork. apply Forall_trace_bind.
  - unfold _readFileOrNull.
    destruct (readFile (joinPath cache (template region ++ "_" ++ rest))) as [e | c].
    + destruct e; try constructor.
      destruct (String.eqb syscall "open" && String.eqb code "ENOENT"); constructor.
    + constructor.
  - intros contents. destruct (truthy contents); [constructor |].
    apply Forall_trace_bind; [exact Hw |].
    intros result. apply Forall_trace_bind.
    + apply Forall_trace_emit. apply P_cache.
    + intros _. constructor.
Qed.

Lemma getStacks_of fuel :
  Forall P (trace (getStacks readFile send fuel cache cfClient region)).
Proof.
  unfold getStacks. apply Forall_trace_bind.
  - apply (cacheOrWork_of "stacks.cache.json"). apply consumeAllTokens_loop_of.
  - intros stacks. constructor.
Qed.

Lemma getExportsWithImportingStacks_of fuel exports :
  Forall P (trace (getExportsWithImportingStacks readFile send fuel exports cache
                     cfClient region)).
Proof.
  induction exports as [|eexport exports IH]; cbn [getExportsWithImportingStacks].
  - constructor.
  - apply Forall_trace_bind.
    + apply (cacheOrWork_of ("cfListImports-" ++ template (Name eexport))).
      destruct (negb (truthy (Name eexport))); [constructor |].
      apply listImports_of.
    + intros imports. apply Forall_trace_bind; [exact IH |].
      intros result. constructor.
Qed.

End OperationsOf.

Section Regions.

Variable readFile : path -> error + string.
Variable send : option string -> command -> error + response.

Context {JSON_Stacks : JSON (list Stack)}.
Context {JSON_Exports : JSON (list Export)}.
Context {JSON_Imports : JSON (list string)}.

Lemma processCloudFormation_of (P : event -> Prop) fuel cache regionConfig environment
  apps includes :
  (forall c, P (Send (region regionConfig) c)) ->
  (forall rest data,
     P (WriteFile (joinPath cache (template (region regionConfig) ++ "_" ++ rest)) data)) ->
  (forall stacks exportsWithImportingStacks,
     Forall P (trace (emitGraph stacks exportsWithImportingStacks regionConfig
                        environment apps includes))) ->
  Forall P (trace (processCloudFormation readFile send fuel cache regionConfig
                     environment apps includes)).
Proof.
  intros Hsend Hcache Hemit. unfold processCloudFormation.
  apply Forall_trace_bind;
    [apply (getStacks_of readFile send P cache _ _ Hsend Hcache) |].
  intros stacks. apply Forall_trace_bind.
  - apply (cacheOrWork_of readFile P cache _ Hcache "exports.cache.json").
    apply (consumeAllTokens_loop_of send P _ Hsend).
  - intros exports. apply Forall_trace_bind.
    + apply (getExportsWithImportingStacks_of readFile send P cache _ _ Hsend Hcache).
    + intros exportsWithImportingStacks. apply Hemit.
Qed.

Lemma append_associative (a b c : string) : (a ++ b) ++ c = a ++ b ++ c.
Proof. induction a as [| x a IH]; simpl; [reflexivity | rewrite IH; reflexivity]. Qed.

Lemma unitFileOperation_ofRegions regions (ev : event) :
  unitFileOperation ev -> ofRegions regions CACHE_DIR ev.
Proof.
  destruct ev as [p | p data | p data | r c | p image]; simpl; try tauto.
  intros (outputDir & node & [-> | ->] & ->) key H; discriminate H.
Qed.

(** X14. A run of [main] sends its requests to the region of
    [AWS_REGION] and to us-east-1 and to no other, and every file it
    writes into the cache directory has a name that starts with the
    region whose answers it holds: the two regions share no cache
    file. *)
Theorem main_regions (fuel : nat) (AWS_REGION : option string) (environment : string)
  (apps : option (list string)) (includes : option (list IncludeOptionChoice)) :
  Forall (ofRegions [AWS_REGION; Some "us-east-1"] CACHE_DIR)
    (trace (main readFile send fuel AWS_REGION environment apps includes)) /\
  (forall regionConfig,
     Forall (ofRegions [region regionConfig] CACHE_DIR)
       (trace (processCloudFormation readFile send fuel CACHE_DIR regionConfig
                 environment apps includes))).
Proof.
  assert (Hrun : forall regions regionConfig,
    In (region regionConfig) regions ->
    Forall (ofRegions regions CACHE_DIR)
      (trace (processCloudFormation readFile send fuel CACHE_DIR regionConfig
                environment apps includes))).
  { intros regions regionConfig Hin. apply processCloudFormation_of.
    - intros c. exact Hin.
    - intros rest data key H. injection H as <-.
      exists (region regionConfig). split; [exact Hin |].
      exists rest. rewrite append_associative. reflexivity.
    - intros stacks ewis. eapply Forall_impl; [| apply emitGraph_unitFileOperations].
      apply unitFileOperation_ofRegions. }
  split; [| intros regionConfig; apply Hrun; left; reflexivity].
  unfold main.
  apply Forall_trace_bind; [apply Forall_trace_emit; exact I |]. intros _.
  apply Forall_trace_bind; [apply Forall_trace_emit; exact I |]. intros _.
  apply Forall_trace_bind_returned.
  { unfold new_FilesystemCache. apply Forall_trace_bind.
    - apply Forall_trace_emit. exact I.
    - intros _. constructor. }
  intros cache Hcache. unfold new_FilesystemCache in Hcache.
  rewrite bind_emit in Hcache. simpl in Hcache. inversion Hcache. subst cache.
  apply Forall_trace_bind; [apply Hrun; left; reflexivity |]. intros _.
  apply Forall_trace_bind.
  { destruct (negb (eqb_key AWS_REGION "us-east-1")); [| constructor].
    apply Hrun. right. left. reflexivity. }
  intros _. apply Forall_trace_bind.
  { destruct (multipleApps apps); [| constructor].
    apply Forall_trace_emit. exact I. }
  intros _. apply Forall_trace_emit. exact I.
Qed.

End Regions.

(* ------------------------------------------------------------------ *)
(** ** The first revision and the latest *)

(** [/<p>(<t1>|<t2>|...)$/] *)
Lemma test_endsWith_one_of (p : string) (ts : list string) (s : string) :
  ts <> [] ->
  test (sequence (chars (lst p) ++ [Group (disjunction (map text ts)); Eol])) s = true
  <-> exists t, In t ts /\ endsWith (p ++ t) s.
Proof.
  intros Hts. unfold test. rewrite search_true. split.
  - intros (pre & post & Hs & H). apply ends_chars_not_nil in H.
    destruct H as (rest & -> & H). apply (ends_texts ts [Eol] _ _ Hts) in H.
    destruct H as (t & rest' & Hin & -> & H). apply ends_Eol_not_nil in H. subst rest'.
    exists t. split; [exact Hin |]. apply endsWith_lst. exists pre.
    rewrite Hs, lst_app, app_nil_r. reflexivity.
  - intros (t & Hin & He). apply endsWith_lst in He. destruct He as (pre & Hs).
    rewrite lst_app in Hs. exists pre, (lst p ++ lst t)%list. split; [exact Hs |].
    apply ends_chars_not_nil. exists (lst t). split; [reflexivity |].
    apply (ends_texts ts [Eol] _ _ Hts). exists t, []. rewrite app_nil_r.
    split; [exact Hin |]. split; [reflexivity |]. apply ends_Eol_not_nil. reflexivity.
Qed.

Lemma literal_mysql_or_redis :
  regexp_literal "-(mysql|redis)$"
    = sequence (chars (lst "-") ++ [Group (disjunction (map text ["mysql"; "redis"])); Eol]).
Proof. reflexivity. Qed.

Lemma test_mysql_or_redis (name : string) :
  test (regexp_literal "-(mysql|redis)$") name
    = test (regexp_literal "-mysql$") name || test (regexp_literal "-redis$") name.
Proof.
  apply Bool.eq_iff_eq_true.
  rewrite literal_mysql_or_redis, literal_mysql, literal_redis, orb_true_iff.
  rewrite (test_endsWith_one_of "-" ["mysql"; "redis"] name ltac:(discriminate)).
  rewrite !test_endsWith. split.
  - intros (t & [<- | [<- | []]] & H); [left | right]; exact H.
  - intros [H | H]; [exists "mysql" | exists "redis"]; (split; [| exact H]).
    + left. reflexivity.
    + right. left. reflexivity.
Qed.

Lemma append_empty_r (s : string) : s ++ "" = s.
Proof. induction s as [| c s IH]; simpl; [reflexivity | rewrite IH; reflexivity]. Qed.

Lemma regionSuffix_explicit (regionConfig : RegionConfiguration) :
  implicit regionConfig = false -> regionSuffix regionConfig = "".
Proof. unfold regionSuffix. intros ->. reflexivity. Qed.

Lemma first_getNodeNameForStack (stack : Stack) (regionConfig : RegionConfiguration) :
  implicit regionConfig = false ->
  FirstRevision.getNodeNameForStack stack = getNodeNameForStack stack regionConfig.
Proof.
  intros H. unfold FirstRevision.getNodeNameForStack, getNodeNameForStack.
  rewrite (regionSuffix_explicit _ H), append_empty_r. reflexivity.
Qed.

Lemma first_getNodeNameForApp (stack : Stack) (regionConfig : RegionConfiguration) :
  implicit regionConfig = false ->
  FirstRevision.getNodeNameForApp stack = getNodeNameForApp stack regionConfig.
Proof.
  intros H. unfold FirstRevision.getNodeNameForApp, getNodeNameForApp.
  rewrite (regionSuffix_explicit _ H).
  destruct (getTagValue stack "balsamiq-product") as [appName | |]; [| reflexivity ..].
  destruct (getTagValue stack "environment") as [environment | |]; [| reflexivity ..].
  cbn [cbind]. rewrite !append_empty_r. reflexivity.
Qed.

Lemma first_isInterestingStack (stack : Stack) (environment : string)
  (apps : option (list string)) :
  FirstRevision.isInterestingStack stack environment apps
    = isInterestingStack stack environment apps None.
Proof.
  unfold FirstRevision.isInterestingStack, isInterestingStack.
  destruct (negb (truthy (StackName stack))); [reflexivity |].
  cbv zeta. cbn [notIncluded]. rewrite test_mysql_or_redis, negb_orb, !andb_assoc.
  reflexivity.
Qed.

(** X19. The filter of the first revision is the filter of the latest
    without [--include]: its single rule for resource stacks,
    [/-(mysql|redis)$/], rejects the names that the two rules of the
    latest reject. Its node names are those of the latest for a region
    that is not implicit. *)
Theorem first_revision_filter_and_names :
  (forall stack environment apps,
     FirstRevision.isInterestingStack stack environment apps
       = isInterestingStack stack environment apps None) /\
  (forall name,
     test (regexp_literal "-(mysql|redis)$") name = true <->
     endsWith "-mysql" name \/ endsWith "-redis" name) /\
  (forall stack regionConfig,
     implicit regionConfig = false ->
     FirstRevision.getNodeNameForApp stack = getNodeNameForApp stack regionConfig /\
     FirstRevision.getNodeNameForStack stack = getNodeNameForStack stack regionConfig).
Proof.
  split; [exact first_isInterestingStack |]. split.
  - intros name. rewrite test_mysql_or_redis, orb_true_iff, literal_mysql, literal_redis,
      !test_endsWith. reflexivity.
  - intros stack regionConfig H. split.
    + apply first_getNodeNameForApp. exact H.
    + apply first_getNodeNameForStack. exact H.
Qed.

Lemma bind_assoc {A B C} (m : M A) (k : A -> M B) (k' : B -> M C) :
  bind (bind m k) k' = bind m (fun a => bind (k a) k').
Proof.
  destruct m as [t [a | e | w]]; [| reflexivity | reflexivity].
  simpl. destruct (k a) as [t1 [b | e | w]]; simpl; [| reflexivity | reflexivity].
  destruct (k' b) as [t2 c]. rewrite app_assoc. reflexivity.
Qed.

Lemma bind_ext {A B} (m : M A) (k k' : A -> M B) :
  (forall a, k a = k' a) -> bind m k = bind m k'.
Proof.
  intros H. destruct m as [t [a | e | w]]; [| reflexivity | reflexivity].
  simpl. rewrite H. reflexivity.
Qed.

Lemma for_of_ext {A} (xs : list A) (body body' : A -> M unit) :
  (forall x, body x = body' x) -> for_of xs body = for_of xs body'.
Proof.
  intros H. induction xs as [| x xs IH]; [reflexivity |].
  simpl. rewrite H, IH. reflexivity.
Qed.

Lemma filter_throwing_ext {A} (p p' : A -> completion bool) (xs : list A) :
  (forall x, p x = p' x) -> filter_throwing p xs = filter_throwing p' xs.
Proof.
  intros H. induction xs as [| x xs IH]; [reflexivity |].
  simpl. rewrite H, IH. reflexivity.
Qed.

Lemma first_writePlaceholders (regionConfig : RegionConfiguration)
  (apps : option (list string)) (stack : Stack) :
  implicit regionConfig = false ->
  FirstRevision.writePlaceholders apps stack = writePlaceholders regionConfig apps stack.
Proof.
  intros H. unfold FirstRevision.writePlaceholders, writePlaceholders.
  rewrite (first_getNodeNameForApp stack regionConfig H),
    (first_getNodeNameForStack stack regionConfig H). reflexivity.
Qed.

Lemma first_appendDeclarations (regionConfig : RegionConfiguration)
  (apps : option (list string)) (eexport : Export) (exportingStack importingStack : Stack) :
  implicit regionConfig = false ->
  FirstRevision.appendDeclarations apps eexport exportingStack importingStack
    = appendDeclarations regionConfig apps eexport exportingStack importingStack.
Proof.
  intros H. unfold FirstRevision.appendDeclarations, appendDeclarations.
  rewrite (first_getNodeNameForApp exportingStack regionConfig H),
    (first_getNodeNameForApp importingStack regionConfig H),
    (first_getNodeNameForStack exportingStack regionConfig H),
    (first_getNodeNameForStack importingStack regionConfig H). reflexivity.
Qed.

Lemma first_processImport (stacks : Map Stack) (regionConfig : RegionConfiguration)
  (environment : string) (apps : option (list string)) (eexport : Export)
  (exportingStack : Stack) (iimport : string) :
  implicit regionConfig = false ->
  FirstRevision.processImport stacks environment apps eexport exportingStack iimport
    = processImport stacks regionConfig environment apps None eexport exportingStack
        iimport.
Proof.
  intros H. unfold FirstRevision.processImport, processImport.
  destruct (Map_get iimport stacks) as [importingStack|]; [| reflexivity].
  rewrite first_isInterestingStack. apply bind_ext. intros interesting.
  destruct (negb interesting); [reflexivity |].
  apply first_appendDeclarations. exact H.
Qed.

Lemma first_processExport (stacks : Map Stack) (regionConfig : RegionConfiguration)
  (environment : string) (apps : option (list string)) (entry : Export * list string) :
  implicit regionConfig = false ->
  FirstRevision.processExport stacks environment apps entry
    = processExport stacks regionConfig environment apps None entry.
Proof.
  intros H. destruct entry as [eexport imports].
  unfold FirstRevision.processExport, processExport.
  destruct (negb (truthy (ExportingStackId eexport))); [reflexivity |].
  destruct (Map_get (template (ExportingStackId eexport)) stacks) as [exportingStack|];
    [| reflexivity].
  rewrite first_isInterestingStack. apply bind_ext. intros interesting.
  destruct (negb interesting); [reflexivity |].
  apply for_of_ext. intros iimport. apply first_processImport. exact H.
Qed.

Section Revisions.

Variable readFile : path -> error + string.
Variable falsy : string -> bool.
Variable mkdir : path -> error + unit.
Variable send : option string -> command -> error + response.

Context {JSON_Stacks : JSON (list Stack)}.
Context {JSON_Exports : JSON (list Export)}.
Context {JSON_Imports : JSON (list string)}.

(** X20. The two loops of the first revision's [main] are the
    [emitGraph] of the latest revision, for a region that is not
    implicit and without [--include]: the first [main] is its three
    [mkdir] calls and its three fetches, followed by that [emitGraph]
    and the rendering of the graphs. *)
Theorem first_revision_main (fuel : nat) (environment : string)
  (apps : option (list string)) (regionConfig : RegionConfiguration) :
  implicit regionConfig = false ->
  FirstRevision.main readFile falsy mkdir send fuel environment apps
  = (FirstRevision.await_mkdir mkdir CACHE_DIR ;;;
     FirstRevision.await_mkdir mkdir APP_OUTPUT_DIR ;;;
     FirstRevision.await_mkdir mkdir STACK_OUTPUT_DIR ;;;
     stacks <- FirstRevision.getStacks readFile falsy send fuel None ;;
     exports <- FirstRevision.cfListExports readFile falsy send fuel None ;;
     exportsWithImportingStacks <-
       FirstRevision.getExportsWithImportingStacks readFile falsy send fuel exports None ;;
     emitGraph stacks exportsWithImportingStacks regionConfig environment apps None ;;;
     (if multipleApps apps then emit (MadgeImage APP_OUTPUT_DIR "graph-apps.png")
      else ret tt) ;;;
     emit (MadgeImage STACK_OUTPUT_DIR "graph-stacks.png")).
Proof.
  intros H. unfold FirstRevision.main.
  apply bind_ext. intros _. apply bind_ext. intros _. apply bind_ext. intros _.
  apply bind_ext. intros stacks. apply bind_ext. intros exports.
  apply bind_ext. intros exportsWithImportingStacks.
  unfold emitGraph. rewrite bind_assoc.
  rewrite (filter_throwing_ext _ _ (Map_values stacks)
             (fun stack => first_isInterestingStack stack environment apps)).
  apply bind_ext. intros interestingStacks. rewrite bind_assoc.
  rewrite (for_of_ext interestingStacks _ _
             (fun stack => first_writePlaceholders regionConfig apps stack H)).
  apply bind_ext. intros _.
  rewrite (for_of_ext exportsWithImportingStacks _ _
             (fun entry => first_processExport stacks regionConfig environment apps
                             entry H)).
  reflexivity.
Qed.

(** [parseJSONFileOrNull] by the cases of the file. *)
Lemma parseJSONFileOrNull_ENOENT {T} `{JSON T} (p : path) :
  readFile p = inl ENOENT ->
  FirstRevision.parseJSONFileOrNull readFile falsy p = ([], Return (@None T)).
Proof.
  intros Hread. unfold FirstRevision.parseJSONFileOrNull. rewrite Hread. reflexivity.
Qed.

Lemma parseJSONFileOrNull_falsy {T} `{JSON T} (p : path) (contents : string) :
  readFile p = inr contents -> falsy contents = true ->
  FirstRevision.parseJSONFileOrNull readFile falsy p = ([], Return (@None T)).
Proof.
  intros Hread Hfalsy. unfold FirstRevision.parseJSONFileOrNull.
  rewrite Hread. cbn [settle]. rewrite bind_lift, Hfalsy. reflexivity.
Qed.

Lemma parseJSONFileOrNull_parsed {T} `{JSON T} (p : path) (contents : string) (value : T) :
  readFile p = inr contents -> falsy contents = false ->
  JSON_parse contents = inr value ->
  FirstRevision.parseJSONFileOrNull readFile falsy p = ([], Return (Some value)).
Proof.
  intros Hread Hfalsy Hparse. unfold FirstRevision.parseJSONFileOrNull.
  rewrite Hread. cbn [settle]. rewrite bind_lift, Hfalsy, Hparse. reflexivity.
Qed.

Lemma parseJSONFileOrNull_rejected {T} `{JSON T} (p : path) (contents : string)
  (e : error) :
  readFile p = inr contents -> falsy contents = false ->
  JSON_parse contents = inl e -> e <> ENOENT ->
  FirstRevision.parseJSONFileOrNull readFile falsy p = ([], @Throw (option T) e).
Proof.
  intros Hread Hfalsy Hparse Hne. unfold FirstRevision.parseJSONFileOrNull.
  rewrite Hread. cbn [settle]. rewrite bind_lift, Hfalsy, Hparse.
  unfold lift. cbn [settle bind try_catch].
  destruct e as [m | m | syscall code | n m | d]; try reflexivity.
  destruct (String.eqb syscall "open") eqn:Es; [| reflexivity].
  destruct (String.eqb code "ENOENT") eqn:Ec; [| reflexivity].
  apply String.eqb_eq in Es, Ec. subst. contradiction Hne. reflexivity.
Qed.

Lemma parseJSONFileOrNull_unreadable {T} `{JSON T} (p : path) (e : error) :
  readFile p = inl e -> e <> ENOENT ->
  FirstRevision.parseJSONFileOrNull readFile falsy p = ([], @Throw (option T) e).
Proof.
  intros Hread Hne. unfold FirstRevision.parseJSONFileOrNull.
  rewrite Hread. unfold lift. cbn [settle bind try_catch].
  destruct e as [m | m | syscall code | n m | d]; try reflexivity.
  destruct (String.eqb syscall "open") eqn:Es; [| reflexivity].
  destruct (String.eqb code "ENOENT") eqn:Ec; [| reflexivity].
  apply String.eqb_eq in Es, Ec. subst. contradiction Hne. reflexivity.
Qed.

Lemma cfDescribeStacks_loop_consumeAllTokens (fuel : nat) (cfClient : CloudFormationClient) :
  forall nextToken allStacks,
  FirstRevision.cfDescribeStacks_loop send fuel cfClient nextToken allStacks
    = consumeAllTokens_loop send fuel cfClient DescribeStacksCommand Stacks nextToken
        allStacks.
Proof.
  induction fuel as [| fuel IH]; intros nextToken allStacks; [reflexivity |].
  cbn [FirstRevision.cfDescribeStacks_loop consumeAllTokens_loop].
  apply bind_ext. intros r. destruct (truthy (NextToken r)); [apply IH | reflexivity].
Qed.

Lemma cfListExports_loop_consumeAllTokens (fuel : nat) (cfClient : CloudFormationClient) :
  forall nextToken allExports,
  FirstRevision.cfListExports_loop send fuel cfClient nextToken allExports
    = consumeAllTokens_loop send fuel cfClient ListExportsCommand Exports nextToken
        allExports.
Proof.
  induction fuel as [| fuel IH]; intros nextToken allExports; [reflexivity |].
  cbn [FirstRevision.cfListExports_loop consumeAllTokens_loop].
  apply bind_ext. intros r. destruct (truthy (NextToken r)); [apply IH | reflexivity].
Qed.

Lemma error_eq_ENOENT (e : error) : e = ENOENT \/ e <> ENOENT.
Proof.
  destruct e as [m | m | syscall code | n m | d]; try (right; discriminate).
  destruct (string_dec syscall "open") as [-> | Hs];
    [| right; intros H; injection H as H _; contradiction].
  destruct (string_dec code "ENOENT") as [-> | Hc];
    [left; reflexivity | right; intros H; injection H as H; contradiction].
Qed.

Lemma cacheOrWork_unreadable {T} `{JSON T} (cache : FilesystemCache) (key : string)
  (work : M T) (e : error) :
  readFile (joinPath cache key) = inl e -> e <> ENOENT ->
  cacheOrWork readFile cache key work = ([], Throw e).
Proof.
  intros Hread Hne. unfold cacheOrWork, _readFileOrNull. rewrite Hread.
  destruct e as [m | m | syscall code | n m | d]; try reflexivity.
  destruct (String.eqb syscall "open") eqn:Es; [| reflexivity].
  destruct (String.eqb code "ENOENT") eqn:Ec; [| reflexivity].
  apply String.eqb_eq in Es, Ec. subst. contradiction Hne. reflexivity.
Qed.

Lemma cached_or_fetched {T} `{JSON T} (key : string) (work : M T) :
  usable readFile falsy key ->
  (cached <- FirstRevision.parseJSONFileOrNull readFile falsy (joinPath CACHE_DIR key) ;;
   match cached with
   | Some value => ret value
   | None =>
       value <- work ;;
       emit (WriteFile (joinPath CACHE_DIR key) (JSON_stringify value)) ;;;
       ret value
   end)
  = cacheOrWork readFile CACHE_DIR key work.
Proof.
  intros [(e & Hread) | (contents & Hread & Hne & Hfalsy & Hparse)].
  - destruct (error_eq_ENOENT e) as [-> | He].
    + rewrite (parseJSONFileOrNull_ENOENT _ Hread), bind_nil.
      rewrite (cacheOrWork_miss readFile CACHE_DIR key work (or_introl Hread)).
      reflexivity.
    + rewrite (parseJSONFileOrNull_unreadable _ e Hread He).
      rewrite (cacheOrWork_unreadable CACHE_DIR key work e Hread He).
      reflexivity.
  - rewrite (cacheOrWork_hit readFile CACHE_DIR key work contents Hread Hne).
    destruct (JSON_parse contents) as [e | value] eqn:Ep.
    + rewrite (parseJSONFileOrNull_rejected _ contents e Hread Hfalsy Ep
                 (fun Heq => Hparse (f_equal inl Heq))).
      reflexivity.
    + rewrite (parseJSONFileOrNull_parsed _ contents value Hread Hfalsy Ep), bind_nil.
      reflexivity.
Qed.

(** X21. On a cache file that is absent or unreadable, or whose
    contents are not empty and are the text of an array or no JSON text
    at all, [cfDescribeStacks] and [cfListExports] of the first revision
    do what [cacheOrWork] of the latest does with [describeStacks] and
    [listExports]: the same requests, the same write, the same outcome.
    Two kinds of file set the revisions apart. An empty file is handed
    to [JSON.parse] by the first revision, which throws, and is fetched
    over by the latest. A file with the text of a falsy value ([null],
    [false], [0]) is fetched over by the first revision, which tests
    what it has parsed, while the latest tests the text, hands it to
    [JSON.parse] and issues no request and no write. *)
Theorem first_revision_fetches (fuel : nat) (cfClient : CloudFormationClient) :
  (usable (T := list Stack) readFile falsy "stacks.cache.json" ->
   FirstRevision.cfDescribeStacks readFile falsy send fuel cfClient
     = cacheOrWork readFile CACHE_DIR "stacks.cache.json"
         (describeStacks send fuel cfClient)) /\
  (usable (T := list Export) readFile falsy "exports.cache.json" ->
   FirstRevision.cfListExports readFile falsy send fuel cfClient
     = cacheOrWork readFile CACHE_DIR "exports.cache.json"
         (listExports send fuel cfClient)) /\
  (forall e,
     readFile (joinPath CACHE_DIR "stacks.cache.json") = inr "" ->
     falsy "" = false ->
     JSON_parse (T := list Stack) "" = inl e -> e <> ENOENT ->
     FirstRevision.cfDescribeStacks readFile falsy send fuel cfClient = ([], Throw e) /\
     cacheOrWork readFile CACHE_DIR "stacks.cache.json" (describeStacks send fuel cfClient)
       = (fetched <- describeStacks send fuel cfClient ;;
          emit (WriteFile (joinPath CACHE_DIR "stacks.cache.json")
                  (JSON_stringify fetched)) ;;;
          ret fetched)) /\
  (forall contents,
     readFile (joinPath CACHE_DIR "stacks.cache.json") = inr contents ->
     contents <> "" -> falsy contents = true ->
     FirstRevision.cfDescribeStacks readFile falsy send fuel cfClient
       = (fetched <- describeStacks send fuel cfClient ;;
          emit (WriteFile (joinPath CACHE_DIR "stacks.cache.json")
                  (JSON_stringify fetched)) ;;;
          ret fetched) /\
     trace (cacheOrWork readFile CACHE_DIR "stacks.cache.json"
              (describeStacks send fuel cfClient)) = []).
Proof.
  split; [| split; [| split]].
  - intros Hu. unfold FirstRevision.cfDescribeStacks.
    rewrite <- (cached_or_fetched "stacks.cache.json" (describeStacks send fuel cfClient)
                  Hu).
    apply bind_ext. intros [allStacks |]; [reflexivity |].
    unfold describeStacks, consumeAllTokens.
    rewrite cfDescribeStacks_loop_consumeAllTokens. reflexivity.
  - intros Hu. unfold FirstRevision.cfListExports.
    rewrite <- (cached_or_fetched "exports.cache.json" (listExports send fuel cfClient)
                  Hu).
    apply bind_ext. intros [allExports |]; [reflexivity |].
    unfold listExports, consumeAllTokens.
    rewrite cfListExports_loop_consumeAllTokens. reflexivity.
  - intros e Hread Hfalsy Hparse Hne. split.
    + unfold FirstRevision.cfDescribeStacks.
      rewrite (parseJSONFileOrNull_rejected _ "" e Hread Hfalsy Hparse Hne). reflexivity.
    + apply cacheOrWork_miss. right. exact Hread.
  - intros contents Hread Hne Hfalsy. split.
    + unfold FirstRevision.cfDescribeStacks.
      rewrite (parseJSONFileOrNull_falsy _ contents Hread Hfalsy), bind_nil.
      unfold describeStacks, consumeAllTokens.
      rewrite cfDescribeStacks_loop_consumeAllTokens. reflexivity.
    + rewrite (cacheOrWork_hit readFile CACHE_DIR "stacks.cache.json" _ contents Hread
                 Hne).
      reflexivity.
Qed.

(** What the [catch] of [cfListImports] and of [listImports] makes of
    an error. *)
Lemma cfListImports_loop_consumeAllTokens (fuel : nat) (exportName : string)
  (cfClient : CloudFormationClient) (cacheFileName : path) :
  forall nextToken allImports,
  FirstRevision.cfListImports_loop send fuel exportName cfClient cacheFileName nextToken
    allImports
  = match consumeAllTokens_loop send fuel cfClient (ListImportsCommand exportName)
            Imports nextToken allImports with
    | (t, Return imports) =>
        ((t ++ [WriteFile cacheFileName (JSON_stringify imports)])%list, Return imports)
    | (t, Throw (CloudFormationServiceException name message)) =>
        if String.eqb message (notImported exportName) then (t, Return [])
        else (t, Throw (CloudFormationServiceException name message))
    | (t, Throw e) => (t, Throw e)
    | (t, Undetermined w) => (t, Undetermined w)
    end.
Proof.
  induction fuel as [| fuel IH]; intros nextToken allImports; [reflexivity |].
  cbn [FirstRevision.cfListImports_loop consumeAllTokens_loop].
  destruct (send cfClient (ListImportsCommand exportName nextToken)) as [e | r] eqn:Es.
  - rewrite (cfClient_send_inl send _ _ _ Es). cbn [bind try_catch].
    destruct e as [m | m | syscall code | name m | d]; try reflexivity.
    destruct (String.eqb m (notImported exportName)); reflexivity.
  - rewrite (cfClient_send_inr send _ _ _ Es). rewrite !bind_Return.
    cbn [try_catch trace outcome fst snd ret app]. rewrite bind_Return.
    destruct (truthy (NextToken r)).
    + rewrite IH.
      destruct (consumeAllTokens_loop send fuel cfClient (ListImportsCommand exportName)
                  Imports (NextToken r)
                  (match Imports r with
                   | Some partialResults => (allImports ++ partialResults)%list
                   | None => allImports
                   end)) as [t [imports | e | w]]; cbn [trace outcome fst snd];
        try reflexivity.
      destruct e as [m | m | syscall code | name m | d]; try reflexivity.
      destruct (String.eqb m (notImported exportName)); reflexivity.
    + reflexivity.
Qed.

(** X22. With nothing cached for an export, [cfListImports] of the
    first revision returns what [listImports] of the latest returns, or
    throws what it throws, after the same requests. It writes the
    imports to the cache when the API has listed them; when the API says
    that nothing imports the export, it returns the empty list from the
    [catch] and writes nothing, where the latest revision, which caches
    what [listImports] returns, writes the empty list. *)
Theorem first_revision_cfListImports (fuel : nat) (exportName : string)
  (cfClient : CloudFormationClient) :
  readFile (joinPath CACHE_DIR ("imports-" ++ exportName ++ ".cache.json")) = inl ENOENT ->
  outcome (FirstRevision.cfListImports readFile falsy send fuel exportName cfClient)
    = outcome (listImports send fuel cfClient exportName) /\
  (forall t imports,
     consumeAllTokens send fuel cfClient (ListImportsCommand exportName) Imports
       = (t, Return imports) ->
     FirstRevision.cfListImports readFile falsy send fuel exportName cfClient
       = ((t ++ [WriteFile
                   (joinPath CACHE_DIR ("imports-" ++ exportName ++ ".cache.json"))
                   (JSON_stringify imports)])%list,
          Return imports)) /\
  (forall t name,
     consumeAllTokens send fuel cfClient (ListImportsCommand exportName) Imports
       = (t, Throw (CloudFormationServiceException name (notImported exportName))) ->
     FirstRevision.cfListImports readFile falsy send fuel exportName cfClient = (t, Return []) /\
     forall cache key,
       nothingCached readFile (joinPath cache key) ->
       cacheOrWork readFile cache key (listImports send fuel cfClient exportName)
         = ((t ++ [WriteFile (joinPath cache key) (JSON_stringify (@nil string))])%list,
            Return [])).
Proof.
  intros Hread.
  assert (Heq :
    FirstRevision.cfListImports readFile falsy send fuel exportName cfClient
    = FirstRevision.cfListImports_loop send fuel exportName cfClient
        (joinPath CACHE_DIR ("imports-" ++ exportName ++ ".cache.json")) None []).
  { unfold FirstRevision.cfListImports.
    rewrite (parseJSONFileOrNull_ENOENT _ Hread), bind_nil. reflexivity. }
  rewrite Heq, cfListImports_loop_consumeAllTokens.
  unfold listImports, consumeAllTokens.
  split; [| split].
  - destruct (consumeAllTokens_loop send fuel cfClient (ListImportsCommand exportName)
                Imports None []) as [t [imports | e | w]]; try reflexivity.
    destruct e as [m | m | syscall code | name m | d]; try reflexivity.
    cbn [try_catch]. destruct (String.eqb m (notImported exportName)); reflexivity.
  - intros t imports H. rewrite H. reflexivity.
  - intros t name H. rewrite H. rewrite String.eqb_refl. split; [reflexivity |].
    intros cache key Hcold.
    rewrite (cacheOrWork_miss readFile cache key _ Hcold).
    cbn [try_catch]. rewrite String.eqb_refl. cbn [ret].
    rewrite app_nil_r, bind_Return, bind_emit. reflexivity.
Qed.

End Revisions.

Lemma getNodeNameForApp_suffix stack regionConfig node :
  getNodeNameForApp stack regionConfig = Return node ->
  exists base, node = base ++ regionSuffix regionConfig.
Proof.
  unfold getNodeNameForApp.
  destruct (getTagValue stack "balsamiq-product") as [appName | |]; [| discriminate ..].
  destruct (getTagValue stack "environment") as [environment | |]; [| discriminate ..].
  cbn [cbind]. destruct (truthy appName && truthy environment).
  - intros H. injection H as <-.
    exists (template appName ++ "-" ++ template environment).
    rewrite !append_associative. reflexivity.
  - destruct (truthy (StackName stack)); [| discriminate].
    intros H. injection H as <-. exists (template (StackName stack)). reflexivity.
Qed.

Lemma getNodeNameForStack_suffix stack regionConfig node :
  getNodeNameForStack stack regionConfig = Return node ->
  exists base, node = base ++ regionSuffix regionConfig.
Proof.
  intros H. destruct (getNodeNameForStack_Return _ _ _ H) as [_ ->].
  exists (template (StackName stack)). reflexivity.
Qed.

Lemma writePlaceholders_marked regionConfig apps stack :
  Forall (marked (regionSuffix regionConfig))
    (trace (writePlaceholders regionConfig apps stack)).
Proof.
  unfold writePlaceholders. apply Forall_trace_bind.
  - destruct (multipleApps apps); [| constructor].
    destruct (getNodeNameForApp stack regionConfig) as [node | |] eqn:E;
      [| constructor ..].
    rewrite bind_lift. apply Forall_trace_emit.
    destruct (getNodeNameForApp_suffix _ _ _ E) as (base & ->).
    exists APP_OUTPUT_DIR, base. reflexivity.
  - intros _.
    destruct (getNodeNameForStack stack regionConfig) as [node | |] eqn:E;
      [| constructor ..].
    rewrite bind_lift. apply Forall_trace_emit.
    destruct (getNodeNameForStack_suffix _ _ _ E) as (base & ->).
    exists STACK_OUTPUT_DIR, base. reflexivity.
Qed.

Lemma appendDeclarations_marked regionConfig apps eexport eStack iStack :
  Forall (marked (regionSuffix regionConfig))
    (trace (appendDeclarations regionConfig apps eexport eStack iStack)).
Proof.
  unfold appendDeclarations. apply Forall_trace_bind.
  - destruct (multipleApps apps); [| constructor].
    destruct (getNodeNameForApp eStack regionConfig) as [ne | |] eqn:Ee;
      [| constructor ..].
    rewrite bind_lift.
    destruct (getNodeNameForApp iStack regionConfig) as [ni | |] eqn:Ei;
      [| constructor ..].
    rewrite bind_lift.
    destruct (negb (String.eqb ne ni)); [| constructor].
    apply Forall_trace_emit.
    destruct (getNodeNameForApp_suffix _ _ _ Ee) as (be & ->).
    destruct (getNodeNameForApp_suffix _ _ _ Ei) as (bi & ->).
    split; [exists APP_OUTPUT_DIR, bi | exists be, (Name eexport)]; reflexivity.
  - intros _.
    destruct (getNodeNameForStack eStack regionConfig) as [ne | |] eqn:Ee;
      [| constructor ..].
    rewrite bind_lift.
    destruct (getNodeNameForStack iStack regionConfig) as [ni | |] eqn:Ei;
      [| constructor ..].
    rewrite bind_lift.
    destruct (negb (String.eqb ne ni)); [| constructor].
    apply Forall_trace_emit.
    destruct (getNodeNameForStack_suffix _ _ _ Ee) as (be & ->).
    destruct (getNodeNameForStack_suffix _ _ _ Ei) as (bi & ->).
    split; [exists STACK_OUTPUT_DIR, bi | exists be, (Name eexport)]; reflexivity.
Qed.

(** X23. Every unit file that [emitGraph] writes or appends to for a
    region is named after a node whose name ends with the suffix of the
    region, and every require line names such a node. For the implicit
    region the suffix is the region in brackets, so that what is written
    for us-east-1 in the second pass of [main] is told apart from the
    first pass by its name; for a region that is not implicit the suffix
    is empty. *)
Theorem emitGraph_marks_the_region (stacks : Map Stack)
  (exportsWithImportingStacks : list (Export * list string))
  (regionConfig : RegionConfiguration) (environment : string)
  (apps : option (list string)) (includes : option (list IncludeOptionChoice)) :
  Forall (marked (regionSuffix regionConfig))
    (trace (emitGraph stacks exportsWithImportingStacks regionConfig environment
              apps includes)) /\
  regionSuffix (mkRegionConfiguration (Some "us-east-1") true) = " (us-east-1)" /\
  regionSuffix (mkRegionConfiguration (region regionConfig) false) = "".
Proof.
  split; [| split; reflexivity].
  unfold emitGraph. apply Forall_trace_bind; [constructor |].
  intros interestingStacks. apply Forall_trace_bind.
  - apply Forall_trace_for_of. intros stack _. apply writePlaceholders_marked.
  - intros _. apply Forall_trace_for_of. intros [eexport imports] _.
    unfold processExport.
    destruct (negb (truthy (ExportingStackId eexport))); [constructor |].
    destruct (Map_get _ stacks) as [exportingStack|]; [| constructor].
    apply Forall_trace_bind; [constructor |].
    intros [|]; simpl; [| constructor].
    apply Forall_trace_for_of. intros iimport _. unfold processImport.
    destruct (Map_get iimport stacks) as [importingStack|]; [| constructor].
    apply Forall_trace_bind; [constructor |].
    intros [|]; simpl; [| constructor].
    apply appendDeclarations_marked.
Qed.

(* ------------------------------------------------------------------ *)
(** ** The further properties on the account *)

Lemma getStacks_lists_each_stack_twice_witness :
  getStacks noFile account_send 5 CACHE_DIR (Some "eu-west-1") (Some "eu-west-1")
    = ([Send (Some "eu-west-1") (DescribeStacksCommand None);
        Send (Some "eu-west-1") (DescribeStacksCommand (Some "2"));
        WriteFile (joinPath CACHE_DIR "eu-west-1_stacks.cache.json")
          (JSON_stringify fetchedStacks)],
       Return (entriesOf fetchedStacks)) /\
  Map_values (entriesOf fetchedStacks)
    = [bas_config; bas_config; bas_app; bas_app; rtc_app; rtc_app; bas_mysql; bas_mysql].
Proof.
  assert (Hfetch :
    cacheOrWork noFile CACHE_DIR (template (Some "eu-west-1") ++ "_stacks.cache.json")
      (describeStacks account_send 5 (Some "eu-west-1"))
    = ([Send (Some "eu-west-1") (DescribeStacksCommand None);
        Send (Some "eu-west-1") (DescribeStacksCommand (Some "2"));
        WriteFile (joinPath CACHE_DIR "eu-west-1_stacks.cache.json")
          (JSON_stringify fetchedStacks)],
       Return fetchedStacks)) by run.
  assert (Hkeys : nodup string_dec (keysOf fetchedStacks) = keysOf fetchedStacks) by run.
  apply (getStacks_lists_each_stack_twice noFile account_send 5 CACHE_DIR
           (Some "eu-west-1") (Some "eu-west-1") _ fetchedStacks Hfetch).
  - intros stack [<- | [<- | [<- | [<- | []]]]]; split; reflexivity.
  - rewrite <- Hkeys. apply NoDup_nodup.
Defined.

Lemma getStacks_map_invariant_witness :
  exists fetched,
    cacheOrWork noFile CACHE_DIR (template (Some "eu-west-1") ++ "_stacks.cache.json")
      (describeStacks account_send 5 (Some "eu-west-1"))
    = ([Send (Some "eu-west-1") (DescribeStacksCommand None);
        Send (Some "eu-west-1") (DescribeStacksCommand (Some "2"));
        WriteFile (joinPath CACHE_DIR "eu-west-1_stacks.cache.json")
          (JSON_stringify fetchedStacks)],
       Return fetched) /\
    NoDup (map fst accountStacks) /\
    (forall key stack, Map_get key accountStacks = Some stack ->
       In stack fetched /\ has_key key stack = true) /\
    (forall stack, In stack (Map_values accountStacks) ->
       In stack fetched /\
       truthy (StackId stack) = true /\ truthy (StackName stack) = true) /\
    length accountStacks <= 2 * length fetched.
Proof.
  assert (Hrun :
    getStacks noFile account_send 5 CACHE_DIR (Some "eu-west-1") (Some "eu-west-1")
    = ([Send (Some "eu-west-1") (DescribeStacksCommand None);
        Send (Some "eu-west-1") (DescribeStacksCommand (Some "2"));
        WriteFile (joinPath CACHE_DIR "eu-west-1_stacks.cache.json")
          (JSON_stringify fetchedStacks)],
       Return accountStacks)) by run.
  exact (getStacks_map_invariant noFile account_send 5 CACHE_DIR
           (Some "eu-west-1") (Some "eu-west-1") _ accountStacks Hrun).
Defined.

Lemma consumeAllTokens_failing_page_witness :
  consumeAllTokens interrupted_send 5 (Some "eu-west-1") DescribeStacksCommand Stacks
    = ([Send (Some "eu-west-1") (DescribeStacksCommand None);
        Send (Some "eu-west-1") (DescribeStacksCommand (Some "2"))],
       Throw (CloudFormationServiceException "Throttling" "Rate exceeded")) /\
  listImports interrupted_send 5 (Some "eu-west-1") "bas-staging-config:url"
    = ([Send (Some "eu-west-1") (ListImportsCommand "bas-staging-config:url" None);
        Send (Some "eu-west-1") (ListImportsCommand "bas-staging-config:url" (Some "2"))],
       Return []).
Proof.
  assert (Hstacks :
    failsAfter interrupted_send (Some "eu-west-1") DescribeStacksCommand None
      [stacksPage1] (CloudFormationServiceException "Throttling" "Rate exceeded")).
  { apply fails_later; [reflexivity | reflexivity |]. apply fails_now. reflexivity. }
  assert (Himports :
    failsAfter interrupted_send (Some "eu-west-1")
      (ListImportsCommand "bas-staging-config:url") None [importsPage1]
      (CloudFormationServiceException "ValidationError"
         (notImported "bas-staging-config:url"))).
  { apply fails_later; [reflexivity | reflexivity |]. apply fails_now. reflexivity. }
  split.
  - exact (proj1 (consumeAllTokens_failing_page interrupted_send) Stack
             (Some "eu-west-1") DescribeStacksCommand Stacks [stacksPage1] _ 5
             Hstacks (le_S _ _ (le_S _ _ (le_S _ _ (le_n 2))))).
  - exact (proj2 (consumeAllTokens_failing_page interrupted_send)
             (Some "eu-west-1") "bas-staging-config:url" [importsPage1] _ 5
             Himports (le_S _ _ (le_S _ _ (le_S _ _ (le_n 2))))).
Defined.

Lemma consumeAllTokens_endless_witness :
  (exists t,
     consumeAllTokens endless_send 3 (Some "eu-west-1") DescribeStacksCommand Stacks
       = (t, Undetermined "fuel") /\
     length t = 3 /\
     Forall (fun ev => exists tok, ev = Send (Some "eu-west-1") (DescribeStacksCommand tok))
       t) /\
  (exists t,
     listImports endless_send 3 (Some "eu-west-1") "bas-staging-config:url"
       = (t, Undetermined "fuel") /\
     length t = 3).
Proof.
  split.
  - apply (proj1 (consumeAllTokens_endless endless_send)).
    intros token. eexists. split; reflexivity.
  - apply (proj2 (consumeAllTokens_endless endless_send)).
    intros token. eexists. split; reflexivity.
Defined.

Lemma cacheOrWork_unusable_cache_witness :
  cacheOrWork unreadable CACHE_DIR "eu-west-1_exports.cache.json"
    (listExports account_send 5 (Some "eu-west-1"))
    = ([], Throw (SystemError "open" "EACCES")) /\
  cacheOrWork truncated CACHE_DIR "eu-west-1_exports.cache.json"
    (listExports account_send 5 (Some "eu-west-1"))
    = ([], Throw (SyntaxError "Unexpected token in JSON")).
Proof.
  split.
  - apply (proj1 (cacheOrWork_unusable_cache unreadable CACHE_DIR
                    "eu-west-1_exports.cache.json"
                    (listExports account_send 5 (Some "eu-west-1")))).
    + reflexivity.
    + discriminate.
  - apply (proj2 (cacheOrWork_unusable_cache truncated CACHE_DIR
                    "eu-west-1_exports.cache.json"
                    (listExports account_send 5 (Some "eu-west-1"))) "[").
    + reflexivity.
    + discriminate.
    + reflexivity.
Defined.

Lemma cacheOrWork_round_trip_witness :
  cacheOrWork (filesAfter accountFetch) CACHE_DIR "eu-west-1_exports.cache.json"
    (listExports endless_send 0 (Some "eu-west-1"))
    = ([], Return [config_url; rtc_queue]).
Proof.
  assert (Hrun :
    cacheOrWork noFile CACHE_DIR "eu-west-1_exports.cache.json"
      (listExports account_send 5 (Some "eu-west-1"))
    = ([Send (Some "eu-west-1") (ListExportsCommand None);
        WriteFile (joinPath CACHE_DIR "eu-west-1_exports.cache.json")
          (JSON_stringify [config_url; rtc_queue])],
       Return [config_url; rtc_queue])) by run.
  assert (Hparse :
    JSON_parse (JSON_stringify [config_url; rtc_queue]) = inr [config_url; rtc_queue])
    by run.
  apply (cacheOrWork_round_trip noFile (filesAfter accountFetch) CACHE_DIR
           "eu-west-1_exports.cache.json"
           (listExports account_send 5 (Some "eu-west-1"))
           (listExports endless_send 0 (Some "eu-west-1")) _ _
           (or_introl eq_refl) Hrun).
  - split; [exact Hparse | vm_compute; discriminate].
  - intros data [H | [H | []]]; [discriminate H |].
    injection H as <-. vm_compute. reflexivity.
Defined.

Lemma account_cached :
  cached (JSON_Stacks := account_Stacks) (filesAfter accountFetch) CACHE_DIR
    (Some "eu-west-1") fetchedStacks accountExports.
Proof.
  assert (Hholds : forall (T : Type) (J : JSON T) (key : string) (value : T),
            filesAfter accountFetch (joinPath CACHE_DIR key) = inr (JSON_stringify value) ->
            JSON_stringify value <> "" ->
            JSON_parse (JSON_stringify value) = inr value ->
            holds (filesAfter accountFetch) CACHE_DIR key value).
  { intros T J key value H1 H2 H3. exists (JSON_stringify value). auto. }
  split; [| split; [| apply Forall_cons; [| apply Forall_cons; [| apply Forall_nil]]]];
    (apply Hholds; [vm_compute; reflexivity | vm_compute; discriminate
                   | vm_compute; reflexivity]).
Qed.

Lemma processCloudFormation_warm_cache_witness :
  Forall unitFileOperation
    (trace (processCloudFormation (JSON_Stacks := account_Stacks)
              (filesAfter accountFetch) endless_send 0 CACHE_DIR
              eu_west_1 "staging" None None)) /\
  (forall cfClient c,
     ~ In (Send cfClient c)
         (trace (processCloudFormation (JSON_Stacks := account_Stacks)
              (filesAfter accountFetch) endless_send 0 CACHE_DIR
                   eu_west_1 "staging" None None))).
Proof.
  exact (proj2 (processCloudFormation_warm_cache (JSON_Stacks := account_Stacks)
                  (filesAfter accountFetch) endless_send 0
                  CACHE_DIR eu_west_1 "staging" None None fetchedStacks accountExports
                  account_cached)).
Defined.

Lemma account_listImports exportName t imports :
  listImports account_send 5 (Some "eu-west-1") exportName = (t, Return imports) ->
  imports = ["bas-staging-app"; "rtc-staging-app"; "bas-staging-mysql"] \/ imports = [].
Proof.
  unfold listImports, consumeAllTokens. cbn [consumeAllTokens_loop].
  unfold cfClient_send.
  change (account_send (Some "eu-west-1") (ListImportsCommand exportName None))
    with (if String.eqb exportName "bas-staging-config:url"
          then inr (mkResponse None None
                      (Some ["bas-staging-app"; "rtc-staging-app"; "bas-staging-mysql"])
                      None)
          else inl (CloudFormationServiceException "ValidationError"
                      (notImported exportName))).
  destruct (String.eqb exportName "bas-staging-config:url").
  - intros H. injection H as _ <-. left. reflexivity.
  - cbn [settle lift emit bind try_catch app]. rewrite String.eqb_refl.
    intros H. injection H as _ <-. right. reflexivity.
Qed.

Lemma processCloudFormation_second_run_witness :
  exists tf te,
    (accountFetch
     ++ [WriteFile (unitFile STACK_OUTPUT_DIR "bas-staging-config") "";
         WriteFile (unitFile STACK_OUTPUT_DIR "bas-staging-config") "";
         WriteFile (unitFile STACK_OUTPUT_DIR "bas-staging-app") "";
         WriteFile (unitFile STACK_OUTPUT_DIR "bas-staging-app") "";
         AppendFile (unitFile STACK_OUTPUT_DIR "bas-staging-app")
           (requireLine "bas-staging-config" (Some "bas-staging-config:url"))])%list
      = (tf ++ te)%list /\
    Forall (fetching CACHE_DIR) tf /\
    Forall unitFileOperation te /\
    forall fuel',
      processCloudFormation (JSON_Stacks := account_Stacks) (filesAfter accountFetch)
        endless_send fuel' CACHE_DIR eu_west_1 "staging" (Some ["bas"]) None
        = (te, Return tt).
Proof.
  assert (Hrun :
    processCloudFormation (JSON_Stacks := account_Stacks) noFile account_send 5
      CACHE_DIR eu_west_1 "staging" (Some ["bas"]) None
    = ((accountFetch
        ++ [WriteFile (unitFile STACK_OUTPUT_DIR "bas-staging-config") "";
            WriteFile (unitFile STACK_OUTPUT_DIR "bas-staging-config") "";
            WriteFile (unitFile STACK_OUTPUT_DIR "bas-staging-app") "";
            WriteFile (unitFile STACK_OUTPUT_DIR "bas-staging-app") "";
            AppendFile (unitFile STACK_OUTPUT_DIR "bas-staging-app")
              (requireLine "bas-staging-config" (Some "bas-staging-config:url"))])%list,
       Return tt)) by run.
  apply (processCloudFormation_second_run (JSON_Stacks := account_Stacks)
           noFile (filesAfter accountFetch) account_send endless_send 5 CACHE_DIR
           eu_west_1 "staging" (Some ["bas"]) None _ (fun key => or_introl eq_refl) Hrun).
  - intros t' fetched H. vm_compute in H. injection H as _ <-.
    split; [vm_compute; reflexivity | vm_compute; discriminate].
  - intros t' exports H. vm_compute in H. injection H as _ <-.
    split; [vm_compute; reflexivity | vm_compute; discriminate].
  - intros exportName t' imports H.
    destruct (account_listImports exportName t' imports H) as [-> | ->];
      (split; [vm_compute; reflexivity | vm_compute; discriminate]).
  - intros key data H.
    repeat (destruct H as [H | H];
            [vm_compute in H;
             first [discriminate H
                   | injection H as <- <-; vm_compute; reflexivity] |]).
    destruct H.
Defined.

Lemma getExportsWithImportingStacks_entries_witness :
  map fst accountExports = [config_url; rtc_queue] /\
  getExportsWithImportingStacks noFile account_send 5 [config_url; nameless; rtc_queue]
    CACHE_DIR (Some "eu-west-1") (Some "eu-west-1")
    = ([Send (Some "eu-west-1") (ListImportsCommand "bas-staging-config:url" None);
        WriteFile (joinPath CACHE_DIR "eu-west-1_cfListImports-bas-staging-config:url")
          (JSON_stringify ["bas-staging-app"; "rtc-staging-app"; "bas-staging-mysql"])],
       Throw invalidExport) /\
  importsOf noFile account_send 5 CACHE_DIR (Some "eu-west-1") (Some "eu-west-1") nameless
    = ([], Throw invalidExport).
Proof.
  assert (Hall :
    getExportsWithImportingStacks noFile account_send 5 [config_url; rtc_queue]
      CACHE_DIR (Some "eu-west-1") (Some "eu-west-1")
    = ([Send (Some "eu-west-1") (ListImportsCommand "bas-staging-config:url" None);
        WriteFile (joinPath CACHE_DIR "eu-west-1_cfListImports-bas-staging-config:url")
          (JSON_stringify ["bas-staging-app"; "rtc-staging-app"; "bas-staging-mysql"]);
        Send (Some "eu-west-1") (ListImportsCommand "rtc-staging-app:queue" None);
        WriteFile (joinPath CACHE_DIR "eu-west-1_cfListImports-rtc-staging-app:queue")
          (JSON_stringify (@nil string))],
       Return accountExports)) by run.
  assert (Hbefore :
    getExportsWithImportingStacks noFile account_send 5 [config_url]
      CACHE_DIR (Some "eu-west-1") (Some "eu-west-1")
    = ([Send (Some "eu-west-1") (ListImportsCommand "bas-staging-config:url" None);
        WriteFile (joinPath CACHE_DIR "eu-west-1_cfListImports-bas-staging-config:url")
          (JSON_stringify ["bas-staging-app"; "rtc-staging-app"; "bas-staging-mysql"])],
       Return [(config_url, ["bas-staging-app"; "rtc-staging-app"; "bas-staging-mysql"])]))
    by run.
  pose proof (getExportsWithImportingStacks_entries noFile account_send 5 CACHE_DIR
                (Some "eu-west-1") (Some "eu-west-1")) as (Ha & Hb & Hc).
  pose proof (Hc nameless eq_refl (or_introl eq_refl)) as Hnameless.
  assert (Hnames : NoDup (map (fun eexport => template (Name eexport))
                            [config_url; rtc_queue])).
  { constructor; [intros [H | []]; discriminate H |].
    constructor; [intros [] | constructor]. }
  assert (Hnames' : NoDup (map (fun eexport => template (Name eexport))
                             ([config_url] ++ [nameless]))).
  { constructor; [intros [H | []]; discriminate H |].
    constructor; [intros [] | constructor]. }
  split; [exact (proj1 (Ha _ _ _ Hnames Hall)) |]. split; [| exact Hnameless].
  exact (Hb [config_url] nameless [rtc_queue] _ _ _ _ Hnames' Hbefore Hnameless).
Defined.

Lemma emitGraph_returns_iff_witness :
  (exists t,
     emitGraph accountStacks accountExports eu_west_1 "staging" None None
       = (t, Return tt)) /\
  Forall (resolved accountStacks "staging" None None) accountExports.
Proof.
  assert (Hrun :
    emitGraph accountStacks accountExports eu_west_1 "staging" None None
    = (trace (emitGraph accountStacks accountExports eu_west_1 "staging" None None),
       Return tt)) by run.
  pose proof (proj1 (emitGraph_returns_iff accountStacks accountExports eu_west_1
                       "staging" None None) (ex_intro _ _ Hrun)) as H.
  split.
  - exact (proj2 (emitGraph_returns_iff accountStacks accountExports eu_west_1
                    "staging" None None) H).
  - exact (proj2 (proj2 H)).
Defined.

Lemma processCloudFormation_closed_graph_witness :
  (exists outputDir exportingNode importingNode exportName,
     (outputDir = APP_OUTPUT_DIR \/ outputDir = STACK_OUTPUT_DIR) /\
     unitFile STACK_OUTPUT_DIR "bas-staging-app" = unitFile outputDir importingNode /\
     requireLine "bas-staging-config" (Some "bas-staging-config:url")
       = requireLine exportingNode exportName /\
     In (WriteFile (unitFile outputDir importingNode) "")
       (accountFetch
        ++ [WriteFile (unitFile STACK_OUTPUT_DIR "bas-staging-config") "";
            WriteFile (unitFile STACK_OUTPUT_DIR "bas-staging-config") "";
            WriteFile (unitFile STACK_OUTPUT_DIR "bas-staging-app") "";
            WriteFile (unitFile STACK_OUTPUT_DIR "bas-staging-app") ""])%list /\
     In (WriteFile (unitFile outputDir exportingNode) "")
       (accountFetch
        ++ [WriteFile (unitFile STACK_OUTPUT_DIR "bas-staging-config") "";
            WriteFile (unitFile STACK_OUTPUT_DIR "bas-staging-config") "";
            WriteFile (unitFile STACK_OUTPUT_DIR "bas-staging-app") "";
            WriteFile (unitFile STACK_OUTPUT_DIR "bas-staging-app") ""])%list) /\
  Forall (fun ev => isAppendFile ev = true) [].
Proof.
  assert (Hrun :
    processCloudFormation noFile account_send 5 CACHE_DIR eu_west_1 "staging"
      (Some ["bas"]) None
    = ((accountFetch
        ++ [WriteFile (unitFile STACK_OUTPUT_DIR "bas-staging-config") "";
            WriteFile (unitFile STACK_OUTPUT_DIR "bas-staging-config") "";
            WriteFile (unitFile STACK_OUTPUT_DIR "bas-staging-app") "";
            WriteFile (unitFile STACK_OUTPUT_DIR "bas-staging-app") "";
            AppendFile (unitFile STACK_OUTPUT_DIR "bas-staging-app")
              (requireLine "bas-staging-config" (Some "bas-staging-config:url"))])%list,
       Return tt)) by run.
  assert (Ht :
    (accountFetch
     ++ [WriteFile (unitFile STACK_OUTPUT_DIR "bas-staging-config") "";
         WriteFile (unitFile STACK_OUTPUT_DIR "bas-staging-config") "";
         WriteFile (unitFile STACK_OUTPUT_DIR "bas-staging-app") "";
         WriteFile (unitFile STACK_OUTPUT_DIR "bas-staging-app") "";
         AppendFile (unitFile STACK_OUTPUT_DIR "bas-staging-app")
           (requireLine "bas-staging-config" (Some "bas-staging-config:url"))])%list
    = ((accountFetch
        ++ [WriteFile (unitFile STACK_OUTPUT_DIR "bas-staging-config") "";
            WriteFile (unitFile STACK_OUTPUT_DIR "bas-staging-config") "";
            WriteFile (unitFile STACK_OUTPUT_DIR "bas-staging-app") "";
            WriteFile (unitFile STACK_OUTPUT_DIR "bas-staging-app") ""])
       ++ AppendFile (unitFile STACK_OUTPUT_DIR "bas-staging-app")
            (requireLine "bas-staging-config" (Some "bas-staging-config:url")) :: [])%list)
    by reflexivity.
  exact (processCloudFormation_closed_graph noFile account_send 5 CACHE_DIR eu_west_1
           "staging" (Some ["bas"]) None _ _ _ _ _ Hrun Ht).
Defined.


Lemma getNodeNameForStack_injective_witness :
  ("bas-staging-config" = "bas-staging-app" <-> StackName bas_config = StackName bas_app) /\
  (forall eexport,
     stackDeclaration us_east_1_implicit eexport bas_config bas_app = [] <->
     StackName bas_config = StackName bas_app) /\
  stackDeclaration us_east_1_implicit config_url bas_config bas_app
    = [AppendFile (unitFile STACK_OUTPUT_DIR "bas-staging-app (us-east-1)")
         (requireLine "bas-staging-config (us-east-1)" (Some "bas-staging-config:url"))].
Proof.
  pose proof (getNodeNameForStack_injective us_east_1_implicit bas_config bas_app
                "bas-staging-config (us-east-1)" "bas-staging-app (us-east-1)"
                eq_refl eq_refl) as (H1 & H2 & H3).
  split; [| split; [exact H2 |]].
  - split; [discriminate |]. intros H. apply (proj2 H1) in H. discriminate H.
  - apply (H3 config_url). discriminate.
Defined.

Lemma getNodeNameForApp_returns_iff_witness :
  (exists node, getNodeNameForApp untagged eu_west_1 = Return node) /\
  getNodeNameForApp valueless eu_west_1 = Throw invalidTag /\
  getNodeNameForStack valueless eu_west_1 = Return "vpc-staging".
Proof.
  split; [| split; [| reflexivity]].
  - apply (proj1 (getNodeNameForApp_returns_iff untagged eu_west_1)).
    split; [left; exists []; split; reflexivity |].
    split; [left; exists []; split; reflexivity |].
    right. reflexivity.
  - apply (proj2 (proj2 (getNodeNameForApp_returns_iff valueless eu_west_1))
             [mkTag (Some "environment") None] (mkTag (Some "environment") None)
             "environment" eq_refl (or_intror eq_refl) eq_refl eq_refl).
Defined.

Lemma isInterestingStack_monotone_witness :
  isInterestingStack bas_mysql "staging" None (Some [redis; mysql]) = Return true /\
  isInterestingStack bas_config "staging" None None = Return true.
Proof.
  split.
  - apply (proj1 (isInterestingStack_monotone bas_mysql "staging" None (Some [mysql])
                    (Some [redis; mysql]))).
    + intros choice (l & Hl & Hin). injection Hl as <-.
      exists [redis; mysql]. split; [reflexivity |].
      destruct Hin as [<- | []]. right. left. reflexivity.
    + reflexivity.
  - apply (proj2 (isInterestingStack_monotone bas_config "staging" (Some ["bas"]) None
                    None)).
    reflexivity.
Defined.

Lemma bas_config_not_excluded : ~ excluded bas_config "bas-staging-config" None.
Proof.
  intros [H | [H | [H | [H | [H | [[H _] | [H _]]]]]]].
  - discriminate H.
  - apply H. reflexivity.
  - apply (proj2 (test_startsWith "internal-" "bas-staging-config")) in H.
    vm_compute in H. discriminate H.
  - discriminate H.
  - apply (proj2 (test_startsWith_one_of excludedApps "bas-staging-config"
                    ltac:(discriminate))) in H.
    vm_compute in H. discriminate H.
  - apply (proj2 (test_endsWith "-mysql" "bas-staging-config")) in H.
    vm_compute in H. discriminate H.
  - apply (proj2 (test_endsWith "-redis" "bas-staging-config")) in H.
    vm_compute in H. discriminate H.
Qed.

Lemma isInterestingStack_excluded_witness :
  isInterestingStack toolkit "(" (Some ["("]) None = Return false /\
  isInterestingStack bas_config "(" None None
    = Throw (invalidRegExp "-(-|-($" "Unterminated group").
Proof.
  split.
  - apply (proj1 (isInterestingStack_excluded toolkit "CDKToolkit" None eq_refl
                    ltac:(discriminate))).
    left. reflexivity.
  - apply (proj2 (isInterestingStack_excluded bas_config "bas-staging-config" None
                    eq_refl ltac:(discriminate)) bas_config_not_excluded).
    reflexivity.
Defined.

Lemma first_revision_filter_and_names_witness :
  FirstRevision.getNodeNameForApp bas_config = getNodeNameForApp bas_config eu_west_1 /\
  FirstRevision.getNodeNameForStack bas_config = getNodeNameForStack bas_config eu_west_1.
Proof.
  exact (proj2 (proj2 first_revision_filter_and_names) bas_config eu_west_1 eq_refl).
Defined.

Lemma first_revision_main_witness :
  FirstRevision.main noFile falsyText mkdir_done account_send 5 "staging" None
  = (FirstRevision.await_mkdir mkdir_done CACHE_DIR ;;;
     FirstRevision.await_mkdir mkdir_done APP_OUTPUT_DIR ;;;
     FirstRevision.await_mkdir mkdir_done STACK_OUTPUT_DIR ;;;
     stacks <- FirstRevision.getStacks noFile falsyText account_send 5 None ;;
     exports <- FirstRevision.cfListExports noFile falsyText account_send 5 None ;;
     exportsWithImportingStacks <-
       FirstRevision.getExportsWithImportingStacks noFile falsyText account_send 5 exports None ;;
     emitGraph stacks exportsWithImportingStacks eu_west_1 "staging" None None ;;;
     emit (MadgeImage APP_OUTPUT_DIR "graph-apps.png") ;;;
     emit (MadgeImage STACK_OUTPUT_DIR "graph-stacks.png")).
Proof.
  exact (first_revision_main noFile falsyText mkdir_done account_send 5 "staging" None eu_west_1
           eq_refl).
Defined.

Lemma first_revision_fetches_witness :
  FirstRevision.cfDescribeStacks (JSON_Stacks := account_Stacks) noFile falsyText
    account_send 5 (Some "eu-west-1")
    = cacheOrWork (H := account_Stacks) noFile CACHE_DIR "stacks.cache.json"
        (describeStacks account_send 5 (Some "eu-west-1")) /\
  FirstRevision.cfListExports noFile falsyText account_send 5 (Some "eu-west-1")
    = cacheOrWork noFile CACHE_DIR "exports.cache.json"
        (listExports account_send 5 (Some "eu-west-1")) /\
  FirstRevision.cfDescribeStacks (JSON_Stacks := account_Stacks) emptyFile falsyText
    account_send 5 (Some "eu-west-1")
    = ([], Throw (SyntaxError "Unexpected end of JSON input")) /\
  FirstRevision.cfDescribeStacks (JSON_Stacks := account_Stacks) nullFile falsyText
    account_send 5 (Some "eu-west-1")
    = ([Send (Some "eu-west-1") (DescribeStacksCommand None);
        Send (Some "eu-west-1") (DescribeStacksCommand (Some "2"));
        WriteFile (joinPath CACHE_DIR "stacks.cache.json")
          (JSON_stringify fetchedStacks)],
       Return fetchedStacks) /\
  trace (cacheOrWork (H := account_Stacks) nullFile CACHE_DIR "stacks.cache.json"
           (describeStacks account_send 5 (Some "eu-west-1"))) = [].
Proof.
  pose proof (first_revision_fetches (JSON_Stacks := account_Stacks) noFile falsyText
                account_send 5 (Some "eu-west-1")) as (Hs & He & _).
  pose proof (first_revision_fetches (JSON_Stacks := account_Stacks) emptyFile falsyText
                account_send 5 (Some "eu-west-1")) as (_ & _ & Hempty & _).
  pose proof (first_revision_fetches (JSON_Stacks := account_Stacks) nullFile falsyText
                account_send 5 (Some "eu-west-1")) as (_ & _ & _ & Hnull).
  assert (Hfetch :
    (fetched <- describeStacks account_send 5 (Some "eu-west-1") ;;
     emit (WriteFile (joinPath CACHE_DIR "stacks.cache.json")
             (JSON_stringify (JSON := account_Stacks) fetched)) ;;;
     ret fetched)
    = ([Send (Some "eu-west-1") (DescribeStacksCommand None);
        Send (Some "eu-west-1") (DescribeStacksCommand (Some "2"));
        WriteFile (joinPath CACHE_DIR "stacks.cache.json")
          (JSON_stringify fetchedStacks)],
       Return fetchedStacks)) by run.
  split; [| split; [| split; [| split]]].
  - apply Hs. left. eexists. reflexivity.
  - apply He. left. eexists. reflexivity.
  - apply (Hempty (SyntaxError "Unexpected end of JSON input"));
      [reflexivity | reflexivity | | discriminate].
    vm_compute. reflexivity.
  - rewrite <- Hfetch.
    exact (proj1 (Hnull "null" eq_refl ltac:(discriminate) eq_refl)).
  - exact (proj2 (Hnull "null" eq_refl ltac:(discriminate) eq_refl)).
Defined.

Lemma first_revision_cfListImports_witness :
  FirstRevision.cfListImports noFile falsyText account_send 5 "rtc-staging-app:queue"
    (Some "eu-west-1")
    = ([Send (Some "eu-west-1") (ListImportsCommand "rtc-staging-app:queue" None)],
       Return []) /\
  cacheOrWork noFile CACHE_DIR "eu-west-1_cfListImports-rtc-staging-app:queue"
    (listImports account_send 5 (Some "eu-west-1") "rtc-staging-app:queue")
    = ([Send (Some "eu-west-1") (ListImportsCommand "rtc-staging-app:queue" None);
        WriteFile (joinPath CACHE_DIR "eu-west-1_cfListImports-rtc-staging-app:queue")
          (JSON_stringify (@nil string))],
       Return []).
Proof.
  assert (Hrun :
    consumeAllTokens account_send 5 (Some "eu-west-1")
      (ListImportsCommand "rtc-staging-app:queue") Imports
    = ([Send (Some "eu-west-1") (ListImportsCommand "rtc-staging-app:queue" None)],
       Throw (CloudFormationServiceException "ValidationError"
                (notImported "rtc-staging-app:queue")))) by run.
  pose proof (first_revision_cfListImports noFile falsyText account_send 5 "rtc-staging-app:queue"
                (Some "eu-west-1") eq_refl) as (_ & _ & H).
  destruct (H _ _ Hrun) as [Hfirst Hlatest].
  split; [exact Hfirst |].
  exact (Hlatest CACHE_DIR "eu-west-1_cfListImports-rtc-staging-app:queue"
           (or_introl eq_refl)).
Defined.

Lemma processCloudFormation_fetches_first_witness :
  exists stacks exportsWithImportingStacks,
    fetches noFile account_send 5 CACHE_DIR eu_west_1 stacks exportsWithImportingStacks.
Proof.
  assert (Hrun :
    trace (processCloudFormation noFile account_send 5 CACHE_DIR eu_west_1 "staging"
             (Some ["bas"]) None)
    = (accountFetch
       ++ [WriteFile (unitFile STACK_OUTPUT_DIR "bas-staging-config") "";
           WriteFile (unitFile STACK_OUTPUT_DIR "bas-staging-config") "";
           WriteFile (unitFile STACK_OUTPUT_DIR "bas-staging-app") "";
           WriteFile (unitFile STACK_OUTPUT_DIR "bas-staging-app") "";
           AppendFile (unitFile STACK_OUTPUT_DIR "bas-staging-app")
             (requireLine "bas-staging-config" (Some "bas-staging-config:url"))])%list)
    by run.
  destruct (processCloudFormation_fetches_first noFile account_send 5 CACHE_DIR eu_west_1
              "staging" (Some ["bas"]) None) as (tf & te & Ht & Hf & _ & H).
  apply H. intros ->. rewrite app_nil_r, Hrun in Ht. subst tf.
  pose proof (proj2 (proj1 (Forall_app _ _ _) Hf)) as Hw.
  inversion Hw as [| ? ? Hx _]. simpl in Hx. destruct Hx as (key & Hkey).
  discriminate Hkey.
Defined.
